(** * TOON encoder/decoder: a shallow embedding of the TypeScript sources

    The development follows the layout of [packages/toon/src]: constants,
    shared/string-utils, shared/literal-utils, shared/validation,
    encode/primitives, encode/writer, decode/scanner, decode/parser,
    decode/decoders and the two entry points of index.ts.

    - A JavaScript string is modelled by [string]; one [ascii] stands for
      one UTF-16 code unit, so the model covers the code units
      U+0000..U+00FF.
    - Exceptions are modelled by the [result] type; an index that the
      source reports as [-1] when nothing is found is [None], and so is
      [undefined].
    - A mutable object that the source passes around (the line cursor, the
      line writer, the object under construction) is passed and returned.
    - The decoders recurse on the lines that are left; they take a [fuel]
      that [decode] sets and that is shown to suffice
      ([decode_fuel_enough]).
    - decode/validation.ts and encode/encoders.ts are not among the
      sources.  The decoders are written over any checks of the first
      ([Validators]); definitions that follow the specification instead of
      a source say so. *)

From Stdlib Require Import String Ascii List Bool Arith ZArith Lia DecimalString DecimalNat.
Import ListNotations.

Local Open Scope string_scope.
Local Open Scope list_scope.

(* ================================================================= *)
(** ** constants.ts *)

Definition LIST_ITEM_MARKER : ascii := "-".
Definition LIST_ITEM_PREFIX : string := "- ".
Definition COMMA : ascii := ",".
Definition COLON : ascii := ":".
Definition SPACE : ascii := " ".
Definition PIPE : ascii := "|".
Definition HASH : ascii := "#".
Definition OPEN_BRACKET : ascii := "[".
Definition CLOSE_BRACKET : ascii := "]".
Definition OPEN_BRACE : ascii := "{".
Definition CLOSE_BRACE : ascii := "}".
Definition NULL_LITERAL : string := "null".
Definition TRUE_LITERAL : string := "true".
Definition FALSE_LITERAL : string := "false".
Definition BACKSLASH : ascii := "\".
Definition DOUBLE_QUOTE : ascii := "034".
Definition NEWLINE : ascii := "010".
Definition CARRIAGE_RETURN : ascii := "013".
Definition TAB : ascii := "009".

(** [Delimiter] is the union type [',' | '\t' | '|']. *)
Inductive Delimiter : Set := DelimComma | DelimTab | DelimPipe.

Definition delimiter_char (d : Delimiter) : ascii :=
  match d with
  | DelimComma => COMMA
  | DelimTab => TAB
  | DelimPipe => PIPE
  end.

Definition DEFAULT_DELIMITER : Delimiter := DelimComma.

(* ================================================================= *)
(** ** Exceptions *)

(** Errors raised by decode/validation.ts, whose source is not part of the
    tree that is embedded here. *)
Inductive validation_error : Set :=
| LengthMismatch (expected actual : Z) (itemType : string)
| BlankLineInArray (lineNumber : nat) (context : string)
| ExtraListItems (expected : Z)
| ExtraTabularRows (expected : Z).

(** One constructor per [throw] of the sources. *)
Inductive error : Set :=
| TypeError_EmptyInput
| TypeError_InvalidArrayLength (seg : string)
| SyntaxError_BackslashAtEnd
| SyntaxError_InvalidEscape (next : ascii)
| SyntaxError_UnterminatedString
| SyntaxError_AfterClosingQuote
| SyntaxError_MissingColon
| SyntaxError_UnterminatedKey
| SyntaxError_TabsInIndent (lineNumber : nat)
| SyntaxError_IndentNotMultiple (lineNumber indentSize indent : nat)
| ReferenceError_NoContent
| ReferenceError_ExpectedListItem
| Validation (e : validation_error)
| OutOfFuel.

Definition is_SyntaxError (e : error) : bool :=
  match e with
  | SyntaxError_BackslashAtEnd | SyntaxError_InvalidEscape _
  | SyntaxError_UnterminatedString | SyntaxError_AfterClosingQuote
  | SyntaxError_MissingColon | SyntaxError_UnterminatedKey
  | SyntaxError_TabsInIndent _ | SyntaxError_IndentNotMultiple _ _ _ => true
  | _ => false
  end.

Inductive result (A : Type) : Type :=
| OK (a : A)
| Err (e : error).
Arguments OK {A} a.
Arguments Err {A} e.

Definition bind {A B} (r : result A) (k : A -> result B) : result B :=
  match r with
  | OK a => k a
  | Err e => Err e
  end.

Notation "x <- r ;; k" := (bind r (fun x => k))
  (at level 61, r at next level, right associativity).
Notation "' p <- r ;; k" := (bind r (fun p => k))
  (at level 61, p pattern, r at next level, right associativity).

Fixpoint mapM {A B} (f : A -> result B) (l : list A) : result (list B) :=
  match l with
  | [] => OK []
  | a :: l' => b <- f a ;; bs <- mapM f l' ;; OK (b :: bs)
  end.

(* ================================================================= *)
(** ** String primitives of the host language *)

Definition is_empty (s : string) : bool :=
  match s with
  | EmptyString => true
  | String _ _ => false
  end.

(** [s.slice(n)] *)
Fixpoint drop (n : nat) (s : string) : string :=
  match n, s with
  | O, _ => s
  | S n', String _ r => drop n' r
  | S _, EmptyString => EmptyString
  end.

(** [s.slice(0, n)] *)
Fixpoint take (n : nat) (s : string) : string :=
  match n, s with
  | S n', String c r => String c (take n' r)
  | _, _ => EmptyString
  end.

(** [s.slice(a, b)] for [0 <= a] and [0 <= b]. *)
Definition slice (a b : nat) (s : string) : string :=
  take (b - a) (drop a s).

(** [s.includes(c)] for a one-character [c]. *)
Fixpoint includes (c : ascii) (s : string) : bool :=
  match s with
  | EmptyString => false
  | String a r => Ascii.eqb a c || includes c r
  end.

(** [s.startsWith(c)] for a one-character [c]. *)
Definition startsWith (c : ascii) (s : string) : bool :=
  match s with
  | String a _ => Ascii.eqb a c
  | EmptyString => false
  end.

(** [s.startsWith(p)] *)
Definition startsWithStr (p s : string) : bool := String.prefix p s.

(** [s.endsWith(c)] for a one-character [c]. *)
Fixpoint endsWith (c : ascii) (s : string) : bool :=
  match s with
  | EmptyString => false
  | String a EmptyString => Ascii.eqb a c
  | String _ r => endsWith c r
  end.

(** [s.slice(0, -1)] *)
Fixpoint dropLast (s : string) : string :=
  match s with
  | EmptyString => EmptyString
  | String _ EmptyString => EmptyString
  | String a r => String a (dropLast r)
  end.

(** [s.indexOf(c, from)]: the index of the first [c] at or after [from]. *)
Fixpoint indexOf_aux (c : ascii) (s : string) (i : nat) : option nat :=
  match s with
  | EmptyString => None
  | String a r => if Ascii.eqb a c then Some i else indexOf_aux c r (S i)
  end.

Definition indexOf (c : ascii) (from : nat) (s : string) : option nat :=
  indexOf_aux c (drop from s) from.

(** White space as [String.prototype.trim] and the [Number] conversion see
    it, among the code units below 256: TAB, LF, VT, FF, CR, SP and NBSP. *)
Definition is_whitespace (c : ascii) : bool :=
  match nat_of_ascii c with
  | 9 | 10 | 11 | 12 | 13 | 32 | 160 => true
  | _ => false
  end.

Fixpoint trimStart (s : string) : string :=
  match s with
  | EmptyString => EmptyString
  | String c r => if is_whitespace c then trimStart r else s
  end.

Fixpoint trimEnd (s : string) : string :=
  match s with
  | EmptyString => EmptyString
  | String c r =>
      let r' := trimEnd r in
      if is_whitespace c && is_empty r' then EmptyString else String c r'
  end.

Definition trim (s : string) : string := trimEnd (trimStart s).

(** [s.split('\n')] *)
Fixpoint split_lines (s : string) : list string :=
  match s with
  | EmptyString => [EmptyString]
  | String c r =>
      if Ascii.eqb c NEWLINE then EmptyString :: split_lines r
      else match split_lines r with
           | l :: ls => String c l :: ls
           | [] => [String c EmptyString]
           end
  end.

(** [parts.join(sep)] *)
Fixpoint join (sep : string) (parts : list string) : string :=
  match parts with
  | [] => EmptyString
  | [p] => p
  | p :: ps => p ++ sep ++ join sep ps
  end.

(** A string between double quotes. *)
Definition quoted (s : string) : string :=
  String DOUBLE_QUOTE (s ++ String DOUBLE_QUOTE EmptyString).

(* ================================================================= *)
(** ** shared/string-utils.ts *)

(** [value.replace(/c/g, rep)] for a one-character pattern and a replacement
    without [$]. *)
Fixpoint replaceAll (c : ascii) (rep : string) (value : string) : string :=
  match value with
  | EmptyString => EmptyString
  | String a r =>
      if Ascii.eqb a c then rep ++ replaceAll c rep r
      else String a (replaceAll c rep r)
  end.

Definition escapeString (value : string) : string :=
  replaceAll TAB (String BACKSLASH "t")
    (replaceAll CARRIAGE_RETURN (String BACKSLASH "r")
      (replaceAll NEWLINE (String BACKSLASH "n")
        (replaceAll DOUBLE_QUOTE (String BACKSLASH (String DOUBLE_QUOTE ""))
          (replaceAll BACKSLASH (String BACKSLASH (String BACKSLASH ""))
            value)))).

(** The loop over [i] consumes the string from the left; [result] is what
    the remaining input contributes. *)
Fixpoint unescapeString (value : string) : result string :=
  match value with
  | EmptyString => OK EmptyString
  | String c rest =>
      if Ascii.eqb c BACKSLASH then
        match rest with
        | EmptyString => Err SyntaxError_BackslashAtEnd
        | String next rest' =>
            if Ascii.eqb next "n" then
              r <- unescapeString rest' ;; OK (String NEWLINE r)
            else if Ascii.eqb next "t" then
              r <- unescapeString rest' ;; OK (String TAB r)
            else if Ascii.eqb next "r" then
              r <- unescapeString rest' ;; OK (String CARRIAGE_RETURN r)
            else if Ascii.eqb next BACKSLASH then
              r <- unescapeString rest' ;; OK (String BACKSLASH r)
            else if Ascii.eqb next DOUBLE_QUOTE then
              r <- unescapeString rest' ;; OK (String DOUBLE_QUOTE r)
            else Err (SyntaxError_InvalidEscape next)
        end
      else r <- unescapeString rest ;; OK (String c r)
  end.

(** The loop of [findClosingQuote], at index [i] with [s] the input from
    [i] on.  A backslash that is the last character is no quote, and the
    loop ends after it. *)
Fixpoint findClosingQuote_loop (s : string) (i : nat) : option nat :=
  match s with
  | EmptyString => None
  | String c rest =>
      if Ascii.eqb c BACKSLASH then
        match rest with
        | String _ rest' => findClosingQuote_loop rest' (i + 2)
        | EmptyString => None
        end
      else if Ascii.eqb c DOUBLE_QUOTE then Some i
      else findClosingQuote_loop rest (i + 1)
  end.

Definition findClosingQuote (content : string) (start : nat) : option nat :=
  findClosingQuote_loop (drop (start + 1) content) (start + 1).

(** The loop of [findUnquotedChar]. A backslash that is the last character
    of the input falls through to the tests below it. *)
Fixpoint findUnquotedChar_loop (s : string) (char : ascii) (inQuotes : bool)
    (i : nat) : option nat :=
  match s with
  | EmptyString => None
  | String c rest =>
      let fallthrough :=
        if Ascii.eqb c DOUBLE_QUOTE then
          findUnquotedChar_loop rest char (negb inQuotes) (i + 1)
        else if Ascii.eqb c char && negb inQuotes then Some i
        else findUnquotedChar_loop rest char inQuotes (i + 1) in
      if Ascii.eqb c BACKSLASH && inQuotes then
        match rest with
        | String _ rest' => findUnquotedChar_loop rest' char inQuotes (i + 2)
        | EmptyString => fallthrough
        end
      else fallthrough
  end.

Definition findUnquotedChar (content : string) (char : ascii) (start : nat)
  : option nat :=
  findUnquotedChar_loop (drop start content) char false start.

(* ================================================================= *)
(** ** Numbers of the host language *)

(** A [number] is the value of a numeric literal before the host rounds it
    to a double: [Finite neg m e] is [m * 10^e], negated when [neg].  A
    literal whose value rounds to an infinity is [Infinity].  The rounding
    of a finite value is not modelled, so two literals of one double may be
    two terms; nothing below compares numbers. *)
Inductive number : Set :=
| NaN
| Infinity (negative : bool)
| Finite (negative : bool) (mantissa : N) (exp10 : Z).

Definition isNaN (n : number) : bool :=
  match n with NaN => true | _ => false end.

Definition isFinite (n : number) : bool :=
  match n with Finite _ _ _ => true | _ => false end.

(** Round-to-nearest sends to infinity every magnitude from
    [2^1024 - 2^970] on, half an ulp above the largest double. *)
Definition overflow_threshold : Z := (2 ^ 1024 - 2 ^ 970)%Z.

Definition overflows (m : N) (e : Z) : bool :=
  if (0 <=? e)%Z then (overflow_threshold <=? Z.of_N m * 10 ^ e)%Z
  else (overflow_threshold * 10 ^ (- e) <=? Z.of_N m)%Z.

Definition mk_number (neg : bool) (m : N) (e : Z) : number :=
  if overflows m e then Infinity neg else Finite neg m e.

Definition is_digit (c : ascii) : bool :=
  let n := nat_of_ascii c in (48 <=? n)%nat && (n <=? 57)%nat.

Definition digit_value (c : ascii) : N := N.of_nat (nat_of_ascii c - 48).

(** The longest prefix of decimal digits, and what follows it. *)
Fixpoint span_digits (s : string) : string * string :=
  match s with
  | EmptyString => (EmptyString, EmptyString)
  | String c r =>
      if is_digit c then
        let (d, rest) := span_digits r in (String c d, rest)
      else (EmptyString, s)
  end.

Fixpoint digits_value_acc (ds : string) (acc : N) : N :=
  match ds with
  | EmptyString => acc
  | String c r => digits_value_acc r (10 * acc + digit_value c)%N
  end.

Definition digits_value (ds : string) : N := digits_value_acc ds 0%N.

(** [ExponentPart], when one is there: its value and what follows it. *)
Definition scan_exponent (s : string) : Z * string :=
  match s with
  | String c r =>
      if Ascii.eqb c "e" || Ascii.eqb c "E" then
        let '(neg, r1) :=
          match r with
          | String sg r' =>
              if Ascii.eqb sg "-" then (true, r')
              else if Ascii.eqb sg "+" then (false, r')
              else (false, r)
          | EmptyString => (false, r)
          end in
        let (ds, rest) := span_digits r1 in
        if is_empty ds then (0%Z, s)
        else ((if neg then - Z.of_N (digits_value ds)
               else Z.of_N (digits_value ds))%Z, rest)
      else (0%Z, s)
  | EmptyString => (0%Z, s)
  end.

(** The longest prefix that is a [StrUnsignedDecimalLiteral]:
    [Infinity], [digits . digits? exp?], [. digits exp?] or [digits exp?]. *)
Definition scan_unsigned (neg : bool) (s : string) : option (number * string) :=
  if String.prefix "Infinity" s then Some (Infinity neg, drop 8 s)
  else
    let (ip, r1) := span_digits s in
    let no_point :=
      if is_empty ip then None
      else
        let (e, rest) := scan_exponent r1 in
        Some (mk_number neg (digits_value ip) e, rest) in
    match r1 with
    | String c r2 =>
        if Ascii.eqb c "." then
          let (fp, r3) := span_digits r2 in
          if is_empty ip && is_empty fp then None
          else
            let (e, rest) := scan_exponent r3 in
            Some (mk_number neg (digits_value (ip ++ fp))
                    (e - Z.of_nat (String.length fp)), rest)
        else no_point
    | EmptyString => no_point
    end.

(** The longest prefix that is a [StrDecimalLiteral]. *)
Definition scan_decimal (s : string) : option (number * string) :=
  match s with
  | String c r =>
      if Ascii.eqb c "-" then scan_unsigned true r
      else if Ascii.eqb c "+" then scan_unsigned false r
      else scan_unsigned false s
  | EmptyString => scan_unsigned false s
  end.

Definition radix_digit (radix : N) (c : ascii) : option N :=
  let n := nat_of_ascii c in
  let v :=
    if (48 <=? n)%nat && (n <=? 57)%nat then Some (N.of_nat (n - 48))
    else if (97 <=? n)%nat && (n <=? 102)%nat then Some (N.of_nat (n - 87))
    else if (65 <=? n)%nat && (n <=? 70)%nat then Some (N.of_nat (n - 55))
    else None in
  match v with
  | Some d => if (d <? radix)%N then Some d else None
  | None => None
  end.

Fixpoint radix_value (radix : N) (ds : string) (acc : N) : option N :=
  match ds with
  | EmptyString => Some acc
  | String c r =>
      match radix_digit radix c with
      | Some d => radix_value radix r (radix * acc + d)%N
      | None => None
      end
  end.

(** [NonDecimalIntegerLiteral]: [0x], [0o] or [0b] and at least one digit. *)
Definition scan_non_decimal (s : string) : option number :=
  match s with
  | String z (String p ds) =>
      let radix :=
        if negb (Ascii.eqb z "0") then None
        else if Ascii.eqb p "x" || Ascii.eqb p "X" then Some 16%N
        else if Ascii.eqb p "o" || Ascii.eqb p "O" then Some 8%N
        else if Ascii.eqb p "b" || Ascii.eqb p "B" then Some 2%N
        else None in
      match radix with
      | Some rd =>
          if is_empty ds then None
          else match radix_value rd ds 0%N with
               | Some v => Some (mk_number false v 0)
               | None => None
               end
      | None => None
      end
  | _ => None
  end.

(** [Number(s)] on a string: white space is stripped, the empty string is
    [0], and anything that is not a [StrNumericLiteral] is [NaN]. *)
Definition Number (s : string) : number :=
  let t := trim s in
  if is_empty t then Finite false 0 0
  else
    match scan_non_decimal t with
    | Some n => n
    | None =>
        match scan_decimal t with
        | Some (n, EmptyString) => n
        | _ => NaN
        end
    end.

(** [Number.parseFloat(s)]: the longest prefix of the input without its
    leading white space that is a [StrDecimalLiteral]. *)
Definition parseFloat (s : string) : number :=
  match scan_decimal (trimStart s) with
  | Some (n, _) => n
  | None => NaN
  end.

(** [Number.parseInt(s, 10)]: leading white space, a sign, then the longest
    run of decimal digits; what follows the digits is ignored.  [None] is
    [NaN]. *)
Definition parseInt10 (s : string) : option Z :=
  let t := trimStart s in
  let '(neg, r) :=
    match t with
    | String c r =>
        if Ascii.eqb c "-" then (true, r)
        else if Ascii.eqb c "+" then (false, r)
        else (false, t)
    | EmptyString => (false, t)
    end in
  let (ds, _) := span_digits r in
  if is_empty ds then None
  else Some (if neg then - Z.of_N (digits_value ds)
             else Z.of_N (digits_value ds))%Z.

(* ================================================================= *)
(** ** types.ts *)

Inductive JsonPrimitive : Set :=
| PString (s : string)
| PNumber (n : number)
| PBoolean (b : bool)
| PNull.

(** [JsonValue = JsonPrimitive | JsonObject | JsonArray].  An object is the
    list of its own properties in insertion order.  [JUndefined] is the
    value a tabular row leaves in a field for which it has no cell. *)
#[warnings="-register-all"]
Inductive JsonValue : Set :=
| JPrim (p : JsonPrimitive)
| JArray (items : list JsonValue)
| JObject (entries : list (string * JsonValue))
| JUndefined.

Definition JsonObject : Set := list (string * JsonValue).

(** [obj[key] = value]: an existing property keeps its place and takes the
    new value, a new property goes last.  (The host lists properties whose
    names are array indices first, and on a plain object the name
    [__proto__] is the accessor of the prototype and stores no property of
    the object itself; neither is modelled.) *)
Fixpoint obj_set (obj : JsonObject) (key : string) (value : JsonValue)
  : JsonObject :=
  match obj with
  | [] => [(key, value)]
  | (k, v) :: rest =>
      if String.eqb k key then (k, value) :: rest
      else (k, v) :: obj_set rest key value
  end.

Record ResolvedDecodeOptions : Set := {
  opt_indent : nat;
  opt_strict : bool
}.

(** The fields [key], [length], [delimiter] and [fields] carry an [h]. *)
Record ArrayHeaderInfo : Set := {
  hkey : option string;
  hlength : Z;
  hdelimiter : Delimiter;
  hfields : option (list string);
  hasLengthMarker : bool
}.

Record ParsedLine : Set := {
  raw : string;
  depth : nat;
  indent : nat;
  content : string;
  lineNumber : nat
}.

Record BlankLineInfo : Set := {
  blank_lineNumber : nat;
  blank_indent : nat;
  blank_depth : nat
}.

(* ================================================================= *)
(** ** shared/literal-utils.ts *)

Definition isBooleanOrNullLiteral (token : string) : bool :=
  String.eqb token TRUE_LITERAL || String.eqb token FALSE_LITERAL
  || String.eqb token NULL_LITERAL.

(** [s[i] === c] *)
Definition charAt_is (i : nat) (s : string) (c : ascii) : bool :=
  match String.get i s with
  | Some a => Ascii.eqb a c
  | None => false
  end.

Definition isNumericLiteral (token : string) : bool :=
  if is_empty token then false
  else if (1 <? String.length token)%nat && charAt_is 0 token "0"
          && negb (charAt_is 1 token ".") then false
  else let num := Number token in negb (isNaN num) && isFinite num.

(* ================================================================= *)
(** ** decode/parser.ts *)

(** [parseBracketSegment] either returns or throws its [TypeError]. *)
Definition parseBracketSegment (seg : string) (defaultDelimiter : Delimiter)
  : result (Z * Delimiter * bool) :=
  let '(hasMarker, content1) :=
    if startsWith HASH seg then (true, drop 1 seg) else (false, seg) in
  let '(delim, content2) :=
    if endsWith TAB content1 then (DelimTab, dropLast content1)
    else if endsWith PIPE content1 then (DelimPipe, dropLast content1)
    else (defaultDelimiter, content1) in
  match parseInt10 content2 with
  | None => Err (TypeError_InvalidArrayLength seg)
  | Some len => OK (len, delim, hasMarker)
  end.

(** The loop of [parseDelimitedValues]; [input] is what is left from index
    [i] on.  A backslash that is the last character falls through to the
    tests below it. *)
Fixpoint parseDelimitedValues_loop (input : string) (delimiter : Delimiter)
    (values : list string) (current : string) (inQuotes : bool)
  : list string :=
  match input with
  | EmptyString =>
      if negb (is_empty current) || (0 <? List.length values)%nat
      then values ++ [trim current]
      else values
  | String char rest =>
      let fallthrough :=
        if Ascii.eqb char DOUBLE_QUOTE then
          parseDelimitedValues_loop rest delimiter values
            (current ++ String char EmptyString) (negb inQuotes)
        else if Ascii.eqb char (delimiter_char delimiter) && negb inQuotes then
          parseDelimitedValues_loop rest delimiter
            (values ++ [trim current]) EmptyString inQuotes
        else
          parseDelimitedValues_loop rest delimiter values
            (current ++ String char EmptyString) inQuotes in
      if Ascii.eqb char BACKSLASH && inQuotes then
        match rest with
        | String next rest' =>
            parseDelimitedValues_loop rest' delimiter values
              (current ++ String char (String next EmptyString)) inQuotes
        | EmptyString => fallthrough
        end
      else fallthrough
  end.

Definition parseDelimitedValues (input : string) (delimiter : Delimiter)
  : list string :=
  parseDelimitedValues_loop input delimiter [] EmptyString false.

Definition parseStringLiteral (token : string) : result string :=
  let trimmed := trim token in
  if startsWith DOUBLE_QUOTE trimmed then
    match findClosingQuote trimmed 0 with
    | None => Err SyntaxError_UnterminatedString
    | Some closingQuoteIndex =>
        if negb (closingQuoteIndex =? String.length trimmed - 1)%nat
        then Err SyntaxError_AfterClosingQuote
        else unescapeString (slice 1 closingQuoteIndex trimmed)
    end
  else OK trimmed.

Definition parsePrimitiveToken (token : string) : result JsonPrimitive :=
  let trimmed := trim token in
  if is_empty trimmed then OK (PString EmptyString)
  else if startsWith DOUBLE_QUOTE trimmed then
    s <- parseStringLiteral trimmed ;; OK (PString s)
  else if String.eqb trimmed TRUE_LITERAL then OK (PBoolean true)
  else if String.eqb trimmed FALSE_LITERAL then OK (PBoolean false)
  else if String.eqb trimmed NULL_LITERAL then OK PNull
  else if isNumericLiteral trimmed then OK (PNumber (parseFloat trimmed))
  else OK (PString trimmed).

Definition mapRowValuesToPrimitives (values : list string)
  : result (list JsonPrimitive) :=
  mapM parsePrimitiveToken values.

(** The [while] loop stops at the first colon at or after [start]. *)
Definition parseUnquotedKey (content : string) (start : nat)
  : result (string * nat) :=
  match indexOf COLON start content with
  | None => Err SyntaxError_MissingColon
  | Some e => OK (trim (slice start e content), e + 1)
  end.

Definition parseQuotedKey (content : string) (start : nat)
  : result (string * nat) :=
  match findClosingQuote content start with
  | None => Err SyntaxError_UnterminatedKey
  | Some closingQuoteIndex =>
      k <- unescapeString (slice (start + 1) closingQuoteIndex content) ;;
      let e := closingQuoteIndex + 1 in
      if (String.length content <=? e)%nat || negb (charAt_is e content COLON)
      then Err SyntaxError_MissingColon
      else OK (k, e + 1)
  end.

Definition parseKeyToken (content : string) (start : nat)
  : result (string * nat) :=
  if charAt_is start content DOUBLE_QUOTE then parseQuotedKey content start
  else parseUnquotedKey content start.

(** [a < b] where [b] is an index or [-1]. *)
Definition lt_index (a : nat) (b : option nat) : bool :=
  match b with
  | Some n => (a <? n)%nat
  | None => false
  end.

(** [undefined] is [None]; the only exception that escapes is the one of
    [parseStringLiteral] on a field name. *)
Definition parseArrayHeaderLine (content : string) (defaultDelimiter : Delimiter)
  : result (option (ArrayHeaderInfo * option string)) :=
  if startsWith DOUBLE_QUOTE (trimStart content) then OK None
  else
    match indexOf OPEN_BRACKET 0 content with
    | None => OK None
    | Some bracketStart =>
    match indexOf CLOSE_BRACKET bracketStart content with
    | None => OK None
    | Some bracketEnd =>
      let braceStart := indexOf OPEN_BRACE bracketEnd content in
      let braceEnd :=
        match braceStart with
        | Some bs =>
            if lt_index bs (indexOf COLON bracketEnd content) then
              match indexOf CLOSE_BRACE bs content with
              | Some foundBraceEnd => foundBraceEnd + 1
              | None => bracketEnd + 1
              end
            else bracketEnd + 1
        | None => bracketEnd + 1
        end in
      match indexOf COLON (Nat.max bracketEnd braceEnd) content with
      | None => OK None
      | Some colonIndex =>
        let k := if (0 <? bracketStart)%nat
                 then Some (slice 0 bracketStart content) else None in
        let afterColon := trim (drop (colonIndex + 1) content) in
        let bracketContent := slice (bracketStart + 1) bracketEnd content in
        match parseBracketSegment bracketContent defaultDelimiter with
        | Err _ => OK None
        | OK (len, delim, hasMarker) =>
          flds <-
            match braceStart with
            | Some bs =>
                if (bs <? colonIndex)%nat then
                  match indexOf CLOSE_BRACE bs content with
                  | Some foundBraceEnd =>
                      if (foundBraceEnd <? colonIndex)%nat then
                        fs <- mapM (fun field => parseStringLiteral (trim field))
                                (parseDelimitedValues
                                   (slice (bs + 1) foundBraceEnd content) delim) ;;
                        OK (Some fs)
                      else OK None
                  | None => OK None
                  end
                else OK None
            | None => OK None
            end ;;
          OK (Some ({| hkey := k; hlength := len; hdelimiter := delim;
                       hfields := flds; hasLengthMarker := hasMarker |},
                    if is_empty afterColon then None else Some afterColon))
        end
      end
    end
    end.

Definition isArrayHeaderAfterHyphen (content : string) : bool :=
  startsWith OPEN_BRACKET (trim content)
  && match findUnquotedChar content COLON 0 with Some _ => true | None => false end.

Definition isObjectFirstFieldAfterHyphen (content : string) : bool :=
  match findUnquotedChar content COLON 0 with Some _ => true | None => false end.

(* ================================================================= *)
(** ** decode/scanner.ts *)

Record ScanResult : Set := {
  lines : list ParsedLine;
  blankLines : list BlankLineInfo
}.

(** The cursor is a mutable object; the decoders below pass it along. *)
Record LineCursor : Set := {
  cur_lines : list ParsedLine;
  cur_index : nat;
  cur_blankLines : list BlankLineInfo
}.

Definition newLineCursor (ls : list ParsedLine) (bs : list BlankLineInfo)
  : LineCursor :=
  {| cur_lines := ls; cur_index := 0; cur_blankLines := bs |}.

Definition getBlankLines (c : LineCursor) : list BlankLineInfo :=
  cur_blankLines c.

Definition peek (c : LineCursor) : option ParsedLine :=
  nth_error (cur_lines c) (cur_index c).

Definition advance (c : LineCursor) : LineCursor :=
  {| cur_lines := cur_lines c; cur_index := cur_index c + 1;
     cur_blankLines := cur_blankLines c |}.

Definition next (c : LineCursor) : option ParsedLine * LineCursor :=
  (nth_error (cur_lines c) (cur_index c), advance c).

Definition current (c : LineCursor) : option ParsedLine :=
  if (0 <? cur_index c)%nat then nth_error (cur_lines c) (cur_index c - 1)
  else None.

Definition atEnd (c : LineCursor) : bool :=
  (List.length (cur_lines c) <=? cur_index c)%nat.

Definition cursor_length (c : LineCursor) : nat := List.length (cur_lines c).

Definition peekAtDepth (c : LineCursor) (targetDepth : nat)
  : option ParsedLine :=
  match peek c with
  | None => None
  | Some line =>
      if (depth line <? targetDepth)%nat then None
      else if (depth line =? targetDepth)%nat then Some line
      else None
  end.

Definition hasMoreAtDepth (c : LineCursor) (targetDepth : nat) : bool :=
  match peekAtDepth c targetDepth with Some _ => true | None => false end.

(** [Math.floor(indentSpaces / indentSize)] for a positive [indentSize].
    For [indentSize = 0] the host's quotient is NaN or Infinity, which a
    natural number does not model: the statements about depths assume a
    positive [indentSize]. *)
Definition computeDepthFromIndent (indentSpaces indentSize : nat) : nat :=
  indentSpaces / indentSize.

(** The number of leading characters of [s] that satisfy [p]: the two
    [while] loops over [indent] and [wsEnd]. *)
Fixpoint count_leading (p : ascii -> bool) (s : string) : nat :=
  match s with
  | String c r => if p c then S (count_leading p r) else 0
  | EmptyString => 0
  end.

(** The [for] loop over the raw lines; [lineNumber] is [i + 1].  The result
    is what the remaining lines push on [parsed] and [blankLines]. *)
Fixpoint toParsedLines_loop (raws : list string) (lineNumber : nat)
    (indentSize : nat) (strict : bool)
  : result (list ParsedLine * list BlankLineInfo) :=
  match raws with
  | [] => OK ([], [])
  | raw_ :: rest =>
      let indent_ := count_leading (fun c => Ascii.eqb c SPACE) raw_ in
      let content_ := drop indent_ raw_ in
      if is_empty (trim content_) then
        '(parsed, blanks) <- toParsedLines_loop rest (S lineNumber) indentSize strict ;;
        OK (parsed,
            {| blank_lineNumber := lineNumber; blank_indent := indent_;
               blank_depth := computeDepthFromIndent indent_ indentSize |}
            :: blanks)
      else
        let depth_ := computeDepthFromIndent indent_ indentSize in
        let wsEnd :=
          count_leading (fun c => Ascii.eqb c SPACE || Ascii.eqb c TAB) raw_ in
        if strict && includes TAB (take wsEnd raw_) then
          Err (SyntaxError_TabsInIndent lineNumber)
        else if strict && (0 <? indent_)%nat
                && negb (indent_ mod indentSize =? 0)%nat then
          Err (SyntaxError_IndentNotMultiple lineNumber indentSize indent_)
        else
          '(parsed, blanks) <- toParsedLines_loop rest (S lineNumber) indentSize strict ;;
          OK ({| raw := raw_; depth := depth_; indent := indent_;
                 content := content_; lineNumber := lineNumber |} :: parsed,
              blanks)
  end.

Definition toParsedLines (source : string) (indentSize : nat) (strict : bool)
  : result ScanResult :=
  if is_empty (trim source) then OK {| lines := []; blankLines := [] |}
  else
    '(parsed, blanks) <- toParsedLines_loop (split_lines source) 1 indentSize strict ;;
    OK {| lines := parsed; blankLines := blanks |}.

(* ================================================================= *)
(** ** decode/validation.ts *)

(** The four checks that decode/decoders.ts imports from
    decode/validation.ts.  Each either returns or throws; [None] is a
    normal return.  The decoders below are written over any such checks. *)
Record Validators : Type := {
  assertExpectedCount :
    Z -> Z -> string -> ResolvedDecodeOptions -> option validation_error;
  validateNoBlankLinesInRange :
    nat -> nat -> list BlankLineInfo -> bool -> string -> option validation_error;
  validateNoExtraListItems :
    LineCursor -> nat -> Z -> option validation_error;
  validateNoExtraTabularRows :
    LineCursor -> nat -> ArrayHeaderInfo -> option validation_error
}.

Definition check (v : option validation_error) : result unit :=
  match v with
  | None => OK tt
  | Some e => Err (Validation e)
  end.

(** Modelled from the spec: decode/validation.ts is not among the sources.
    "After reading a body, the decoder asserts that the exact declared count
    was produced" (LengthMismatch: declared N differs from the actual
    item/row/value count; TabularWidthMismatch: row value count differs from
    the field count). *)
Definition spec_assertExpectedCount (actual expected : Z) (itemType : string)
    (options : ResolvedDecodeOptions) : option validation_error :=
  if (actual =? expected)%Z then None
  else Some (LengthMismatch expected actual itemType).

(** Modelled from the spec: decode/validation.ts is not among the sources.
    StrictBlankInArray: in strict mode, a blank line between the first and
    the last item or row of an array. *)
Definition spec_validateNoBlankLinesInRange (startLine endLine : nat)
    (blanks : list BlankLineInfo) (strict : bool) (context : string)
  : option validation_error :=
  if strict then
    match find (fun b => (startLine <? blank_lineNumber b)%nat
                         && (blank_lineNumber b <? endLine)%nat) blanks with
    | Some b => Some (BlankLineInArray (blank_lineNumber b) context)
    | None => None
    end
  else None.

(** Modelled from the spec: decode/validation.ts is not among the sources.
    "In strict mode it additionally checks that no further item lines at the
    same item/row depth follow; surplus items produce a syntax error." *)
Definition spec_validateNoExtraListItems (cursor : LineCursor) (itemDepth : nat)
    (expectedCount : Z) : option validation_error :=
  match peek cursor with
  | Some line =>
      if (depth line =? itemDepth)%nat
         && startsWithStr LIST_ITEM_PREFIX (content line)
      then Some (ExtraListItems expectedCount)
      else None
  | None => None
  end.

(** Modelled from the spec: decode/validation.ts is not among the sources.
    The same check for the rows of a tabular array. *)
Definition spec_validateNoExtraTabularRows (cursor : LineCursor) (rowDepth : nat)
    (header : ArrayHeaderInfo) : option validation_error :=
  match peek cursor with
  | Some line =>
      if (depth line =? rowDepth)%nat
      then Some (ExtraTabularRows (hlength header))
      else None
  | None => None
  end.

(** Modelled from the spec: the four checks of decode/validation.ts as the
    specification describes them, gathered for the decoder. *)
Definition spec_validators : Validators := {|
  assertExpectedCount := spec_assertExpectedCount;
  validateNoBlankLinesInRange := spec_validateNoBlankLinesInRange;
  validateNoExtraListItems := spec_validateNoExtraListItems;
  validateNoExtraTabularRows := spec_validateNoExtraTabularRows
|}.

(** Modelled from the documentation of the [strict] option in types.ts,
    by which [strict] is what enforces the validation of array lengths and
    of tabular row counts, and from the [options] argument that every call
    of [assertExpectedCount] passes: decode/validation.ts is not among the
    sources.  The counts are compared in strict mode only. *)
Definition strict_assertExpectedCount (actual expected : Z) (itemType : string)
    (options : ResolvedDecodeOptions) : option validation_error :=
  if opt_strict options && negb (actual =? expected)%Z
  then Some (LengthMismatch expected actual itemType)
  else None.

(** The checks with the count assertion of strict mode only. *)
Definition strict_validators : Validators := {|
  assertExpectedCount := strict_assertExpectedCount;
  validateNoBlankLinesInRange := spec_validateNoBlankLinesInRange;
  validateNoExtraListItems := spec_validateNoExtraListItems;
  validateNoExtraTabularRows := spec_validateNoExtraTabularRows
|}.

(* ================================================================= *)
(** ** decode/decoders.ts *)

Definition isKeyValueLine (line : ParsedLine) : bool :=
  let content_ := content line in
  if startsWith DOUBLE_QUOTE content_ then
    match findClosingQuote content_ 0 with
    | None => false
    | Some closingQuoteIndex =>
        (closingQuoteIndex + 1 <? String.length content_)%nat
        && charAt_is (closingQuoteIndex + 1) content_ COLON
    end
  else includes COLON content_.

Section Decoders.

Variable V : Validators.

Definition decodeInlinePrimitiveArray (header : ArrayHeaderInfo)
    (inlineValues : string) (options : ResolvedDecodeOptions)
  : result (list JsonPrimitive) :=
  if is_empty (trim inlineValues) then
    _ <- check (assertExpectedCount V 0 (hlength header)
                  "inline array items" options) ;;
    OK []
  else
    let values := parseDelimitedValues inlineValues (hdelimiter header) in
    primitives <- mapRowValuesToPrimitives values ;;
    _ <- check (assertExpectedCount V (Z.of_nat (List.length primitives))
                  (hlength header) "inline array items" options) ;;
    OK primitives.

(** The [for] loop that fills one row object: [obj[fields[i]] = primitives[i]]. *)
Fixpoint fill_row (flds : list string) (primitives : list JsonPrimitive)
    (i : nat) (obj : JsonObject) : JsonObject :=
  match flds with
  | [] => obj
  | f :: flds' =>
      fill_row flds' primitives (S i)
        (obj_set obj f
           match nth_error primitives i with
           | Some p => JPrim p
           | None => JUndefined
           end)
  end.

Definition header_fields (header : ArrayHeaderInfo) : list string :=
  match hfields header with
  | Some fs => fs
  | None => []
  end.

(** The [while] loop of [decodeTabularArray].  Every function that loops or
    calls back into the decoder takes [fuel] and spends one unit per call. *)
Fixpoint decodeTabularArray_loop (fuel : nat) (header : ArrayHeaderInfo)
    (cursor : LineCursor) (rowDepth : nat) (options : ResolvedDecodeOptions)
    (objects : list JsonValue) (startLine endLine : option nat)
  : result (list JsonValue * option nat * option nat * LineCursor) :=
  match fuel with
  | O => Err OutOfFuel
  | S f =>
      if negb (atEnd cursor)
         && (Z.of_nat (List.length objects) <? hlength header)%Z then
        match peek cursor with
        | None => OK (objects, startLine, endLine, cursor)
        | Some line =>
            if (depth line <? rowDepth)%nat then
              OK (objects, startLine, endLine, cursor)
            else if (depth line =? rowDepth)%nat then
              let startLine' :=
                match startLine with
                | None => Some (lineNumber line)
                | Some _ => startLine
                end in
              let endLine' := Some (lineNumber line) in
              let cursor' := advance cursor in
              let values := parseDelimitedValues (content line) (hdelimiter header) in
              _ <- check (assertExpectedCount V (Z.of_nat (List.length values))
                            (Z.of_nat (List.length (header_fields header)))
                            "tabular row values" options) ;;
              primitives <- mapRowValuesToPrimitives values ;;
              let obj := fill_row (header_fields header) primitives 0 [] in
              decodeTabularArray_loop f header cursor' rowDepth options
                (objects ++ [JObject obj]) startLine' endLine'
            else OK (objects, startLine, endLine, cursor)
        end
      else OK (objects, startLine, endLine, cursor)
  end.

Definition decodeTabularArray (fuel : nat) (header : ArrayHeaderInfo)
    (cursor : LineCursor) (baseDepth : nat) (options : ResolvedDecodeOptions)
  : result (list JsonValue * LineCursor) :=
  let rowDepth := baseDepth + 1 in
  '(objects, startLine, endLine, cursor') <-
    decodeTabularArray_loop fuel header cursor rowDepth options [] None None ;;
  _ <- check (assertExpectedCount V (Z.of_nat (List.length objects))
                (hlength header) "tabular rows" options) ;;
  _ <- match startLine, endLine with
       | Some sl, Some el =>
           if opt_strict options then
             check (validateNoBlankLinesInRange V sl el (getBlankLines cursor')
                      (opt_strict options) "tabular array")
           else OK tt
       | _, _ => OK tt
       end ;;
  _ <- (if opt_strict options
        then check (validateNoExtraTabularRows V cursor' rowDepth header)
        else OK tt) ;;
  OK (objects, cursor').

Fixpoint decodeObject_loop (fuel : nat) (cursor : LineCursor) (baseDepth : nat)
    (options : ResolvedDecodeOptions) (obj : JsonObject) {struct fuel}
  : result (JsonObject * LineCursor) :=
  match fuel with
  | O => Err OutOfFuel
  | S f =>
      if atEnd cursor then OK (obj, cursor)
      else
        match peek cursor with
        | None => OK (obj, cursor)
        | Some line =>
            if (depth line <? baseDepth)%nat then OK (obj, cursor)
            else if (depth line =? baseDepth)%nat then
              '(k, value, cursor') <-
                decodeKeyValuePair f line cursor baseDepth options ;;
              decodeObject_loop f cursor' baseDepth options (obj_set obj k value)
            else OK (obj, cursor)
        end
  end

with decodeKeyValue (fuel : nat) (content_ : string) (cursor : LineCursor)
    (baseDepth : nat) (options : ResolvedDecodeOptions) {struct fuel}
  : result (string * JsonValue * nat * LineCursor) :=
  match fuel with
  | O => Err OutOfFuel
  | S f =>
      arrayHeader <- parseArrayHeaderLine content_ DEFAULT_DELIMITER ;;
      let regular :=
        '(k, e) <- parseKeyToken content_ 0 ;;
        let rest := trim (drop e content_) in
        if is_empty rest then
          match peek cursor with
          | Some nextLine =>
              if (baseDepth <? depth nextLine)%nat then
                '(nested, cursor') <-
                  decodeObject_loop f cursor (baseDepth + 1) options [] ;;
                OK (k, JObject nested, baseDepth + 1, cursor')
              else OK (k, JObject [], baseDepth + 1, cursor)
          | None => OK (k, JObject [], baseDepth + 1, cursor)
          end
        else
          value <- parsePrimitiveToken rest ;;
          OK (k, JPrim value, baseDepth + 1, cursor) in
      match arrayHeader with
      | Some (header, inlineValues) =>
          match hkey header with
          | Some k =>
              if is_empty k then regular
              else
                '(value, cursor') <-
                  decodeArrayFromHeader f header inlineValues cursor baseDepth
                    options ;;
                OK (k, JArray value, baseDepth + 1, cursor')
          | None => regular
          end
      | None => regular
      end
  end

with decodeKeyValuePair (fuel : nat) (line : ParsedLine) (cursor : LineCursor)
    (baseDepth : nat) (options : ResolvedDecodeOptions) {struct fuel}
  : result (string * JsonValue * LineCursor) :=
  match fuel with
  | O => Err OutOfFuel
  | S f =>
      let cursor1 := advance cursor in
      '(k, value, _, cursor') <-
        decodeKeyValue f (content line) cursor1 baseDepth options ;;
      OK (k, value, cursor')
  end

with decodeArrayFromHeader (fuel : nat) (header : ArrayHeaderInfo)
    (inlineValues : option string) (cursor : LineCursor) (baseDepth : nat)
    (options : ResolvedDecodeOptions) {struct fuel}
  : result (list JsonValue * LineCursor) :=
  match fuel with
  | O => Err OutOfFuel
  | S f =>
      let multiline :=
        if match hfields header with
           | Some fs => (0 <? List.length fs)%nat
           | None => false
           end
        then decodeTabularArray f header cursor baseDepth options
        else decodeListArray f header cursor baseDepth options in
      match inlineValues with
      | Some iv =>
          if is_empty iv then multiline
          else
            primitives <- decodeInlinePrimitiveArray header iv options ;;
            OK (map JPrim primitives, cursor)
      | None => multiline
      end
  end

with decodeListArray (fuel : nat) (header : ArrayHeaderInfo)
    (cursor : LineCursor) (baseDepth : nat) (options : ResolvedDecodeOptions)
    {struct fuel}
  : result (list JsonValue * LineCursor) :=
  match fuel with
  | O => Err OutOfFuel
  | S f =>
      let itemDepth := baseDepth + 1 in
      '(items, startLine, endLine, cursor') <-
        decodeListArray_loop f header cursor itemDepth options [] None None ;;
      _ <- check (assertExpectedCount V (Z.of_nat (List.length items))
                    (hlength header) "list array items" options) ;;
      _ <- match startLine, endLine with
           | Some sl, Some el =>
               if opt_strict options then
                 check (validateNoBlankLinesInRange V sl el
                          (getBlankLines cursor') (opt_strict options)
                          "list array")
               else OK tt
           | _, _ => OK tt
           end ;;
      _ <- (if opt_strict options
            then check (validateNoExtraListItems V cursor' itemDepth
                          (hlength header))
            else OK tt) ;;
      OK (items, cursor')
  end

with decodeListArray_loop (fuel : nat) (header : ArrayHeaderInfo)
    (cursor : LineCursor) (itemDepth : nat) (options : ResolvedDecodeOptions)
    (items : list JsonValue) (startLine endLine : option nat) {struct fuel}
  : result (list JsonValue * option nat * option nat * LineCursor) :=
  match fuel with
  | O => Err OutOfFuel
  | S f =>
      if negb (atEnd cursor)
         && (Z.of_nat (List.length items) <? hlength header)%Z then
        match peek cursor with
        | None => OK (items, startLine, endLine, cursor)
        | Some line =>
            if (depth line <? itemDepth)%nat then
              OK (items, startLine, endLine, cursor)
            else if (depth line =? itemDepth)%nat
                    && startsWithStr LIST_ITEM_PREFIX (content line) then
              let startLine' :=
                match startLine with
                | None => Some (lineNumber line)
                | Some _ => startLine
                end in
              '(item, cursor') <-
                decodeListItem f cursor itemDepth (hdelimiter header) options ;;
              let endLine' :=
                match current cursor' with
                | Some currentLine => Some (lineNumber currentLine)
                | None => Some (lineNumber line)
                end in
              decodeListArray_loop f header cursor' itemDepth options
                (items ++ [item]) startLine' endLine'
            else OK (items, startLine, endLine, cursor)
        end
      else OK (items, startLine, endLine, cursor)
  end

with decodeListItem (fuel : nat) (cursor : LineCursor) (baseDepth : nat)
    (activeDelimiter : Delimiter) (options : ResolvedDecodeOptions)
    {struct fuel}
  : result (JsonValue * LineCursor) :=
  match fuel with
  | O => Err OutOfFuel
  | S f =>
      match next cursor with
      | (None, _) => Err ReferenceError_ExpectedListItem
      | (Some line, cursor1) =>
          let afterHyphen := drop (String.length LIST_ITEM_PREFIX) (content line) in
          let notArray :=
            if isObjectFirstFieldAfterHyphen afterHyphen then
              '(obj, cursor') <-
                decodeObjectFromListItem f line cursor1 baseDepth options ;;
              OK (JObject obj, cursor')
            else
              p <- parsePrimitiveToken afterHyphen ;;
              OK (JPrim p, cursor1) in
          if isArrayHeaderAfterHyphen afterHyphen then
            arrayHeader <- parseArrayHeaderLine afterHyphen DEFAULT_DELIMITER ;;
            match arrayHeader with
            | Some (header, inlineValues) =>
                '(arr, cursor') <-
                  decodeArrayFromHeader f header inlineValues cursor1 baseDepth
                    options ;;
                OK (JArray arr, cursor')
            | None => notArray
            end
          else notArray
      end
  end

with decodeObjectFromListItem (fuel : nat) (firstLine : ParsedLine)
    (cursor : LineCursor) (baseDepth : nat) (options : ResolvedDecodeOptions)
    {struct fuel}
  : result (JsonObject * LineCursor) :=
  match fuel with
  | O => Err OutOfFuel
  | S f =>
      let afterHyphen :=
        drop (String.length LIST_ITEM_PREFIX) (content firstLine) in
      '(k, value, followDepth, cursor1) <-
        decodeKeyValue f afterHyphen cursor baseDepth options ;;
      decodeObjectFromListItem_loop f cursor1 followDepth options [(k, value)]
  end

with decodeObjectFromListItem_loop (fuel : nat) (cursor : LineCursor)
    (followDepth : nat) (options : ResolvedDecodeOptions) (obj : JsonObject)
    {struct fuel}
  : result (JsonObject * LineCursor) :=
  match fuel with
  | O => Err OutOfFuel
  | S f =>
      if atEnd cursor then OK (obj, cursor)
      else
        match peek cursor with
        | None => OK (obj, cursor)
        | Some line =>
            if (depth line <? followDepth)%nat then OK (obj, cursor)
            else if (depth line =? followDepth)%nat
                    && negb (startsWithStr LIST_ITEM_PREFIX (content line)) then
              '(k, v, cursor') <-
                decodeKeyValuePair f line cursor followDepth options ;;
              decodeObjectFromListItem_loop f cursor' followDepth options
                (obj_set obj k v)
            else OK (obj, cursor)
        end
  end.

Definition decodeObject (fuel : nat) (cursor : LineCursor) (baseDepth : nat)
    (options : ResolvedDecodeOptions) : result (JsonObject * LineCursor) :=
  decodeObject_loop fuel cursor baseDepth options [].

Definition decodeValueFromLines (fuel : nat) (cursor : LineCursor)
    (options : ResolvedDecodeOptions) : result JsonValue :=
  match peek cursor with
  | None => Err ReferenceError_NoContent
  | Some first =>
      let notRootArray :=
        if (cursor_length cursor =? 1)%nat && negb (isKeyValueLine first) then
          p <- parsePrimitiveToken (trim (content first)) ;; OK (JPrim p)
        else
          '(obj, _) <- decodeObject fuel cursor 0 options ;; OK (JObject obj) in
      if isArrayHeaderAfterHyphen (content first) then
        headerInfo <- parseArrayHeaderLine (content first) DEFAULT_DELIMITER ;;
        match headerInfo with
        | Some (header, inlineValues) =>
            '(arr, _) <-
              decodeArrayFromHeader fuel header inlineValues (advance cursor) 0
                options ;;
            OK (JArray arr)
        | None => notRootArray
        end
      else notRootArray
  end.

(* ----------------------------------------------------------------- *)
(** ** index.ts: [decode] *)

Definition resolveDecodeOptions (indent_ : option nat) (strict : option bool)
  : ResolvedDecodeOptions :=
  {| opt_indent := match indent_ with Some n => n | None => 2 end;
     opt_strict := match strict with Some b => b | None => true end |}.

(** Fuel that the decoders cannot exhaust on [n] parsed lines. *)
Definition decode_fuel (n : nat) : nat := 8 * n + 8.

Definition decode (input : string) (options : ResolvedDecodeOptions)
  : result JsonValue :=
  scanResult <- toParsedLines input (opt_indent options) (opt_strict options) ;;
  if (List.length (lines scanResult) =? 0)%nat then Err TypeError_EmptyInput
  else
    let cursor := newLineCursor (lines scanResult) (blankLines scanResult) in
    decodeValueFromLines (decode_fuel (List.length (lines scanResult))) cursor
      options.

End Decoders.

(* ================================================================= *)
(** ** Regular expressions of the host language *)

(** The regular expressions of the sources use character classes,
    sequencing, alternation and repetition only.  [regex_test r s] is
    [/^r$/.test(s)], computed with derivatives. *)
Inductive regex : Type :=
| RNever
| REps
| RClass (p : ascii -> bool)
| RSeq (a b : regex)
| RAlt (a b : regex)
| RStar (a : regex).

Definition ROpt (r : regex) : regex := RAlt r REps.
Definition RPlus (r : regex) : regex := RSeq r (RStar r).

Fixpoint nullable (r : regex) : bool :=
  match r with
  | RNever => false
  | REps => true
  | RClass _ => false
  | RSeq a b => nullable a && nullable b
  | RAlt a b => nullable a || nullable b
  | RStar _ => true
  end.

Fixpoint deriv (c : ascii) (r : regex) : regex :=
  match r with
  | RNever => RNever
  | REps => RNever
  | RClass p => if p c then REps else RNever
  | RSeq a b =>
      if nullable a then RAlt (RSeq (deriv c a) b) (deriv c b)
      else RSeq (deriv c a) b
  | RAlt a b => RAlt (deriv c a) (deriv c b)
  | RStar a => RSeq (deriv c a) (RStar a)
  end.

Fixpoint regex_test (r : regex) (s : string) : bool :=
  match s with
  | EmptyString => nullable r
  | String c s' => regex_test (deriv c r) s'
  end.

(** A literal character. *)
Definition chr (c : ascii) : regex := RClass (fun a => Ascii.eqb a c).

(** [\d] *)
Definition cls_digit : regex := RClass is_digit.

Definition is_upper (c : ascii) : bool :=
  let n := nat_of_ascii c in (65 <=? n)%nat && (n <=? 90)%nat.

Definition is_lower (c : ascii) : bool :=
  let n := nat_of_ascii c in (97 <=? n)%nat && (n <=? 122)%nat.

(** [\w] *)
Definition is_word (c : ascii) : bool :=
  is_upper c || is_lower c || is_digit c || Ascii.eqb c "_".

(** [s.includes(c)] for some character of a class: [/[...]/.test(s)]. *)
Fixpoint includes_any (p : ascii -> bool) (s : string) : bool :=
  match s with
  | EmptyString => false
  | String a r => p a || includes_any p r
  end.

(* ================================================================= *)
(** ** shared/validation.ts *)

(** [/^[A-Z_][\w.]*$/i] *)
Definition re_unquoted_key : regex :=
  RSeq (RClass (fun c => is_upper c || is_lower c || Ascii.eqb c "_"))
       (RStar (RClass (fun c => is_word c || Ascii.eqb c "."))).

Definition isValidUnquotedKey (k : string) : bool :=
  regex_test re_unquoted_key k.

(** [/^-?\d+(?:\.\d+)?(?:e[+-]?\d+)?$/i] *)
Definition re_number : regex :=
  RSeq (ROpt (chr "-"))
    (RSeq (RPlus cls_digit)
      (RSeq (ROpt (RSeq (chr ".") (RPlus cls_digit)))
            (ROpt (RSeq (RClass (fun c => Ascii.eqb c "e" || Ascii.eqb c "E"))
                    (RSeq (ROpt (RClass (fun c => Ascii.eqb c "+"
                                                  || Ascii.eqb c "-")))
                          (RPlus cls_digit)))))).

(** [/^0\d+$/] *)
Definition re_leading_zero : regex := RSeq (chr "0") (RPlus cls_digit).

Definition isNumericLike (value : string) : bool :=
  regex_test re_number value || regex_test re_leading_zero value.

Definition isSafeUnquoted (value : string) (delimiter_ : ascii) : bool :=
  if is_empty value then false
  else if negb (String.eqb value (trim value)) then false
  else if isBooleanOrNullLiteral value || isNumericLike value then false
  else if includes ":" value then false
  else if includes DOUBLE_QUOTE value || includes BACKSLASH value then false
  else if includes_any (fun c => Ascii.eqb c "[" || Ascii.eqb c "]"
                                 || Ascii.eqb c "{" || Ascii.eqb c "}") value
       then false
  else if includes_any (fun c => Ascii.eqb c NEWLINE
                                 || Ascii.eqb c CARRIAGE_RETURN
                                 || Ascii.eqb c TAB) value
       then false
  else if includes delimiter_ value then false
  else if startsWith LIST_ITEM_MARKER value then false
  else true.

(* ================================================================= *)
(** ** encode/primitives.ts, encode/writer.ts and index.ts: [encode] *)

Record ResolvedEncodeOptions : Set := {
  enc_indent : nat;
  enc_delimiter : Delimiter;
  enc_lengthMarker : bool
}.

Definition resolveOptions (indent_ : option nat) (delimiter_ : option Delimiter)
    (lengthMarker : option bool) : ResolvedEncodeOptions :=
  {| enc_indent := match indent_ with Some n => n | None => 2 end;
     enc_delimiter := match delimiter_ with Some d => d | None => DEFAULT_DELIMITER end;
     enc_lengthMarker := match lengthMarker with Some b => b | None => false end |}.

Definition encodeStringLiteral (value : string) (delimiter_ : ascii) : string :=
  if isSafeUnquoted value delimiter_ then value
  else quoted (escapeString value).

Definition encodeKey (k : string) : string :=
  if isValidUnquotedKey k then k else quoted (escapeString k).

(** [String(n)] for an array length. *)
Definition nat_to_string (n : nat) : string :=
  DecimalString.NilZero.string_of_uint (Nat.to_uint n).

(** [' '.repeat(n)] *)
Fixpoint spaces (n : nat) : string :=
  match n with
  | O => EmptyString
  | S n' => String SPACE (spaces n')
  end.

(** [LineWriter]: the lines pushed so far. *)
Definition LineWriter : Set := list string.

Definition writer_push (indentSize : nat) (w : LineWriter) (depth_ : nat)
    (content_ : string) : LineWriter :=
  w ++ [(spaces (indentSize * depth_) ++ content_)%string].

Definition writer_pushListItem (indentSize : nat) (w : LineWriter)
    (depth_ : nat) (content_ : string) : LineWriter :=
  writer_push indentSize w depth_ (LIST_ITEM_PREFIX ++ content_).

Definition writer_toString (w : LineWriter) : string :=
  join (String NEWLINE EmptyString) w.

Definition formatHeader (len : nat) (k : option string)
    (flds : option (list string)) (delimiter_ : Delimiter)
    (lengthMarker : bool) : string :=
  (match k with
   | Some s => if is_empty s then EmptyString else encodeKey s
   | None => EmptyString
   end)
  ++ String OPEN_BRACKET
       ((if lengthMarker then String HASH EmptyString else EmptyString)
        ++ nat_to_string len
        ++ (match delimiter_ with
            | DelimComma => EmptyString
            | d => String (delimiter_char d) EmptyString
            end)
        ++ String CLOSE_BRACKET EmptyString)
  ++ (match flds with
      | Some fs =>
          String OPEN_BRACE
            (join (String (delimiter_char delimiter_) EmptyString)
               (map encodeKey fs)
             ++ String CLOSE_BRACE EmptyString)
      | None => EmptyString
      end)
  ++ String COLON EmptyString.

Section Encoder.

(** [String(value)] for a number: the shortest decimal text that reads back
    as the same double. *)
Variable numberToString : number -> string.

(** The emission of an array that is not made of primitives only (tabular
    and list form), in encode/encoders.ts, which is not among the sources:
    the lines it pushes for the array [items] under the key [k] at a depth. *)
Variable encodeNonInlineArray :
  option string -> list JsonValue -> nat -> ResolvedEncodeOptions -> list string.

Definition encodePrimitive (value : JsonPrimitive) (delimiter_ : ascii) : string :=
  match value with
  | PNull => NULL_LITERAL
  | PBoolean b => if b then "true" else "false"
  | PNumber n => numberToString n
  | PString s => encodeStringLiteral s delimiter_
  end.

Definition encodeAndJoinPrimitives (values : list JsonPrimitive)
    (delimiter_ : ascii) : string :=
  join (String delimiter_ EmptyString)
    (map (fun v => encodePrimitive v delimiter_) values).

(** The primitives of an array, when it holds nothing else. *)
Fixpoint all_primitives (items : list JsonValue) : option (list JsonPrimitive) :=
  match items with
  | [] => Some []
  | JPrim p :: rest =>
      match all_primitives rest with
      | Some ps => Some (p :: ps)
      | None => None
      end
  | _ => None
  end.

(** Modelled from the spec: encode/encoders.ts is not among the sources.
    "Inline primitive form: ALL elements are primitives.  Emit
    [key[N<d>]: v1<D>v2<D>...<D>vN]; empty arrays emit [key[0<d>]:] with no
    body." *)
Definition encodeArray (k : option string) (items : list JsonValue)
    (w : LineWriter) (depth_ : nat) (options : ResolvedEncodeOptions)
  : LineWriter :=
  match all_primitives items with
  | Some ps =>
      let header :=
        formatHeader (List.length ps) k None (enc_delimiter options)
          (enc_lengthMarker options) in
      writer_push (enc_indent options) w depth_
        (match ps with
         | [] => header
         | _ => header ++ " "
                ++ encodeAndJoinPrimitives ps
                     (delimiter_char (enc_delimiter options))
         end)
  | None => w ++ encodeNonInlineArray k items depth_ options
  end.

(** Modelled from the spec: encode/encoders.ts is not among the sources.
    "Object emission.  For each entry, emit one of: [key:] followed by
    nested lines if the value is a non-empty object; [key: <token>] if the
    value is a primitive; empty object: [key:] with no follow-on lines;
    array values: delegate to array emission."  Normalization has turned
    [undefined] into null. *)
Fixpoint encodeKeyValuePair (k : string) (v : JsonValue) (w : LineWriter)
    (depth_ : nat) (options : ResolvedEncodeOptions) {struct v} : LineWriter :=
  match v with
  | JPrim p =>
      writer_push (enc_indent options) w depth_
        (encodeKey k ++ ": "
         ++ encodePrimitive p (delimiter_char (enc_delimiter options)))
  | JUndefined =>
      writer_push (enc_indent options) w depth_
        (encodeKey k ++ ": " ++ NULL_LITERAL)
  | JArray items => encodeArray (Some k) items w depth_ options
  | JObject nested =>
      (fix encodeEntries (es : list (string * JsonValue)) (w0 : LineWriter)
         : LineWriter :=
         match es with
         | [] => w0
         | (k', v') :: rest =>
             encodeEntries rest
               (encodeKeyValuePair k' v' w0 (S depth_) options)
         end) nested
        (writer_push (enc_indent options) w depth_ (encodeKey k ++ ":"))
  end.

(** Modelled from the spec: encode/encoders.ts is not among the sources.
    The entries of an object are written in their order, one after another. *)
Definition encodeObject (value : JsonObject) (w : LineWriter) (depth_ : nat)
    (options : ResolvedEncodeOptions) : LineWriter :=
  fold_left (fun w0 kv => encodeKeyValuePair (fst kv) (snd kv) w0 depth_ options)
    value w.

(** Modelled from the spec: encode/encoders.ts is not among the sources.
    "Root dispatch.  The root Value may be a primitive (single line, encoded
    token), an object (sequence of key:value lines at depth 0), or an array
    (emitted via array-header form with no key prefix)." *)
Definition encodeValue (value : JsonValue) (options : ResolvedEncodeOptions)
  : string :=
  match value with
  | JPrim p => encodePrimitive p (delimiter_char (enc_delimiter options))
  | JObject o => writer_toString (encodeObject o [] 0 options)
  | JArray items => writer_toString (encodeArray None items [] 0 options)
  | JUndefined => NULL_LITERAL
  end.

(** [encode] on a value that is already normalized: [normalizeValue] leaves
    such a value as it is. *)
Definition encode (input : JsonValue) (options : ResolvedEncodeOptions)
  : string :=
  encodeValue input options.

End Encoder.

(* ================================================================= *)
(** * Definitions used by the statements *)

(** What [escapeString] writes for one character. *)
Definition escape_char (c : ascii) : string :=
  if Ascii.eqb c BACKSLASH then "\\"
  else if Ascii.eqb c DOUBLE_QUOTE then String BACKSLASH (String DOUBLE_QUOTE "")
  else if Ascii.eqb c NEWLINE then "\n"
  else if Ascii.eqb c CARRIAGE_RETURN then "\r"
  else if Ascii.eqb c TAB then "\t"
  else String c "".

(** The character that an escape letter stands for: the escape alphabet. *)
Definition escape_target (c : ascii) : option ascii :=
  if Ascii.eqb c "n" then Some NEWLINE
  else if Ascii.eqb c "t" then Some TAB
  else if Ascii.eqb c "r" then Some CARRIAGE_RETURN
  else if Ascii.eqb c BACKSLASH then Some BACKSLASH
  else if Ascii.eqb c DOUBLE_QUOTE then Some DOUBLE_QUOTE
  else None.

(** No backslash, double quote, newline, carriage return or tab stands
    outside an escape pair: read from the left, a backslash opens a pair
    whose second character is in the escape alphabet, and no other
    character is one of the five. *)
Fixpoint no_unescaped_special (s : string) : bool :=
  match s with
  | EmptyString => true
  | String c r =>
      if Ascii.eqb c BACKSLASH then
        match r with
        | String n r' =>
            match escape_target n with
            | Some _ => no_unescaped_special r'
            | None => false
            end
        | EmptyString => false
        end
      else
        negb (Ascii.eqb c DOUBLE_QUOTE || Ascii.eqb c NEWLINE
              || Ascii.eqb c CARRIAGE_RETURN || Ascii.eqb c TAB)
        && no_unescaped_special r
  end.

(** The quote state after reading [s] from the state [inQuotes]: a double
    quote flips it; inside quotes a backslash and the character after it
    are read as one pair. *)
Fixpoint quote_state (s : string) (inQuotes : bool) : bool :=
  match s with
  | EmptyString => inQuotes
  | String c r =>
      if Ascii.eqb c BACKSLASH && inQuotes then
        match r with
        | String _ r' => quote_state r' inQuotes
        | EmptyString => inQuotes
        end
      else if Ascii.eqb c DOUBLE_QUOTE then quote_state r (negb inQuotes)
      else quote_state r inQuotes
  end.

(** A piece of the input that a delimiter can close: it has no delimiter
    outside quotes and it ends outside quotes. *)
Definition closed_piece (D : Delimiter) (p : string) : Prop :=
  findUnquotedChar p (delimiter_char D) 0 = None /\ quote_state p false = false.

(** [p1 D p2 D ... pn D last] *)
Definition join_pieces (D : Delimiter) (ps : list string) (last : string)
  : string :=
  fold_right (fun p acc => (p ++ String (delimiter_char D) acc)%string) last ps.

(** Nothing but white space. *)
Fixpoint all_whitespace (s : string) : bool :=
  match s with
  | EmptyString => true
  | String c r => is_whitespace c && all_whitespace r
  end.

(** The number of leading spaces of a raw line. *)
Definition space_indent (raw_ : string) : nat :=
  count_leading (fun c => Ascii.eqb c SPACE) raw_.

(** A tab among the leading spaces and tabs of a raw line. *)
Definition tab_in_leading_whitespace (raw_ : string) : bool :=
  includes TAB
    (take (count_leading (fun c => Ascii.eqb c SPACE || Ascii.eqb c TAB) raw_)
       raw_).

(** What strict mode has against the raw line number [n], if anything:
    blank lines pass; a tab in the leading white space comes first, then an
    indent that is positive and no multiple of [indentSize]. *)
Definition strict_line_error (indentSize n : nat) (raw_ : string)
  : option error :=
  if all_whitespace raw_ then None
  else if tab_in_leading_whitespace raw_ then Some (SyntaxError_TabsInIndent n)
  else if (0 <? space_indent raw_)%nat
          && negb (space_indent raw_ mod indentSize =? 0)%nat
  then Some (SyntaxError_IndentNotMultiple n indentSize (space_indent raw_))
  else None.

(** The line number that a scanner error reports. *)
Definition error_line (e : error) : option nat :=
  match e with
  | SyntaxError_TabsInIndent n => Some n
  | SyntaxError_IndentNotMultiple n _ _ => Some n
  | _ => None
  end.

(** The parsed line of the raw line number [n]. *)
Definition parsed_line (indentSize n : nat) (raw_ : string) : ParsedLine :=
  {| raw := raw_;
     depth := space_indent raw_ / indentSize;
     indent := space_indent raw_;
     content := drop (space_indent raw_) raw_;
     lineNumber := n |}.

(** The parsed lines of the raw lines from number [n] on: one for each line
    that is not blank. *)
Fixpoint parsed_lines (indentSize : nat) (raws : list string) (n : nat)
  : list ParsedLine :=
  match raws with
  | [] => []
  | raw_ :: rest =>
      if all_whitespace raw_ then parsed_lines indentSize rest (S n)
      else parsed_line indentSize n raw_ :: parsed_lines indentSize rest (S n)
  end.

(** Decimal digits only. *)
Fixpoint all_digits (s : string) : bool :=
  match s with
  | EmptyString => true
  | String c r => is_digit c && all_digits r
  end.

(** One decimal digit or more. *)
Definition digits1 (s : string) : Prop := s <> "" /\ all_digits s = true.

(** An exponent part ([e] or [E], an optional sign, digits), or nothing. *)
Inductive exponent_opt : string -> Prop :=
| exponent_absent : exponent_opt ""
| exponent_present (e : ascii) (sg ds : string) :
    e = "e"%char \/ e = "E"%char ->
    sg = "" \/ sg = "+" \/ sg = "-" ->
    digits1 ds ->
    exponent_opt (String e (sg ++ ds)).

(** The unsigned decimal literals that the [Number] conversion reads, apart
    from [Infinity]: digits with a point and an optional fraction, a point
    and a fraction, or digits alone, each with an optional exponent. *)
Inductive unsigned_decimal : string -> Prop :=
| decimal_point (ip fp ex : string) :
    digits1 ip -> all_digits fp = true -> exponent_opt ex ->
    unsigned_decimal (ip ++ String "." (fp ++ ex))
| decimal_fraction (fp ex : string) :
    digits1 fp -> exponent_opt ex ->
    unsigned_decimal (String "." (fp ++ ex))
| decimal_integer (ip ex : string) :
    digits1 ip -> exponent_opt ex ->
    unsigned_decimal (ip ++ ex).

(** An unsigned decimal literal, with a sign or without. *)
Definition decimal_literal (t : string) : Prop :=
  unsigned_decimal t
  \/ exists u, unsigned_decimal u /\ (t = String "+" u \/ t = String "-" u).

(** More than one character, the first a zero and the second no point. *)
Definition leading_zero (t : string) : bool :=
  match t with
  | String c (String d _) => Ascii.eqb c "0" && negb (Ascii.eqb d ".")
  | _ => false
  end.

(* ----------------------------------------------------------------- *)
(** ** Definitions used by the proofs *)

(** [raises_only P r]: if [r] is an exception, it satisfies [P]. *)
Definition raises_only {A} (P : error -> Prop) (r : result A) : Prop :=
  forall e, r = Err e -> P e.

(** The first character is a decimal digit. *)
Definition starts_with_digit (s : string) : bool :=
  match s with
  | String c _ => is_digit c
  | EmptyString => false
  end.

(** The cursor [c'] is [c] moved forward, maybe by no line. *)
Definition cursor_le (c c' : LineCursor) : Prop :=
  cur_lines c' = cur_lines c /\ cur_index c <= cur_index c'.

(** The cursor [c'] is [c] moved forward by one line at least. *)
Definition cursor_lt (c c' : LineCursor) : Prop :=
  cur_lines c' = cur_lines c /\ cur_index c < cur_index c'.

(** The parsed lines that the cursor has not passed. *)
Definition remaining (c : LineCursor) : nat :=
  List.length (cur_lines c) - cur_index c.

(** The computation did not stop for lack of fuel. *)
Definition no_timeout {A} (r : result A) : Prop := r <> Err OutOfFuel.

(** Not empty, and the first character is no white space. *)
Definition head_not_whitespace (s : string) : Prop :=
  match s with
  | String c _ => is_whitespace c = false
  | EmptyString => False
  end.

(* ----------------------------------------------------------------- *)
(** ** Definitions used by the further properties *)

(** One of the five characters that [escapeString] rewrites. *)
Definition needs_escape (c : ascii) : bool :=
  Ascii.eqb c BACKSLASH || Ascii.eqb c DOUBLE_QUOTE || Ascii.eqb c NEWLINE
  || Ascii.eqb c CARRIAGE_RETURN || Ascii.eqb c TAB.


(** Every character of [s] satisfies [p]. *)
Fixpoint all_chars (p : ascii -> bool) (s : string) : bool :=
  match s with
  | EmptyString => true
  | String c r => p c && all_chars p r
  end.

(** The language of a regular expression: [matches r s] when the whole of
    [s] is a match of [r]. *)
Inductive matches : regex -> string -> Prop :=
| matches_eps : matches REps ""
| matches_class (p : ascii -> bool) (c : ascii) :
    p c = true -> matches (RClass p) (String c "")
| matches_seq (a b : regex) (s t : string) :
    matches a s -> matches b t -> matches (RSeq a b) (s ++ t)
| matches_alt_l (a b : regex) (s : string) :
    matches a s -> matches (RAlt a b) s
| matches_alt_r (a b : regex) (s : string) :
    matches b s -> matches (RAlt a b) s
| matches_star_nil (a : regex) : matches (RStar a) ""
| matches_star_cons (a : regex) (s t : string) :
    matches a s -> matches (RStar a) t -> matches (RStar a) (s ++ t).

(** A key under which [obj[key] = value] does not add a property at the
    end of a plain object: a key of decimal digits only, which the host
    lists before the other keys when it is an array index, and
    [__proto__], the accessor of the prototype. *)
Definition exotic_key (k : string) : bool :=
  String.eqb k "__proto__" || (negb (is_empty k) && all_chars is_digit k).

(** The first character of an unquoted key: [[A-Z_]] without regard to
    case. *)
Definition is_key_start (c : ascii) : bool :=
  is_upper c || is_lower c || Ascii.eqb c "_".

(** A later character of an unquoted key: [[\w.]]. *)
Definition is_key_char (c : ascii) : bool := is_word c || Ascii.eqb c ".".

(** The first character is a decimal digit, a plus sign or a point. *)
Definition numeric_start (s : string) : bool :=
  match s with
  | String c _ => is_digit c || Ascii.eqb c "+" || Ascii.eqb c "."
  | EmptyString => false
  end.

(** What [parsePrimitiveToken] makes of the text that [encodePrimitive]
    writes for a primitive that is no number: a string that was written
    without quotes and that [isNumericLiteral] accepts is read as a number,
    every other primitive as itself. *)
Definition reread (delimiter_ : ascii) (p : JsonPrimitive) : JsonPrimitive :=
  match p with
  | PString s =>
      if isSafeUnquoted s delimiter_ && isNumericLiteral s
      then PNumber (parseFloat s) else p
  | _ => p
  end.

Definition is_number (p : JsonPrimitive) : bool :=
  match p with
  | PNumber _ => true
  | _ => false
  end.

(** The blank-line records of the raw lines from number [n] on: one for
    each line that is blank. *)
Fixpoint blank_lines (indentSize : nat) (raws : list string) (n : nat)
  : list BlankLineInfo :=
  match raws with
  | [] => []
  | raw_ :: rest =>
      if all_whitespace raw_
      then {| blank_lineNumber := n; blank_indent := space_indent raw_;
              blank_depth := space_indent raw_ / indentSize |}
           :: blank_lines indentSize rest (S n)
      else blank_lines indentSize rest (S n)
  end.

(** The writer after the pushes [ps], each a depth and a content. *)
Definition push_all (indentSize : nat) (w : LineWriter)
    (ps : list (nat * string)) : LineWriter :=
  fold_left (fun w0 p => writer_push indentSize w0 (fst p) (snd p)) ps w.

(** The parsed line of a content pushed at a depth, as line number [n]. *)
Definition pushed_line (indentSize n : nat) (p : nat * string) : ParsedLine :=
  {| raw := spaces (indentSize * fst p) ++ snd p;
     depth := fst p;
     indent := indentSize * fst p;
     content := snd p;
     lineNumber := n |}.

Fixpoint pushed_lines (indentSize : nat) (ps : list (nat * string)) (n : nat)
  : list ParsedLine :=
  match ps with
  | [] => []
  | p :: rest => pushed_line indentSize n p :: pushed_lines indentSize rest (S n)
  end.

(** A content of one line: it is not blank, it begins with neither a space
    nor a tab, and it has no line break. *)
Definition line_content (c : string) : bool :=
  negb (all_whitespace c) && negb (startsWith SPACE c)
  && negb (startsWith TAB c) && negb (includes NEWLINE c).

(** The cursor [c'] is [c] moved forward, maybe by no line, over the same
    lines and blank lines, and not past the end if [c] was not. *)
Definition cursor_fwd (c c' : LineCursor) : Prop :=
  cur_lines c' = cur_lines c /\ cur_blankLines c' = cur_blankLines c
  /\ cur_index c <= cur_index c'
  /\ (cur_index c <= List.length (cur_lines c) ->
      cur_index c' <= List.length (cur_lines c)).

(** No key occurs twice. *)
Fixpoint distinct (keys : list string) : bool :=
  match keys with
  | [] => true
  | k :: rest => negb (existsb (String.eqb k) rest) && distinct rest
  end.

(** Every object of the value, at any depth, has distinct keys. *)
Fixpoint distinct_keys (v : JsonValue) : bool :=
  match v with
  | JPrim _ | JUndefined => true
  | JArray items => forallb distinct_keys items
  | JObject entries =>
      distinct (map fst entries)
      && forallb (fun kv => distinct_keys (snd kv)) entries
  end.

(** A primitive that is no number and, when it is a string, has no
    opening bracket. *)
Definition plain_value (p : JsonPrimitive) : bool :=
  match p with
  | PString s => negb (includes OPEN_BRACKET s)
  | PNumber _ => false
  | _ => true
  end.

(** The line of an object entry with a primitive value: the key as
    [encodeKey] writes it, a colon and a space, and the value as
    [encodePrimitive] writes it. *)
Definition entry_line (numberToString : number -> string) (D : Delimiter)
    (e : string * JsonPrimitive) : string :=
  encodeKey (fst e) ++ ": "
  ++ encodePrimitive numberToString (snd e) (delimiter_char D).

(* ================================================================= *)
(** * Properties *)

(** ** Strings *)

Lemma append_nil_r (s : string) : (s ++ "")%string = s.
Proof. induction s as [|c s IH]; simpl; [reflexivity | now rewrite IH]. Qed.

Lemma append_assoc (a b c : string) :
  ((a ++ b) ++ c)%string = (a ++ (b ++ c))%string.
Proof. induction a as [|x a IH]; simpl; [reflexivity | now rewrite IH]. Qed.

Lemma length_append (a b : string) :
  String.length (a ++ b) = String.length a + String.length b.
Proof. induction a as [|x a IH]; simpl; [reflexivity | now rewrite IH]. Qed.

Lemma bind_OK {A B} (a : A) (k : A -> result B) : bind (OK a) k = k a.
Proof. reflexivity. Qed.

Ltac char_cases c :=
  repeat match goal with
         | |- context [Ascii.eqb c ?x] =>
             destruct (Ascii.eqb_spec c x); [subst c | ]
         end.

(* ================================================================= *)
(** ** shared/string-utils.ts: escaping *)

Lemma replaceAll_append (c : ascii) (rep a b : string) :
  replaceAll c rep (a ++ b) = (replaceAll c rep a ++ replaceAll c rep b)%string.
Proof.
  induction a as [|x a IH]; simpl; [reflexivity|].
  destruct (Ascii.eqb x c); rewrite IH; [now rewrite append_assoc | reflexivity].
Qed.

Lemma escapeString_cons (c : ascii) (s : string) :
  escapeString (String c s) = (escape_char c ++ escapeString s)%string.
Proof.
  unfold escapeString, escape_char.
  change (String c s) with (String c "" ++ s)%string.
  rewrite !replaceAll_append. f_equal.
  destruct (Ascii.eqb_spec c BACKSLASH) as [->|Hb]; [reflexivity|].
  destruct (Ascii.eqb_spec c DOUBLE_QUOTE) as [->|Hq]; [reflexivity|].
  destruct (Ascii.eqb_spec c NEWLINE) as [->|Hn]; [reflexivity|].
  destruct (Ascii.eqb_spec c CARRIAGE_RETURN) as [->|Hr]; [reflexivity|].
  destruct (Ascii.eqb_spec c TAB) as [->|Ht]; [reflexivity|].
  apply Ascii.eqb_neq in Hb, Hq, Hn, Hr, Ht.
  simpl. rewrite Hb. simpl. rewrite Hq. simpl. rewrite Hn. simpl.
  rewrite Hr. simpl. now rewrite Ht.
Qed.

Lemma escapeString_nil : escapeString "" = "".
Proof. reflexivity. Qed.

Lemma unescapeString_escape_char (c : ascii) (t : string) :
  unescapeString (escape_char c ++ t)
  = bind (unescapeString t) (fun r => OK (String c r)).
Proof.
  unfold escape_char.
  destruct (Ascii.eqb_spec c BACKSLASH) as [->|Hb]; [reflexivity|].
  destruct (Ascii.eqb_spec c DOUBLE_QUOTE) as [->|Hq]; [reflexivity|].
  destruct (Ascii.eqb_spec c NEWLINE) as [->|Hn]; [reflexivity|].
  destruct (Ascii.eqb_spec c CARRIAGE_RETURN) as [->|Hr]; [reflexivity|].
  destruct (Ascii.eqb_spec c TAB) as [->|Ht]; [reflexivity|].
  apply Ascii.eqb_neq in Hb. simpl. now rewrite Hb.
Qed.

Lemma unescapeString_escapeString (s : string) :
  unescapeString (escapeString s) = OK s.
Proof.
  induction s as [|c s IH]; [reflexivity|].
  rewrite escapeString_cons, unescapeString_escape_char, IH. reflexivity.
Qed.

Lemma no_unescaped_special_escape_char (c : ascii) (t : string) :
  no_unescaped_special (escape_char c ++ t) = no_unescaped_special t.
Proof.
  unfold escape_char.
  destruct (Ascii.eqb_spec c BACKSLASH) as [->|Hb]; [reflexivity|].
  destruct (Ascii.eqb_spec c DOUBLE_QUOTE) as [->|Hq]; [reflexivity|].
  destruct (Ascii.eqb_spec c NEWLINE) as [->|Hn]; [reflexivity|].
  destruct (Ascii.eqb_spec c CARRIAGE_RETURN) as [->|Hr]; [reflexivity|].
  destruct (Ascii.eqb_spec c TAB) as [->|Ht]; [reflexivity|].
  apply Ascii.eqb_neq in Hb, Hq, Hn, Hr, Ht.
  simpl. now rewrite Hb, Hq, Hn, Hr, Ht.
Qed.

Lemma includes_append (c : ascii) (a b : string) :
  includes c (a ++ b) = includes c a || includes c b.
Proof.
  induction a as [|x a IH]; simpl; [reflexivity|].
  now rewrite IH, orb_assoc.
Qed.

Lemma includes_escape_char (x c : ascii) :
  x = NEWLINE \/ x = CARRIAGE_RETURN \/ x = TAB ->
  includes x (escape_char c) = false.
Proof.
  intros Hx. unfold escape_char.
  destruct (Ascii.eqb_spec c BACKSLASH) as [->|Hb];
    [destruct Hx as [->|[->| ->]]; reflexivity|].
  destruct (Ascii.eqb_spec c DOUBLE_QUOTE) as [->|Hq];
    [destruct Hx as [->|[->| ->]]; reflexivity|].
  destruct (Ascii.eqb_spec c NEWLINE) as [->|Hn];
    [destruct Hx as [->|[->| ->]]; reflexivity|].
  destruct (Ascii.eqb_spec c CARRIAGE_RETURN) as [->|Hr];
    [destruct Hx as [->|[->| ->]]; reflexivity|].
  destruct (Ascii.eqb_spec c TAB) as [->|Ht];
    [destruct Hx as [->|[->| ->]]; reflexivity|].
  simpl. rewrite orb_false_r. apply Ascii.eqb_neq.
  destruct Hx as [->|[->| ->]]; assumption.
Qed.

Lemma includes_escapeString (x : ascii) (s : string) :
  x = NEWLINE \/ x = CARRIAGE_RETURN \/ x = TAB ->
  includes x (escapeString s) = false.
Proof.
  intros Hx. induction s as [|c s IH]; [reflexivity|].
  now rewrite escapeString_cons, includes_append, includes_escape_char, IH.
Qed.

(** C10. Unescaping an escaped string gives the string back, for every
    string; the escaped text has no backslash, double quote, newline,
    carriage return or tab outside an escape pair, and no newline, carriage
    return or tab at all. *)
Theorem escape_unescape_roundtrip (s : string) :
  unescapeString (escapeString s) = OK s
  /\ no_unescaped_special (escapeString s) = true
  /\ includes NEWLINE (escapeString s) = false
  /\ includes CARRIAGE_RETURN (escapeString s) = false
  /\ includes TAB (escapeString s) = false.
Proof.
  split; [apply unescapeString_escapeString|].
  split.
  - induction s as [|c s IH]; [reflexivity|].
    now rewrite escapeString_cons, no_unescaped_special_escape_char.
  - repeat split; apply includes_escapeString; auto.
Qed.

(* ================================================================= *)
(** ** shared/string-utils.ts: unescaping *)

Lemma unescapeString_append (p p' s : string) :
  unescapeString p = OK p' ->
  unescapeString (p ++ s)
  = bind (unescapeString s) (fun r => OK (p' ++ r)%string).
Proof.
  revert p'.
  induction p as [p IH] using
    (well_founded_induction
       (Wf_nat.well_founded_ltof _ String.length)).
  destruct p as [|c p]; intros p' H.
  - simpl in H. injection H as <-. simpl.
    destruct (unescapeString s); reflexivity.
  - simpl in H |- *.
    destruct (Ascii.eqb c BACKSLASH).
    + destruct p as [|n p]; [discriminate|].
      assert (Hlt : Wf_nat.ltof _ String.length p (String c (String n p)))
        by (unfold Wf_nat.ltof; simpl; lia).
      simpl.
      repeat match goal with
             | H : context [if ?b then _ else _] |- _ => destruct b
             end;
        try discriminate;
        (destruct (unescapeString p) as [q|e] eqn:Hp; [|discriminate]);
        simpl in H; injection H as <-;
        rewrite (IH p Hlt q Hp);
        destruct (unescapeString s); reflexivity.
    + assert (Hlt : Wf_nat.ltof _ String.length p (String c p))
        by (unfold Wf_nat.ltof; simpl; lia).
      destruct (unescapeString p) as [q|e] eqn:Hp; [|discriminate].
      simpl in H; injection H as <-.
      rewrite (IH p Hlt q Hp).
      destruct (unescapeString s); reflexivity.
Qed.

Lemma unescapeString_error_is_syntax (s : string) (e : error) :
  unescapeString s = Err e -> is_SyntaxError e = true.
Proof.
  revert e.
  induction s as [s IH] using
    (well_founded_induction
       (Wf_nat.well_founded_ltof _ String.length)).
  intros e H. destruct s as [|c s]; [discriminate|].
  simpl in H. destruct (Ascii.eqb c BACKSLASH).
  - destruct s as [|n s]; [now injection H as <-|].
    assert (Hlt : Wf_nat.ltof _ String.length s (String c (String n s)))
      by (unfold Wf_nat.ltof; simpl; lia).
    repeat match goal with
           | H : context [if ?b then _ else _] |- _ => destruct b
           end;
      try (now injection H as <-);
      (destruct (unescapeString s) as [q|e'] eqn:Hs; [discriminate|]);
      simpl in H; injection H as <-; exact (IH s Hlt e' Hs).
  - assert (Hlt : Wf_nat.ltof _ String.length s (String c s))
      by (unfold Wf_nat.ltof; simpl; lia).
    destruct (unescapeString s) as [q|e'] eqn:Hs; [discriminate|].
    simpl in H; injection H as <-. exact (IH s Hlt e' Hs).
Qed.

(** C6. After any text that unescapes, a backslash followed by a
    backslash, a double quote, [n], [r] or [t] stands for backslash, double
    quote, newline, carriage return and tab; followed by any other character, or by
    nothing, it makes [unescapeString] raise a syntax error; and every
    error of [unescapeString] is a syntax error. *)
Theorem unescape_escape_alphabet (p p' : string)
    (Hp : unescapeString p = OK p') :
  (escape_target BACKSLASH = Some BACKSLASH
   /\ escape_target DOUBLE_QUOTE = Some DOUBLE_QUOTE
   /\ escape_target "n" = Some NEWLINE
   /\ escape_target "r" = Some CARRIAGE_RETURN
   /\ escape_target "t" = Some TAB
   /\ forall c, c <> BACKSLASH -> c <> DOUBLE_QUOTE -> c <> "n"%char ->
                c <> "r"%char -> c <> "t"%char -> escape_target c = None)
  /\ (forall c rest,
        unescapeString (p ++ String BACKSLASH (String c rest))
        = match escape_target c with
          | Some t =>
              bind (unescapeString rest) (fun r => OK (p' ++ String t r)%string)
          | None => Err (SyntaxError_InvalidEscape c)
          end)
  /\ unescapeString (p ++ String BACKSLASH "") = Err SyntaxError_BackslashAtEnd
  /\ (forall s e, unescapeString s = Err e -> is_SyntaxError e = true).
Proof.
  split; [|split; [|split]].
  - repeat split; try reflexivity.
    intros c Hb Hq Hn Hr Ht. unfold escape_target.
    apply Ascii.eqb_neq in Hb, Hq, Hn, Hr, Ht.
    now rewrite Hn, Ht, Hr, Hb, Hq.
  - intros c rest. rewrite (unescapeString_append _ _ _ Hp).
    unfold escape_target. simpl.
    destruct (Ascii.eqb c "n"); [destruct (unescapeString rest); reflexivity|].
    destruct (Ascii.eqb c "t"); [destruct (unescapeString rest); reflexivity|].
    destruct (Ascii.eqb c "r"); [destruct (unescapeString rest); reflexivity|].
    destruct (Ascii.eqb c BACKSLASH);
      [destruct (unescapeString rest); reflexivity|].
    destruct (Ascii.eqb c DOUBLE_QUOTE);
      [destruct (unescapeString rest); reflexivity|].
    reflexivity.
  - now rewrite (unescapeString_append _ _ _ Hp).
  - apply unescapeString_error_is_syntax.
Qed.

Lemma unescape_escape_alphabet_witness :
  unescapeString "a\tb" = OK (String "a" (String TAB "b"))
  /\ unescapeString ("a\tb" ++ String BACKSLASH (String "x" "yz"))
     = Err (SyntaxError_InvalidEscape "x")
  /\ unescapeString ("a\tb" ++ String BACKSLASH (String "n" "yz"))
     = OK (String "a" (String TAB "b") ++ String NEWLINE "yz")%string.
Proof.
  pose proof (unescape_escape_alphabet "a\tb" (String "a" (String TAB "b"))
                eq_refl) as [_ [H _]].
  split; [reflexivity|].
  split; [exact (H "x"%char "yz") | exact (H "n"%char "yz")].
Defined.

(* ================================================================= *)
(** ** decode/parser.ts: [parseDelimitedValues] *)

Local Arguments Ascii.eqb : simpl never.
Local Arguments delimiter_char : simpl never.
Local Arguments trim : simpl never.

(** Comparisons between two character constants. *)
Ltac reduce_eqb :=
  repeat match goal with
    | |- context [Ascii.eqb ?a ?b] =>
        let v := eval vm_compute in (Ascii.eqb a b) in
        match v with true => idtac | false => idtac end;
        change (Ascii.eqb a b) with v
    | H : context [Ascii.eqb ?a ?b] |- _ =>
        let v := eval vm_compute in (Ascii.eqb a b) in
        match v with true => idtac | false => idtac end;
        change (Ascii.eqb a b) with v in H
    end.

Lemma string_len_ind (P : string -> Prop) :
  (forall s, (forall t, String.length t < String.length s -> P t) -> P s) ->
  forall s, P s.
Proof.
  intros H s.
  induction s as [s IH] using
    (well_founded_induction (Wf_nat.well_founded_ltof _ String.length)).
  apply H. intros t Ht. apply IH. exact Ht.
Qed.

Lemma delimiter_not_quote (D : Delimiter) :
  Ascii.eqb (delimiter_char D) DOUBLE_QUOTE = false.
Proof. destruct D; reflexivity. Qed.

Lemma delimiter_not_backslash (D : Delimiter) :
  Ascii.eqb (delimiter_char D) BACKSLASH = false.
Proof. destruct D; reflexivity. Qed.

Lemma backslash_not_delimiter (D : Delimiter) :
  Ascii.eqb BACKSLASH (delimiter_char D) = false.
Proof. destruct D; reflexivity. Qed.

Lemma quote_not_delimiter (D : Delimiter) :
  Ascii.eqb DOUBLE_QUOTE (delimiter_char D) = false.
Proof. destruct D; reflexivity. Qed.

Lemma findUnquotedChar_loop_shift (s : string) (c : ascii) :
  forall q i,
    findUnquotedChar_loop s c q i
    = option_map (fun k => k + i) (findUnquotedChar_loop s c q 0).
Proof.
  induction s as [s IH] using string_len_ind. intros q i.
  destruct s as [|a s]; [reflexivity|].
  assert (IH1 : forall q i, findUnquotedChar_loop s c q i
                = option_map (fun k => k + i) (findUnquotedChar_loop s c q 0))
    by (intros; apply IH; simpl; lia).
  assert (Hft : forall q,
    (if Ascii.eqb a DOUBLE_QUOTE
     then findUnquotedChar_loop s c (negb q) (i + 1)
     else if Ascii.eqb a c && negb q then Some i
          else findUnquotedChar_loop s c q (i + 1))
    = option_map (fun k => k + i)
        (if Ascii.eqb a DOUBLE_QUOTE
         then findUnquotedChar_loop s c (negb q) (0 + 1)
         else if Ascii.eqb a c && negb q then Some 0
              else findUnquotedChar_loop s c q (0 + 1))).
  { intros q'. destruct (Ascii.eqb a DOUBLE_QUOTE).
    - rewrite (IH1 _ (i + 1)), (IH1 _ (0 + 1)).
      destruct (findUnquotedChar_loop s c (negb q') 0); simpl; [f_equal; lia | reflexivity].
    - destruct (Ascii.eqb a c && negb q'); [reflexivity|].
      rewrite (IH1 _ (i + 1)), (IH1 _ (0 + 1)).
      destruct (findUnquotedChar_loop s c q' 0); simpl; [f_equal; lia | reflexivity]. }
  simpl. destruct (Ascii.eqb a BACKSLASH && q); [|apply Hft].
  destruct s as [|b s]; [apply Hft|].
  rewrite (IH s) by (simpl; lia).
  rewrite (IH s) with (i := 0 + 2) by (simpl; lia).
  destruct (findUnquotedChar_loop s c q 0); simpl; [f_equal; lia | reflexivity].
Qed.

Lemma findUnquotedChar_loop_Some_shift (s : string) (c : ascii) (q : bool)
    (i k : nat) :
  findUnquotedChar_loop s c q i = Some (k + i) <->
  findUnquotedChar_loop s c q 0 = Some k.
Proof.
  rewrite findUnquotedChar_loop_shift.
  destruct (findUnquotedChar_loop s c q 0) as [n|]; simpl; split; intros H;
    try discriminate; injection H as H; f_equal; lia.
Qed.

Lemma findUnquotedChar_loop_None_shift (s : string) (c : ascii) (q : bool)
    (i : nat) :
  findUnquotedChar_loop s c q i = None <->
  findUnquotedChar_loop s c q 0 = None.
Proof.
  rewrite findUnquotedChar_loop_shift.
  destruct (findUnquotedChar_loop s c q 0); simpl; split; intros H;
    try discriminate; reflexivity.
Qed.

(** A piece that ends at a delimiter outside quotes: the loop closes the
    current value there. *)
Lemma parseDelimitedValues_loop_piece (D : Delimiter) (p : string) :
  forall q rest values current,
    findUnquotedChar_loop (p ++ String (delimiter_char D) "") (delimiter_char D) q 0
    = Some (String.length p) ->
    parseDelimitedValues_loop (p ++ String (delimiter_char D) rest) D values
      current q
    = parseDelimitedValues_loop rest D (values ++ [trim (current ++ p)]) "" false.
Proof.
  pose proof (delimiter_not_quote D) as Hdq.
  pose proof (delimiter_not_backslash D) as Hdb.
  pose proof (backslash_not_delimiter D) as Hbd.
  pose proof (quote_not_delimiter D) as Hqd.
  induction p as [p IH] using string_len_ind.
  intros q rest values current H.
  assert (Hstep : forall p' q' cur' k,
            String.length p' < String.length p ->
            findUnquotedChar_loop (p' ++ String (delimiter_char D) "")
              (delimiter_char D) q' (0 + k) = Some (String.length p' + (0 + k)) ->
            (current ++ p)%string = (cur' ++ p')%string ->
            parseDelimitedValues_loop (p' ++ String (delimiter_char D) rest) D
              values cur' q'
            = parseDelimitedValues_loop rest D
                (values ++ [trim (current ++ p)]) "" false).
  { intros p' q' cur' k Hlt Hf He.
    apply findUnquotedChar_loop_Some_shift in Hf.
    rewrite (IH p' Hlt q' rest values cur' Hf). now rewrite He. }
  destruct p as [|c p].
  - simpl in H |- *. rewrite Hdb, Hdq, Ascii.eqb_refl in *. simpl in *.
    destruct q; simpl in *; [discriminate|]. now rewrite append_nil_r.
  - assert (E1 : (current ++ String c p)%string
                 = ((current ++ String c "") ++ p)%string)
      by now rewrite append_assoc.
    simpl in H |- *.
    destruct (Ascii.eqb_spec c BACKSLASH) as [->|Hb]; simpl in *.
    + destruct q; simpl in *.
      * destruct p as [|n p]; simpl in *; [discriminate|].
        apply (Hstep p true _ 2); [simpl; lia | | now rewrite append_assoc].
        simpl. replace (String.length p + 2) with (S (S (String.length p)))
          by lia. exact H.
      * reduce_eqb. rewrite Hbd in *. simpl in *.
        apply (Hstep p false _ 1); [simpl; lia | | exact E1].
        simpl. replace (String.length p + 1) with (S (String.length p))
          by lia. exact H.
    + destruct (Ascii.eqb_spec c DOUBLE_QUOTE) as [->|Hq].
      * apply (Hstep p (negb q) _ 1); [simpl; lia | | exact E1].
        simpl. replace (String.length p + 1) with (S (String.length p))
          by lia. exact H.
      * destruct (Ascii.eqb c (delimiter_char D) && negb q); [discriminate|].
        apply (Hstep p q _ 1); [simpl; lia | | exact E1].
        simpl. replace (String.length p + 1) with (S (String.length p))
          by lia. exact H.
Qed.

(** The last piece has no delimiter outside quotes: the loop runs to the
    end of the input and pushes what it has. *)
Lemma parseDelimitedValues_loop_last (D : Delimiter) (p : string) :
  forall q values current,
    findUnquotedChar_loop p (delimiter_char D) q 0 = None ->
    parseDelimitedValues_loop p D values current q
    = if negb (is_empty (current ++ p)) || (0 <? List.length values)%nat
      then values ++ [trim (current ++ p)] else values.
Proof.
  pose proof (delimiter_not_quote D) as Hdq.
  pose proof (delimiter_not_backslash D) as Hdb.
  induction p as [p IH] using string_len_ind.
  intros q values current H.
  destruct p as [|c p].
  - simpl. now rewrite append_nil_r.
  - assert (Hstep : forall p' q' cur',
              String.length p' < String.length (String c p) ->
              findUnquotedChar_loop p' (delimiter_char D) q' 0 = None ->
              (current ++ String c p)%string = (cur' ++ p')%string ->
              parseDelimitedValues_loop p' D values cur' q'
              = if negb (is_empty (current ++ String c p))
                   || (0 <? List.length values)%nat
                then values ++ [trim (current ++ String c p)] else values).
    { intros p' q' cur' Hlt Hn He. rewrite (IH p' Hlt q' values cur' Hn).
      now rewrite He. }
    assert (E1 : (current ++ String c p)%string
                 = ((current ++ String c "") ++ p)%string)
      by now rewrite append_assoc.
    simpl in H |- *.
    destruct (Ascii.eqb_spec c BACKSLASH) as [->|Hb]; simpl in *.
    + destruct q; simpl in *.
      * destruct p as [|n p]; simpl in *.
        -- reduce_eqb. rewrite (backslash_not_delimiter D). reflexivity.
        -- apply findUnquotedChar_loop_None_shift in H.
           apply Hstep; [simpl; lia | exact H | now rewrite append_assoc].
      * reduce_eqb. rewrite (backslash_not_delimiter D) in *. simpl in *.
        apply findUnquotedChar_loop_None_shift in H.
        apply Hstep; [simpl; lia | exact H | exact E1].
    + destruct (Ascii.eqb_spec c DOUBLE_QUOTE) as [->|Hq].
      * apply findUnquotedChar_loop_None_shift in H.
        apply Hstep; [simpl; lia | exact H | exact E1].
      * destruct (Ascii.eqb c (delimiter_char D) && negb q); [discriminate|].
        apply findUnquotedChar_loop_None_shift in H.
        apply Hstep; [simpl; lia | exact H | exact E1].
Qed.

Lemma findUnquotedChar_0 (s : string) (c : ascii) :
  findUnquotedChar s c 0 = findUnquotedChar_loop s c false 0.
Proof. reflexivity. Qed.

(** A delimiter found outside quotes at the end of [p ++ D] says that [p]
    has none and ends outside quotes. *)
Lemma terminated_iff_closed (D : Delimiter) (p : string) :
  forall q,
    findUnquotedChar_loop (p ++ String (delimiter_char D) "") (delimiter_char D) q 0
    = Some (String.length p)
    <-> findUnquotedChar_loop p (delimiter_char D) q 0 = None
        /\ quote_state p q = false.
Proof.
  pose proof (delimiter_not_quote D) as Hdq.
  pose proof (delimiter_not_backslash D) as Hdb.
  pose proof (backslash_not_delimiter D) as Hbd.
  induction p as [p IH] using string_len_ind. intros q.
  assert (Hstep : forall p' q' k,
            String.length p' < String.length p ->
            (findUnquotedChar_loop (p' ++ String (delimiter_char D) "")
               (delimiter_char D) q' k = Some (String.length p' + k)
             <-> findUnquotedChar_loop p' (delimiter_char D) q' k = None
                 /\ quote_state p' q' = false)).
  { intros p' q' k Hlt.
    rewrite findUnquotedChar_loop_Some_shift, findUnquotedChar_loop_None_shift.
    apply IH, Hlt. }
  destruct p as [|c p].
  - simpl. rewrite Hdb, Hdq, Ascii.eqb_refl. simpl.
    destruct q; simpl; split; intros H; try discriminate; try tauto.
    destruct H; discriminate.
  - simpl.
    destruct (Ascii.eqb_spec c BACKSLASH) as [->|Hb]; simpl.
    + destruct q; simpl.
      * destruct p as [|n p]; simpl.
        -- split; [discriminate | intros [_ H]; discriminate].
        -- replace (S (S (String.length p))) with (String.length p + 2) by lia.
           apply Hstep. simpl; lia.
      * reduce_eqb. rewrite Hbd. simpl.
        replace (S (String.length p)) with (String.length p + 1) by lia.
        apply Hstep. simpl; lia.
    + destruct (Ascii.eqb_spec c DOUBLE_QUOTE) as [->|Hq].
      * replace (S (String.length p)) with (String.length p + 1) by lia.
        apply Hstep. simpl; lia.
      * destruct (Ascii.eqb c (delimiter_char D) && negb q).
        -- split; [discriminate | intros [H _]; discriminate].
        -- replace (S (String.length p)) with (String.length p + 1) by lia.
           apply Hstep. simpl; lia.
Qed.

(** The first delimiter outside quotes splits the input. *)
Lemma findUnquotedChar_loop_split (D : Delimiter) (s : string) :
  forall q k,
    findUnquotedChar_loop s (delimiter_char D) q 0 = Some k ->
    exists p rest,
      s = (p ++ String (delimiter_char D) rest)%string
      /\ String.length p = k
      /\ findUnquotedChar_loop (p ++ String (delimiter_char D) "")
           (delimiter_char D) q 0 = Some k.
Proof.
  pose proof (delimiter_not_quote D) as Hdq.
  pose proof (delimiter_not_backslash D) as Hdb.
  pose proof (backslash_not_delimiter D) as Hbd.
  induction s as [s IH] using string_len_ind. intros q k H.
  assert (Hstep : forall s' q' i pre,
            String.length s' < String.length s ->
            findUnquotedChar_loop s' (delimiter_char D) q' i = Some k ->
            String.length pre = i ->
            (forall p, findUnquotedChar_loop ((pre ++ p) ++ String (delimiter_char D) "")
                         (delimiter_char D) q 0
                       = findUnquotedChar_loop (p ++ String (delimiter_char D) "")
                           (delimiter_char D) q' i) ->
            exists p rest,
              (pre ++ s')%string = (p ++ String (delimiter_char D) rest)%string
              /\ String.length p = k
              /\ findUnquotedChar_loop (p ++ String (delimiter_char D) "")
                   (delimiter_char D) q 0 = Some k).
  { intros s' q' i pre Hlt Hf Hpre Hsame.
    rewrite findUnquotedChar_loop_shift in Hf.
    destruct (findUnquotedChar_loop s' (delimiter_char D) q' 0) as [k'|] eqn:Hk';
      [|discriminate].
    simpl in Hf. injection Hf as <-.
    destruct (IH s' Hlt q' k' Hk') as (p & rest & -> & Hlen & Hp).
    exists (pre ++ p)%string, rest. split; [now rewrite append_assoc|].
    split; [rewrite length_append; lia|].
    rewrite Hsame. apply findUnquotedChar_loop_Some_shift. exact Hp. }
  destruct s as [|c s]; [discriminate|].
  simpl in H.
  destruct (Ascii.eqb_spec c BACKSLASH) as [->|Hb]; simpl in H.
  - destruct q; simpl in H.
    + destruct s as [|n s]; simpl in H.
      * reduce_eqb. rewrite Hbd in H. discriminate.
      * apply (Hstep s true 2 (String BACKSLASH (String n ""))); auto.
        simpl; lia.
    + reduce_eqb. rewrite Hbd in H. simpl in H.
      apply (Hstep s false 1 (String BACKSLASH "")); auto.
      intros p. simpl. reduce_eqb. now rewrite Hbd.
  - destruct (Ascii.eqb_spec c DOUBLE_QUOTE) as [->|Hq].
    + apply (Hstep s (negb q) 1 (String DOUBLE_QUOTE "")); auto.
    + destruct (Ascii.eqb_spec c (delimiter_char D)) as [->|Hd]; simpl in H.
      * destruct q; simpl in H.
        -- apply (Hstep s true 1 (String (delimiter_char D) "")); auto.
           intros p. simpl. rewrite Hdb, Hdq, Ascii.eqb_refl. reflexivity.
        -- injection H as <-. exists "", s. repeat split.
           simpl. now rewrite Hdb, Hdq, Ascii.eqb_refl.
      * apply (Hstep s q 1 (String c "")); auto.
        intros p. simpl.
        apply Ascii.eqb_neq in Hb, Hq, Hd. now rewrite Hb, Hq, Hd.
Qed.

Lemma pieces_exist (D : Delimiter) (s : string) :
  exists ps last,
    s = join_pieces D ps last
    /\ Forall (closed_piece D) ps
    /\ findUnquotedChar last (delimiter_char D) 0 = None.
Proof.
  induction s as [s IH] using string_len_ind.
  destruct (findUnquotedChar_loop s (delimiter_char D) false 0) as [k|] eqn:Hk.
  - destruct (findUnquotedChar_loop_split D s false k Hk)
      as (p & rest & -> & Hlen & Hp).
    destruct (IH rest) as (ps & last & -> & Hps & Hlast).
    { rewrite length_append. simpl. lia. }
    exists (p :: ps), last. split; [reflexivity|]. split; [|exact Hlast].
    constructor; [|exact Hps].
    unfold closed_piece. rewrite findUnquotedChar_0.
    apply terminated_iff_closed. now rewrite Hlen.
  - exists [], s. repeat split; [constructor | exact Hk].
Qed.

Lemma is_empty_true (s : string) : is_empty s = true <-> s = "".
Proof. destruct s; simpl; split; intros H; congruence. Qed.

Lemma parseDelimitedValues_loop_pieces (D : Delimiter) (ps : list string) :
  forall last values,
    Forall (closed_piece D) ps ->
    findUnquotedChar last (delimiter_char D) 0 = None ->
    parseDelimitedValues_loop (join_pieces D ps last) D values "" false
    = if negb (is_empty (join_pieces D ps last)) || (0 <? List.length values)%nat
      then values ++ map trim (ps ++ [last]) else values.
Proof.
  induction ps as [|p ps IH]; intros last values Hps Hlast.
  - simpl. rewrite parseDelimitedValues_loop_last by exact Hlast.
    reflexivity.
  - inversion Hps as [|? ? Hp Hps']; subst.
    simpl. rewrite parseDelimitedValues_loop_piece.
    2:{ apply terminated_iff_closed. exact Hp. }
    rewrite (IH last _ Hps' Hlast).
    replace (0 <? List.length (values ++ [trim ("" ++ p)]))%nat with true.
    2:{ symmetry. apply Nat.ltb_lt. rewrite length_app. simpl. lia. }
    rewrite orb_true_r.
    replace (is_empty (p ++ String (delimiter_char D) (join_pieces D ps last)))
      with false by (destruct p; reflexivity).
    simpl. now rewrite <- app_assoc.
Qed.

(** *** White space *)

Lemma trimEnd_idempotent (s : string) : trimEnd (trimEnd s) = trimEnd s.
Proof.
  induction s as [|c s IH]; [reflexivity|].
  simpl. destruct (is_whitespace c && is_empty (trimEnd s)) eqn:E;
    [reflexivity|].
  simpl. now rewrite IH, E.
Qed.

Lemma trimStart_no_leading (s : string) :
  match s with
  | String c _ => is_whitespace c = false
  | EmptyString => True
  end ->
  trimStart s = s.
Proof. destruct s as [|c s]; simpl; [reflexivity | now intros ->]. Qed.

Lemma trimStart_head (s : string) :
  match trimStart s with
  | String c _ => is_whitespace c = false
  | EmptyString => True
  end.
Proof.
  induction s as [|c s IH]; simpl; [exact I|].
  destruct (is_whitespace c) eqn:E; [exact IH | exact E].
Qed.

Lemma trimEnd_head (s : string) :
  match s with
  | String c _ => is_whitespace c = false
  | EmptyString => True
  end ->
  match trimEnd s with
  | String c _ => is_whitespace c = false
  | EmptyString => True
  end.
Proof.
  destruct s as [|c s]; simpl; [trivial|]. intros H. now rewrite H.
Qed.

Lemma trim_idempotent (s : string) : trim (trim s) = trim s.
Proof.
  unfold trim.
  rewrite (trimStart_no_leading (trimEnd (trimStart s))).
  - apply trimEnd_idempotent.
  - apply trimEnd_head, trimStart_head.
Qed.

Lemma trim_empty : trim "" = "".
Proof. reflexivity. Qed.

(** C7. [parseDelimitedValues] splits its input at the delimiters that
    stand outside double-quoted runs and trims every value: the empty input
    gives no value; every input is a sequence of pieces, each closed by a
    delimiter, and a last piece, where no piece has a delimiter outside
    quotes and each closed piece ends outside quotes (a double quote flips
    the quote state, inside quotes a backslash and the next character are
    one pair); on a non-empty input the values are these pieces, trimmed,
    so that an empty piece before the first delimiter and an empty piece
    after the last one are kept. *)
Theorem parseDelimitedValues_splits (D : Delimiter) :
  parseDelimitedValues "" D = []
  /\ (forall s, exists ps last,
        s = join_pieces D ps last
        /\ Forall (closed_piece D) ps
        /\ findUnquotedChar last (delimiter_char D) 0 = None)
  /\ (forall ps last,
        Forall (closed_piece D) ps ->
        findUnquotedChar last (delimiter_char D) 0 = None ->
        join_pieces D ps last <> "" ->
        parseDelimitedValues (join_pieces D ps last) D = map trim (ps ++ [last]))
  /\ (forall s v, In v (parseDelimitedValues s D) -> trim v = v)
  /\ (forall s,
        parseDelimitedValues (String (delimiter_char D) s) D
        = "" :: (if is_empty s then [""] else parseDelimitedValues s D))
  /\ (forall ps,
        Forall (closed_piece D) ps -> ps <> [] ->
        parseDelimitedValues (join_pieces D ps "") D = map trim ps ++ [""]).
Proof.
  assert (Hmain : forall ps last,
            Forall (closed_piece D) ps ->
            findUnquotedChar last (delimiter_char D) 0 = None ->
            parseDelimitedValues (join_pieces D ps last) D
            = if is_empty (join_pieces D ps last) then []
              else map trim (ps ++ [last])).
  { intros ps last Hps Hlast. unfold parseDelimitedValues.
    rewrite (parseDelimitedValues_loop_pieces D ps last [] Hps Hlast).
    simpl. rewrite orb_false_r.
    destruct (is_empty (join_pieces D ps last)); reflexivity. }
  assert (Hnil : closed_piece D "") by (split; reflexivity).
  split; [reflexivity|].
  split; [apply pieces_exist|].
  split; [|split; [|split]].
  - intros ps last Hps Hlast Hne. rewrite (Hmain ps last Hps Hlast).
    destruct (is_empty (join_pieces D ps last)) eqn:E; [|reflexivity].
    apply is_empty_true in E. contradiction.
  - intros s v Hin.
    destruct (pieces_exist D s) as (ps & last & -> & Hps & Hlast).
    rewrite (Hmain ps last Hps Hlast) in Hin.
    destruct (is_empty (join_pieces D ps last)); [contradiction|].
    apply in_map_iff in Hin. destruct Hin as (x & <- & _).
    apply trim_idempotent.
  - intros s.
    destruct (pieces_exist D s) as (ps & last & -> & Hps & Hlast).
    change (String (delimiter_char D) (join_pieces D ps last))
      with (join_pieces D ("" :: ps) last).
    rewrite (Hmain ("" :: ps) last) by (try constructor; assumption).
    rewrite (Hmain ps last Hps Hlast). simpl.
    destruct (is_empty (join_pieces D ps last)) eqn:E; [|reflexivity].
    apply is_empty_true in E.
    destruct ps as [|p ps]; simpl in E.
    + now subst last.
    + destruct p; discriminate.
  - intros ps Hps Hne. rewrite (Hmain ps "" Hps eq_refl).
    destruct ps as [|p ps]; [contradiction|].
    simpl. replace (is_empty _) with false by (destruct p; reflexivity).
    now rewrite map_app.
Qed.

Lemma parseDelimitedValues_splits_witness :
  parseDelimitedValues
    (join_pieces DelimComma
       [" a "; quoted "b,c"; ""; quoted ("x\" ++ String DOUBLE_QUOTE ",d")] "")
    DelimComma
  = ["a"; quoted "b,c"; ""; quoted ("x\" ++ String DOUBLE_QUOTE ",d"); ""].
Proof.
  destruct (parseDelimitedValues_splits DelimComma) as (_ & _ & _ & _ & _ & H).
  apply (H [" a "; quoted "b,c"; ""; quoted ("x\" ++ String DOUBLE_QUOTE ",d")]).
  - repeat constructor.
  - discriminate.
Defined.

(* ================================================================= *)
(** ** Numeric literals *)

Local Arguments Ascii.eqb : simpl never.
Local Arguments is_digit : simpl never.
Local Arguments trim : simpl never.
Local Arguments mk_number : simpl never.
Local Arguments digits_value : simpl never.
Local Arguments String.prefix : simpl never.

Lemma is_digit_not (c x : ascii) :
  is_digit c = true -> is_digit x = false -> Ascii.eqb c x = false.
Proof.
  intros Hc Hx. apply Ascii.eqb_neq. intros ->. congruence.
Qed.

Lemma span_digits_spec (s : string) :
  forall d r,
    span_digits s = (d, r) ->
    s = (d ++ r)%string /\ all_digits d = true /\ starts_with_digit r = false.
Proof.
  induction s as [|c s IH]; intros d r H; simpl in H.
  - injection H as <- <-. auto.
  - destruct (is_digit c) eqn:Hc.
    + destruct (span_digits s) as [d' r'] eqn:Hs. injection H as <- <-.
      destruct (IH d' r' eq_refl) as (-> & Hd & Hr).
      simpl. rewrite Hc, Hd. auto.
    + injection H as <- <-. simpl. rewrite Hc. auto.
Qed.

Lemma span_digits_app (d r : string) :
  all_digits d = true -> starts_with_digit r = false ->
  span_digits (d ++ r) = (d, r).
Proof.
  intros Hd Hr. induction d as [|c d IH]; simpl in *.
  - destruct r as [|x r]; [reflexivity|]. simpl in Hr |- *. now rewrite Hr.
  - apply andb_true_iff in Hd. destruct Hd as [Hc Hd].
    now rewrite Hc, (IH Hd).
Qed.

Lemma span_digits_all (d : string) :
  all_digits d = true -> span_digits d = (d, "").
Proof.
  intros Hd. rewrite <- (append_nil_r d) at 1. now apply span_digits_app.
Qed.

Lemma digits1_head (d r : string) :
  digits1 d -> exists c t, (d ++ r)%string = String c t /\ is_digit c = true.
Proof.
  intros [Hne Hd]. destruct d as [|c d]; [contradiction|].
  simpl in Hd. apply andb_true_iff in Hd. exists c, (d ++ r)%string. tauto.
Qed.

Lemma digits1_not_empty (d : string) : digits1 d -> is_empty d = false.
Proof. intros [Hne _]. destruct d; [contradiction | reflexivity]. Qed.

Lemma exponent_opt_no_digit (ex : string) :
  exponent_opt ex -> starts_with_digit ex = false.
Proof.
  intros [|e sg ds [-> | ->] _ _]; reflexivity.
Qed.

Lemma exponent_opt_no_point (ex : string) :
  exponent_opt ex ->
  match ex with String c _ => Ascii.eqb c "." = false | EmptyString => True end.
Proof.
  intros [|e sg ds [-> | ->] _ _]; [exact I | reflexivity | reflexivity].
Qed.

(** [scan_exponent] reads an exponent part to its end, and only that. *)
Lemma scan_exponent_complete (ex : string) :
  exponent_opt ex -> exists e, scan_exponent ex = (e, "").
Proof.
  intros [|e sg ds He Hsg Hds].
  - exists 0%Z. reflexivity.
  - assert (He' : Ascii.eqb e "e" || Ascii.eqb e "E" = true)
      by (destruct He as [-> | ->]; reflexivity).
    destruct Hds as [Hne Hd].
    assert (Hem : is_empty ds = false) by (destruct ds; [contradiction | reflexivity]).
    unfold scan_exponent. rewrite He'.
    destruct Hsg as [-> | [-> | ->]]; simpl.
    + destruct ds as [|c ds]; [contradiction|].
      pose proof Hd as Hd'. simpl in Hd'. apply andb_true_iff in Hd'.
      destruct Hd' as [Hc _].
      rewrite (is_digit_not c "-" Hc eq_refl), (is_digit_not c "+" Hc eq_refl).
      rewrite (span_digits_all _ Hd). simpl. eexists; reflexivity.
    + reduce_eqb. simpl. rewrite (span_digits_all _ Hd), Hem.
      eexists; reflexivity.
    + reduce_eqb. simpl. rewrite (span_digits_all _ Hd), Hem.
      eexists; reflexivity.
Qed.

Lemma scan_exponent_sound (s : string) (e : Z) :
  scan_exponent s = (e, "") -> exponent_opt s.
Proof.
  destruct s as [|c r]; [constructor|].
  unfold scan_exponent.
  destruct (Ascii.eqb c "e" || Ascii.eqb c "E") eqn:Hc; [|discriminate].
  assert (He : c = "e"%char \/ c = "E"%char).
  { apply orb_true_iff in Hc. destruct Hc as [Hc|Hc];
      apply Ascii.eqb_eq in Hc; auto. }
  assert (Hgen : forall sg r1,
            sg = "" \/ sg = "+" \/ sg = "-" -> r = (sg ++ r1)%string ->
            forall neg,
            (let (ds, rest) := span_digits r1 in
             if is_empty ds then (0%Z, String c r)
             else ((if neg : bool then (- Z.of_N (digits_value ds))%Z
                    else Z.of_N (digits_value ds)), rest)) = (e, "") ->
            exponent_opt (String c r)).
  { intros sg r1 Hsg -> neg H.
    destruct (span_digits r1) as [ds rest] eqn:Hs.
    destruct (span_digits_spec _ _ _ Hs) as (-> & Hd & _).
    destruct (is_empty ds) eqn:Hem; [discriminate|].
    injection H as _ ->. rewrite append_nil_r.
    apply exponent_present; auto. split; [|exact Hd].
    intros ->. discriminate. }
  destruct r as [|sg r'].
  - intros H. apply (Hgen "" "" (or_introl eq_refl) eq_refl false H).
  - destruct (Ascii.eqb_spec sg "-") as [->|Hm].
    + intros H. apply (Hgen "-" r' (or_intror (or_intror eq_refl)) eq_refl true H).
    + destruct (Ascii.eqb_spec sg "+") as [->|Hp].
      * intros H. apply (Hgen "+" r' (or_intror (or_introl eq_refl)) eq_refl false H).
      * intros H. apply (Hgen "" (String sg r') (or_introl eq_refl) eq_refl false H).
Qed.

Lemma prefix_Infinity_false (s : string) :
  match s with
  | String c _ => c <> "I"%char
  | EmptyString => True
  end ->
  String.prefix "Infinity" s = false.
Proof.
  destruct s as [|c s]; [reflexivity|]. intros Hc.
  unfold String.prefix. destruct (ascii_dec "I" c) as [<-|_]; [contradiction|].
  reflexivity.
Qed.

Lemma isNaN_mk_number neg m e : isNaN (mk_number neg m e) = false.
Proof. unfold mk_number. destruct (overflows m e); reflexivity. Qed.

(** [scan_unsigned] reads an unsigned decimal literal to its end. *)
Lemma scan_unsigned_complete (neg : bool) (u : string) :
  unsigned_decimal u ->
  exists n, scan_unsigned neg u = Some (n, "") /\ isNaN n = false.
Proof.
  intros Hu. unfold scan_unsigned.
  destruct Hu as [ip fp ex Hip Hfp Hex | fp ex Hfp Hex | ip ex Hip Hex].
  - destruct (digits1_head ip (String "." (fp ++ ex)) Hip) as (c & t & Ht & Hc).
    rewrite prefix_Infinity_false
      by (rewrite Ht; intros ->; discriminate).
    rewrite span_digits_app by (apply Hip || reflexivity).
    reduce_eqb.
    rewrite span_digits_app by (assumption || now apply exponent_opt_no_digit).
    rewrite (digits1_not_empty _ Hip). simpl.
    destruct (scan_exponent_complete ex Hex) as [e ->].
    eexists. split; [reflexivity | apply isNaN_mk_number].
  - rewrite prefix_Infinity_false by discriminate.
    simpl. change (is_digit ".") with false. cbv iota. reduce_eqb.
    rewrite span_digits_app
      by (apply Hfp || now apply exponent_opt_no_digit).
    rewrite (digits1_not_empty _ Hfp). simpl.
    destruct (scan_exponent_complete ex Hex) as [e ->].
    eexists. split; [reflexivity | apply isNaN_mk_number].
  - destruct (digits1_head ip ex Hip) as (c & t & Ht & Hc).
    rewrite prefix_Infinity_false
      by (rewrite Ht; intros ->; discriminate).
    rewrite span_digits_app
      by (apply Hip || now apply exponent_opt_no_digit).
    rewrite (digits1_not_empty _ Hip).
    destruct (scan_exponent_complete ex Hex) as [e ->].
    pose proof (exponent_opt_no_point ex Hex) as Hp.
    destruct ex as [|x ex]; [|rewrite Hp];
      (eexists; split; [reflexivity | apply isNaN_mk_number]).
Qed.

(** What [scan_unsigned] reads to its end as a finite number is an unsigned
    decimal literal. *)
Lemma scan_unsigned_sound (neg : bool) (u : string) (n : number) :
  scan_unsigned neg u = Some (n, "") -> isFinite n = true ->
  unsigned_decimal u.
Proof.
  unfold scan_unsigned.
  destruct (String.prefix "Infinity" u); [intros [= <- _]; discriminate|].
  destruct (span_digits u) as [ip r1] eqn:Hs.
  destruct (span_digits_spec _ _ _ Hs) as (-> & Hip & Hr1).
  assert (Hint : (if is_empty ip then None
                  else let (e, rest) := scan_exponent r1 in
                       Some (mk_number neg (digits_value ip) e, rest))
                 = Some (n, "") -> unsigned_decimal (ip ++ r1)).
  { destruct (is_empty ip) eqn:Hem; [discriminate|].
    destruct (scan_exponent r1) as [e rest] eqn:He. intros [= _ ->].
    apply decimal_integer; [|exact (scan_exponent_sound _ _ He)].
    split; [intros ->; discriminate | exact Hip]. }
  destruct r1 as [|c r2]; [intros H _; exact (Hint H)|].
  destruct (Ascii.eqb_spec c ".") as [->|Hc]; [|intros H _; exact (Hint H)].
  destruct (span_digits r2) as [fp r3] eqn:Hs2.
  destruct (span_digits_spec _ _ _ Hs2) as (-> & Hfp & Hr3).
  destruct (is_empty ip && is_empty fp) eqn:Hem; [discriminate|].
  destruct (scan_exponent r3) as [e rest] eqn:He. intros [= _ ->] _.
  pose proof (scan_exponent_sound _ _ He) as Hex.
  destruct ip as [|i ip].
  - destruct fp as [|f fp]; [discriminate|].
    apply decimal_fraction; [|exact Hex]. split; [discriminate | exact Hfp].
  - apply decimal_point; [|exact Hfp|exact Hex].
    split; [discriminate | exact Hip].
Qed.

Lemma unsigned_decimal_head (u : string) :
  unsigned_decimal u ->
  exists c t, u = String c t /\ (is_digit c = true \/ c = "."%char).
Proof.
  intros [ip fp ex Hip _ _ | fp ex _ _ | ip ex Hip _].
  - destruct (digits1_head ip (String "." (fp ++ ex)) Hip) as (c & t & -> & Hc).
    eauto.
  - eauto.
  - destruct (digits1_head ip ex Hip) as (c & t & -> & Hc). eauto.
Qed.

Lemma scan_decimal_complete (t : string) :
  decimal_literal t ->
  exists n, scan_decimal t = Some (n, "") /\ isNaN n = false.
Proof.
  intros [Hu | (u & Hu & [-> | ->])].
  - destruct (unsigned_decimal_head t Hu) as (c & r & -> & Hc).
    unfold scan_decimal.
    assert (Ascii.eqb c "-" = false /\ Ascii.eqb c "+" = false) as [-> ->].
    { destruct Hc as [Hc | ->]; [|split; reflexivity].
      split; apply is_digit_not; auto. }
    now apply scan_unsigned_complete.
  - unfold scan_decimal. reduce_eqb. now apply scan_unsigned_complete.
  - unfold scan_decimal. reduce_eqb. now apply scan_unsigned_complete.
Qed.

Lemma scan_decimal_sound (t : string) (n : number) :
  scan_decimal t = Some (n, "") -> isFinite n = true -> decimal_literal t.
Proof.
  unfold scan_decimal, decimal_literal. destruct t as [|c r].
  - intros H Hf. left. exact (scan_unsigned_sound _ _ _ H Hf).
  - destruct (Ascii.eqb_spec c "-") as [->|Hm].
    + intros H Hf. right. exists r. split; [|auto].
      exact (scan_unsigned_sound _ _ _ H Hf).
    + destruct (Ascii.eqb_spec c "+") as [->|Hp].
      * intros H Hf. right. exists r. split; [|auto].
        exact (scan_unsigned_sound _ _ _ H Hf).
      * intros H Hf. left. exact (scan_unsigned_sound _ _ _ H Hf).
Qed.

Lemma trim_fixed_trimStart (t : string) : trim t = t -> trimStart t = t.
Proof.
  intros H. apply trimStart_no_leading. rewrite <- H. unfold trim.
  apply trimEnd_head, trimStart_head.
Qed.

Lemma leading_zero_guard (t : string) :
  (1 <? String.length t)%nat && charAt_is 0 t "0" && negb (charAt_is 1 t ".")
  = leading_zero t.
Proof.
  destruct t as [|c [|d r]]; reflexivity.
Qed.

Lemma scan_non_decimal_no_leading_zero (t : string) :
  leading_zero t = false -> scan_non_decimal t = None.
Proof.
  destruct t as [|z [|p ds]]; try reflexivity.
  simpl. destruct (Ascii.eqb_spec z "0") as [->|Hz]; [|reflexivity].
  destruct (Ascii.eqb_spec p ".") as [->|Hp]; [reflexivity | discriminate].
Qed.

(** [Number] on a token that is trimmed, not empty and without a leading
    zero. *)
Lemma Number_token (t : string) :
  trim t = t -> t <> "" -> leading_zero t = false ->
  Number t = match scan_decimal t with
             | Some (n, EmptyString) => n
             | _ => NaN
             end.
Proof.
  intros Ht Hne Hlz. unfold Number. rewrite Ht.
  destruct t as [|c r]; [contradiction|]. cbn [is_empty].
  now rewrite (scan_non_decimal_no_leading_zero _ Hlz).
Qed.

Lemma isNumericLiteral_token (t : string) :
  trim t = t -> t <> "" ->
  isNumericLiteral t
  = negb (leading_zero t) && negb (isNaN (Number t)) && isFinite (Number t).
Proof.
  intros Ht Hne. unfold isNumericLiteral. rewrite leading_zero_guard.
  destruct t as [|c r]; [contradiction|]. cbn [is_empty].
  destruct (leading_zero (String c r)); reflexivity.
Qed.

Lemma isFinite_not_NaN (n : number) : isFinite n = true -> isNaN n = false.
Proof. destruct n; simpl; congruence. Qed.

Lemma isNumericLiteral_iff (t : string) :
  trim t = t -> t <> "" ->
  (isNumericLiteral t = true
   <-> decimal_literal t /\ leading_zero t = false
       /\ isFinite (Number t) = true).
Proof.
  intros Ht Hne. rewrite (isNumericLiteral_token t Ht Hne). split.
  - intros H. apply andb_true_iff in H. destruct H as [H Hfin].
    apply andb_true_iff in H. destruct H as [Hlz Hnan].
    apply negb_true_iff in Hlz. repeat split; try assumption.
    rewrite (Number_token t Ht Hne Hlz) in Hfin.
    destruct (scan_decimal t) as [[n rest]|] eqn:Hs; [|discriminate].
    destruct rest; [|discriminate].
    exact (scan_decimal_sound t n Hs Hfin).
  - intros (_ & Hlz & Hfin).
    now rewrite Hlz, Hfin, (isFinite_not_NaN _ Hfin).
Qed.

Lemma decimal_literal_Number (t : string) :
  trim t = t -> t <> "" -> decimal_literal t -> leading_zero t = false ->
  isNaN (Number t) = false /\ parseFloat t = Number t.
Proof.
  intros Ht Hne Hd Hlz. rewrite (Number_token t Ht Hne Hlz).
  unfold parseFloat. rewrite (trim_fixed_trimStart t Ht).
  destruct (scan_decimal_complete t Hd) as (n & -> & Hn). auto.
Qed.

Lemma parsePrimitiveToken_token (t : string) :
  trim t = t -> t <> "" -> startsWith DOUBLE_QUOTE t = false ->
  isBooleanOrNullLiteral t = false ->
  parsePrimitiveToken t
  = OK (if isNumericLiteral t then PNumber (parseFloat t) else PString t).
Proof.
  intros Ht Hne Hq Hlit. unfold parsePrimitiveToken. rewrite Ht, Hq.
  destruct t as [|c r]; [contradiction|]. cbn [is_empty].
  unfold isBooleanOrNullLiteral in Hlit.
  apply orb_false_iff in Hlit. destruct Hlit as [Hlit Hnull].
  apply orb_false_iff in Hlit. destruct Hlit as [Htrue Hfalse].
  rewrite Htrue, Hfalse, Hnull.
  destruct (isNumericLiteral (String c r)); reflexivity.
Qed.

(** C2, as amended. A token that is trimmed, not empty, does not start with
    a double quote and is not [true], [false] or [null] is returned as a
    parsed double exactly when it is a decimal literal of the host language
    (an optional sign [+] or [-]; digits with an optional point and
    fraction, or a point and a fraction; an optional exponent), does not
    start with a zero followed by a character other than a point, and its
    value does not round to an infinity; every other such token is returned
    as the bare string itself; a decimal literal without a leading zero is
    never [NaN] for the host, so for it only the size decides; and the empty
    token yields the empty string. *)
Theorem primitive_token_number_or_string (t : string)
    (Htrim : trim t = t) (Hne : t <> "")
    (Hquote : startsWith DOUBLE_QUOTE t = false)
    (Hlit : isBooleanOrNullLiteral t = false) :
  (parsePrimitiveToken t = OK (PNumber (parseFloat t))
   <-> decimal_literal t /\ leading_zero t = false
       /\ isFinite (Number t) = true)
  /\ (parsePrimitiveToken t = OK (PString t)
      <-> ~ (decimal_literal t /\ leading_zero t = false
             /\ isFinite (Number t) = true))
  /\ (decimal_literal t -> leading_zero t = false ->
      isNaN (Number t) = false /\ parseFloat t = Number t)
  /\ parsePrimitiveToken "" = OK (PString "").
Proof.
  rewrite (parsePrimitiveToken_token t Htrim Hne Hquote Hlit).
  pose proof (isNumericLiteral_iff t Htrim Hne) as Hiff.
  destruct (isNumericLiteral t).
  - split; [|split; [|split]].
    + split; [intros _; now apply Hiff | reflexivity].
    + split; [discriminate|]. intros Hn. exfalso. apply Hn. now apply Hiff.
    + now apply decimal_literal_Number.
    + reflexivity.
  - split; [|split; [|split]].
    + split; [discriminate|]. intros H. apply Hiff in H. discriminate.
    + split; [|reflexivity]. intros _ H. apply Hiff in H. discriminate.
    + now apply decimal_literal_Number.
    + reflexivity.
Qed.

Lemma primitive_token_number_or_string_witness :
  parsePrimitiveToken "-.5e+3" = OK (PNumber (Finite true 5 2))
  /\ parsePrimitiveToken "0e5" = OK (PString "0e5")
  /\ parsePrimitiveToken "1e999" = OK (PString "1e999").
Proof.
  split; [|split].
  - destruct (primitive_token_number_or_string "-.5e+3" eq_refl
                ltac:(discriminate) eq_refl eq_refl) as [[_ H] _].
    apply H. split; [|split; reflexivity].
    right. exists ".5e+3". split; [|auto].
    apply (decimal_fraction "5" "e+3").
    + split; [discriminate | reflexivity].
    + apply (exponent_present "e" "+" "3"); auto.
      split; [discriminate | reflexivity].
  - destruct (primitive_token_number_or_string "0e5" eq_refl
                ltac:(discriminate) eq_refl eq_refl) as (_ & [_ H] & _).
    apply H. intros (_ & Hlz & _). discriminate.
  - destruct (primitive_token_number_or_string "1e999" eq_refl
                ltac:(discriminate) eq_refl eq_refl) as (_ & [_ H] & _).
    apply H. intros (_ & _ & Hfin). vm_compute in Hfin. discriminate.
Defined.

(** C2, as stated, fails in both directions: [.5], [+5] and [5.] do not
    match the numeric-like expression and are returned as numbers; [0e5] and
    [1e999] match it, are no leading-zero integers, and are returned as
    strings. *)
Lemma numeric_like_regex_counterexample :
  (regex_test re_number ".5" = false
   /\ parsePrimitiveToken ".5" = OK (PNumber (Finite false 5 (-1))))
  /\ (regex_test re_number "+5" = false
      /\ parsePrimitiveToken "+5" = OK (PNumber (Finite false 5 0)))
  /\ (regex_test re_number "5." = false
      /\ parsePrimitiveToken "5." = OK (PNumber (Finite false 5 0)))
  /\ (regex_test re_number "0e5" = true
      /\ regex_test re_leading_zero "0e5" = false
      /\ parsePrimitiveToken "0e5" = OK (PString "0e5"))
  /\ (regex_test re_number "1e999" = true
      /\ regex_test re_leading_zero "1e999" = false
      /\ parsePrimitiveToken "1e999" = OK (PString "1e999")).
Proof. repeat split; vm_compute; reflexivity. Qed.

(* ================================================================= *)
(** ** decode/parser.ts: a well-formed bracket segment *)

Local Arguments Ascii.eqb : simpl never.
Local Arguments is_digit : simpl never.
Local Arguments digits_value : simpl never.
Local Arguments is_whitespace : simpl never.

Lemma endsWith_last (c x : ascii) (a : string) :
  endsWith c (a ++ String x "") = Ascii.eqb x c.
Proof.
  induction a as [|y a IH]; [reflexivity|].
  simpl. rewrite IH. now destruct a.
Qed.

Lemma dropLast_last (x : ascii) (a : string) : dropLast (a ++ String x "") = a.
Proof.
  induction a as [|y a IH]; [reflexivity|].
  simpl. rewrite IH. now destruct a.
Qed.

Lemma endsWith_digits (c : ascii) (ds : string) :
  all_digits ds = true -> is_digit c = false -> endsWith c ds = false.
Proof.
  intros Hd Hc. induction ds as [|x ds IH]; [reflexivity|].
  simpl in Hd. apply andb_true_iff in Hd. destruct Hd as [Hx Hd].
  simpl. destruct ds as [|y ds]; [now apply is_digit_not | now apply IH].
Qed.

Lemma parseInt10_digits (ds : string) :
  digits1 ds -> parseInt10 ds = Some (Z.of_N (digits_value ds)).
Proof.
  intros [Hne Hd]. unfold parseInt10.
  destruct ds as [|c ds]; [contradiction|].
  pose proof Hd as Hd'. simpl in Hd'. apply andb_true_iff in Hd'.
  destruct Hd' as [Hc _].
  assert (Hws : is_whitespace c = false).
  { destruct (is_whitespace c) eqn:E; [|reflexivity].
    revert Hc E. clear. destruct c as [[] [] [] [] [] [] [] []];
      vm_compute; congruence. }
  simpl. rewrite Hws.
  rewrite (is_digit_not c "-" Hc eq_refl), (is_digit_not c "+" Hc eq_refl).
  rewrite (span_digits_all _ Hd). reflexivity.
Qed.

(** What C3 says of a well-formed bracket segment holds: a leading [#]
    sets the length marker, a trailing tab or [|] sets the delimiter, and
    the digits between them are the declared length. *)
Lemma parseBracketSegment_wellformed (marker : bool) (ds : string)
    (D defaultDelimiter : Delimiter) :
  digits1 ds ->
  parseBracketSegment
    ((if marker then String HASH "" else "")
     ++ ds
     ++ match D with
        | DelimComma => ""
        | d => String (delimiter_char d) ""
        end) defaultDelimiter
  = OK (Z.of_N (digits_value ds),
        match D with DelimComma => defaultDelimiter | d => d end,
        marker).
Proof.
  intros Hds. pose proof Hds as [Hne Hd].
  pose proof (parseInt10_digits ds Hds) as Hint.
  pose proof (endsWith_digits TAB ds Hd eq_refl) as Htab.
  pose proof (endsWith_digits PIPE ds Hd eq_refl) as Hpipe.
  assert (Hhash : forall suffix, startsWith HASH (ds ++ suffix) = false).
  { intros suffix. destruct (digits1_head ds suffix Hds) as (c & t & -> & Hc).
    simpl. now apply is_digit_not. }
  pose proof (Hhash "") as Hhash0. rewrite append_nil_r in Hhash0.
  unfold parseBracketSegment.
  destruct marker; destruct D; cbn [append delimiter_char];
    rewrite ?append_nil_r;
    try (change (startsWith HASH (String HASH ?x)) with true);
    rewrite ?Hhash, ?Hhash0; cbv iota; cbn [drop];
    rewrite ?endsWith_last, ?dropLast_last, ?Htab, ?Hpipe;
    reduce_eqb; cbv iota; rewrite Hint; reflexivity.
Qed.

(* ================================================================= *)
(** ** decode/parser.ts: the bracket segment of an array header *)

(** C3 fails on the code. [Number.parseInt] reads a sign and ignores what
    follows the digits, so a bracket segment that is no non-negative decimal
    integer is accepted as a header: [a[2x]: p,q] declares two items and
    decodes as an array, and [a[-1]:] declares a negative length. *)
Theorem array_header_length_not_validated :
  parseBracketSegment "2x" DEFAULT_DELIMITER = OK (2%Z, DelimComma, false)
  /\ parseBracketSegment "-1" DEFAULT_DELIMITER = OK ((-1)%Z, DelimComma, false)
  /\ parseArrayHeaderLine "a[2x]: p,q" DEFAULT_DELIMITER
     = OK (Some ({| hkey := Some "a"; hlength := 2; hdelimiter := DelimComma;
                    hfields := None; hasLengthMarker := false |},
                 Some "p,q"))
  /\ parseArrayHeaderLine "a[-1]:" DEFAULT_DELIMITER
     = OK (Some ({| hkey := Some "a"; hlength := -1; hdelimiter := DelimComma;
                    hfields := None; hasLengthMarker := false |},
                 None))
  /\ decode spec_validators "a[2x]: p,q" (resolveDecodeOptions None None)
     = OK (JObject [("a", JArray [JPrim (PString "p"); JPrim (PString "q")])]).
Proof. repeat split; intros; reflexivity. Qed.


(* ================================================================= *)
(** ** decode/scanner.ts *)

Local Arguments Ascii.eqb : simpl never.
Local Arguments trim : simpl never.

Lemma trimStart_all_whitespace (s : string) :
  all_whitespace (trimStart s) = all_whitespace s.
Proof.
  induction s as [|c s IH]; [reflexivity|].
  simpl. destruct (is_whitespace c) eqn:E; simpl; [exact IH | now rewrite E].
Qed.

Lemma trimEnd_is_empty (s : string) :
  is_empty (trimEnd s) = all_whitespace s.
Proof.
  induction s as [|c s IH]; [reflexivity|].
  simpl. rewrite IH.
  destruct (is_whitespace c), (all_whitespace s); reflexivity.
Qed.

Lemma trim_is_empty (s : string) : is_empty (trim s) = all_whitespace s.
Proof.
  unfold trim. now rewrite trimEnd_is_empty, trimStart_all_whitespace.
Qed.

Lemma split_lines_not_nil (s : string) : split_lines s <> [].
Proof.
  induction s as [|c s IH]; simpl; [discriminate|].
  destruct (Ascii.eqb c NEWLINE); [discriminate|].
  destruct (split_lines s); [contradiction | discriminate].
Qed.

Lemma all_whitespace_split_lines (s : string) :
  all_whitespace s = forallb all_whitespace (split_lines s).
Proof.
  induction s as [|c s IH]; [reflexivity|].
  simpl. destruct (Ascii.eqb_spec c NEWLINE) as [->|Hn].
  - simpl. exact IH.
  - rewrite IH. pose proof (split_lines_not_nil s) as Hs.
    destruct (split_lines s) as [|l ls]; [contradiction|].
    simpl. now rewrite andb_assoc.
Qed.

Lemma blank_content (raw_ : string) :
  is_empty (trim (drop (space_indent raw_) raw_)) = all_whitespace raw_.
Proof.
  rewrite trim_is_empty. unfold space_indent.
  induction raw_ as [|c r IH]; [reflexivity|].
  simpl. destruct (Ascii.eqb_spec c SPACE) as [->|Hs]; [exact IH | reflexivity].
Qed.

(** In strict mode the loop stops at the first line that strict mode has
    something against. *)
Lemma toParsedLines_loop_strict_error (indentSize : nat) (raws : list string) :
  forall n k raw_ e,
    nth_error raws k = Some raw_ ->
    strict_line_error indentSize (n + k) raw_ = Some e ->
    (forall j r, j < k -> nth_error raws j = Some r ->
                 strict_line_error indentSize (n + j) r = None) ->
    toParsedLines_loop raws n indentSize true = Err e.
Proof.
  induction raws as [|r0 raws IH]; intros n k raw_ e Hk He Hfirst.
  - destruct k; discriminate.
  - destruct k as [|k].
    + simpl in Hk. injection Hk as ->. rewrite Nat.add_0_r in He.
      unfold strict_line_error in He. simpl.
      fold (space_indent raw_). rewrite blank_content.
      destruct (all_whitespace raw_); [discriminate|].
      unfold tab_in_leading_whitespace in He. simpl.
      destruct (includes TAB _); [now injection He as <-|].
      destruct ((0 <? space_indent raw_) && _)%nat; [|discriminate].
      now injection He as <-.
    + simpl in Hk.
      assert (H0 : strict_line_error indentSize n r0 = None).
      { rewrite <- (Nat.add_0_r n). apply (Hfirst 0); [lia | reflexivity]. }
      assert (Hrest : toParsedLines_loop raws (S n) indentSize true = Err e).
      { apply (IH (S n) k raw_ e Hk).
        - now replace (S n + k) with (n + S k) by lia.
        - intros j r Hj Hr. replace (S n + j) with (n + S j) by lia.
          apply Hfirst; [lia | exact Hr]. }
      unfold strict_line_error in H0. simpl.
      fold (space_indent r0). rewrite blank_content.
      destruct (all_whitespace r0); [now rewrite Hrest|].
      unfold tab_in_leading_whitespace in H0. simpl.
      destruct (includes TAB _); [discriminate|].
      destruct ((0 <? space_indent r0) && _)%nat; [discriminate|].
      now rewrite Hrest.
Qed.

(** Where strict mode has nothing against any line, and always outside
    strict mode, the loop returns the parsed lines of the lines that are not
    blank. *)
Lemma toParsedLines_loop_ok (indentSize : nat) (strict : bool)
    (raws : list string) :
  forall n,
    (strict = true ->
     forall j r, nth_error raws j = Some r ->
                 strict_line_error indentSize (n + j) r = None) ->
    exists blanks,
      toParsedLines_loop raws n indentSize strict
      = OK (parsed_lines indentSize raws n, blanks).
Proof.
  induction raws as [|r0 raws IH]; intros n Hok.
  - exists []. reflexivity.
  - destruct (IH (S n)) as [blanks Hrest].
    { intros Hs j r Hr. replace (S n + j) with (n + S j) by lia.
      apply (Hok Hs (S j)). exact Hr. }
    simpl. fold (space_indent r0). rewrite blank_content, Hrest.
    destruct (all_whitespace r0) eqn:Hb; [eexists; reflexivity|].
    destruct strict; simpl; [|eexists; reflexivity].
    specialize (Hok eq_refl 0 r0 eq_refl).
    unfold strict_line_error in Hok. rewrite Hb in Hok.
    unfold tab_in_leading_whitespace in Hok.
    destruct (includes TAB _); [discriminate|].
    destruct ((0 <? space_indent r0) && _)%nat; [discriminate|].
    eexists; reflexivity.
Qed.

Lemma parsed_lines_spec (indentSize : nat) (raws : list string) :
  forall n l,
    In l (parsed_lines indentSize raws n) ->
    depth l = indent l / indentSize
    /\ indent l = space_indent (raw l)
    /\ content l = drop (indent l) (raw l)
    /\ all_whitespace (raw l) = false
    /\ exists k, nth_error raws k = Some (raw l) /\ lineNumber l = n + k.
Proof.
  induction raws as [|r0 raws IH]; intros n l Hin; [contradiction|].
  simpl in Hin. destruct (all_whitespace r0) eqn:Hb.
  - destruct (IH _ _ Hin) as (H1 & H2 & H3 & H4 & k & Hk & Hn).
    repeat split; try assumption. exists (S k). split; [exact Hk | lia].
  - destruct Hin as [<-|Hin].
    + simpl. repeat split; try assumption. exists 0. split; [reflexivity | lia].
    + destruct (IH _ _ Hin) as (H1 & H2 & H3 & H4 & k & Hk & Hn).
      repeat split; try assumption. exists (S k). split; [exact Hk | lia].
Qed.

Lemma parsed_lines_nil_iff (indentSize : nat) (raws : list string) (n : nat) :
  parsed_lines indentSize raws n = [] <-> forallb all_whitespace raws = true.
Proof.
  revert n. induction raws as [|r0 raws IH]; intros n; simpl; [tauto|].
  destruct (all_whitespace r0); simpl; [apply IH|].
  split; discriminate.
Qed.

(** Some line offends strict mode: then one of them is the first. *)
Lemma first_strict_error (indentSize : nat) (raws : list string) :
  forall n k raw_ e,
    nth_error raws k = Some raw_ ->
    strict_line_error indentSize (n + k) raw_ = Some e ->
    exists k' raw' e',
      k' <= k
      /\ nth_error raws k' = Some raw'
      /\ strict_line_error indentSize (n + k') raw' = Some e'
      /\ forall j r, j < k' -> nth_error raws j = Some r ->
                     strict_line_error indentSize (n + j) r = None.
Proof.
  induction raws as [|r0 raws IH]; intros n k raw_ e Hk He.
  - destruct k; discriminate.
  - destruct (strict_line_error indentSize n r0) as [e0|] eqn:H0.
    + exists 0, r0, e0. rewrite Nat.add_0_r.
      repeat split; [lia | assumption | intros j r Hj; lia].
    + destruct k as [|k].
      * simpl in Hk. injection Hk as ->. rewrite Nat.add_0_r in He. congruence.
      * simpl in Hk. replace (n + S k) with (S n + k) in He by lia.
        destruct (IH (S n) k raw_ e Hk He) as (k' & raw' & e' & Hle & Hk' & He' & Hf).
        exists (S k'), raw', e'. replace (n + S k') with (S n + k') by lia.
        repeat split; [lia | assumption | assumption |].
        intros j r Hj Hr. destruct j as [|j].
        -- simpl in Hr. injection Hr as <-. now rewrite Nat.add_0_r.
        -- replace (n + S j) with (S n + j) by lia. apply Hf; [lia | exact Hr].
Qed.

Lemma strict_line_error_is_syntax (indentSize n : nat) (raw_ : string) (e : error) :
  strict_line_error indentSize n raw_ = Some e ->
  is_SyntaxError e = true /\ error_line e = Some n
  /\ all_whitespace raw_ = false.
Proof.
  unfold strict_line_error. destruct (all_whitespace raw_); [discriminate|].
  destruct (tab_in_leading_whitespace raw_); [intros [= <-]; auto|].
  destruct ((0 <? space_indent raw_) && _)%nat; [intros [= <-]; auto | discriminate].
Qed.

Lemma nth_error_forallb_false {A} (p : A -> bool) (l : list A) (k : nat) (a : A) :
  nth_error l k = Some a -> p a = false -> forallb p l = false.
Proof.
  revert k. induction l as [|x l IH]; intros k Hk Ha; [destruct k; discriminate|].
  destruct k as [|k]; simpl in *.
  - injection Hk as ->. now rewrite Ha.
  - rewrite (IH k Hk Ha). apply andb_false_r.
Qed.

(** The scan of a source in strict mode, when some line offends. *)
Lemma toParsedLines_strict_error (source : string) (indentSize k : nat)
    (raw_ : string) (e : error) :
  nth_error (split_lines source) k = Some raw_ ->
  strict_line_error indentSize (S k) raw_ = Some e ->
  (forall j r, j < k -> nth_error (split_lines source) j = Some r ->
               strict_line_error indentSize (S j) r = None) ->
  toParsedLines source indentSize true = Err e.
Proof.
  intros Hk He Hfirst. unfold toParsedLines.
  destruct (strict_line_error_is_syntax _ _ _ _ He) as (_ & _ & Hnb).
  rewrite trim_is_empty, all_whitespace_split_lines,
    (nth_error_forallb_false _ _ _ _ Hk Hnb).
  rewrite (toParsedLines_loop_strict_error indentSize _ 1 k raw_ e); auto.
Qed.

Lemma toParsedLines_ok (source : string) (indentSize : nat) (strict : bool) :
  (strict = true ->
   forall j r, nth_error (split_lines source) j = Some r ->
               strict_line_error indentSize (S j) r = None) ->
  exists sr,
    toParsedLines source indentSize strict = OK sr
    /\ lines sr = parsed_lines indentSize (split_lines source) 1.
Proof.
  intros Hok. unfold toParsedLines. rewrite trim_is_empty.
  destruct (all_whitespace source) eqn:Hb.
  - eexists. split; [reflexivity|]. simpl. symmetry.
    apply parsed_lines_nil_iff. now rewrite <- all_whitespace_split_lines.
  - destruct (toParsedLines_loop_ok indentSize strict (split_lines source) 1 Hok)
      as [blanks ->].
    eexists. split; reflexivity.
Qed.

(** The scan without strict mode, and what a scan that succeeds returns. *)
Lemma toParsedLines_loop_lenient (indentSize : nat) (raws : list string) :
  forall n,
    toParsedLines_loop raws n indentSize false
    = OK (parsed_lines indentSize raws n, blank_lines indentSize raws n).
Proof.
  induction raws as [|r0 raws IH]; intros n; [reflexivity|].
  simpl. fold (space_indent r0). rewrite blank_content, IH.
  now destruct (all_whitespace r0).
Qed.

Lemma toParsedLines_loop_exact (indentSize : nat) (strict : bool)
    (raws : list string) :
  forall n parsed blanks,
    toParsedLines_loop raws n indentSize strict = OK (parsed, blanks) ->
    parsed = parsed_lines indentSize raws n
    /\ blanks = blank_lines indentSize raws n
    /\ (strict = true ->
        forall k r, nth_error raws k = Some r ->
                    strict_line_error indentSize (n + k) r = None).
Proof.
  induction raws as [|r0 raws IH]; intros n parsed blanks H.
  - injection H as <- <-. repeat split. intros _ [|k] r; discriminate.
  - simpl in H. fold (space_indent r0) in H. rewrite blank_content in H.
    simpl. unfold strict_line_error at 1.
    destruct (all_whitespace r0) eqn:Hb.
    + destruct (toParsedLines_loop raws (S n) indentSize strict)
        as [[p b]|] eqn:Hrest; [|discriminate].
      injection H as <- <-. destruct (IH _ _ _ Hrest) as (-> & -> & Hk).
      repeat split. intros Hs [|k] r Hr.
      * injection Hr as <-. unfold strict_line_error. now rewrite Hb.
      * replace (n + S k) with (S n + k) by lia. now apply Hk.
    + fold (tab_in_leading_whitespace r0) in H.
      destruct (strict && tab_in_leading_whitespace r0) eqn:Ht; [discriminate|].
      destruct (strict && (0 <? space_indent r0)%nat
                && negb (space_indent r0 mod indentSize =? 0)%nat) eqn:Hi;
        [discriminate|].
      destruct (toParsedLines_loop raws (S n) indentSize strict)
        as [[p b]|] eqn:Hrest; [|discriminate].
      injection H as <- <-. destruct (IH _ _ _ Hrest) as (-> & -> & Hk).
      repeat split. intros -> [|k] r Hr.
      * injection Hr as <-. unfold strict_line_error. rewrite Hb.
        simpl in Ht, Hi. now rewrite Ht, Nat.add_0_r, Hi.
      * replace (n + S k) with (S n + k) by lia. now apply Hk.
Qed.

Lemma toParsedLines_exact (source : string) (indentSize : nat) (strict : bool)
    (sr : ScanResult) :
  toParsedLines source indentSize strict = OK sr ->
  all_whitespace source = false ->
  lines sr = parsed_lines indentSize (split_lines source) 1
  /\ blankLines sr = blank_lines indentSize (split_lines source) 1
  /\ (strict = true ->
      forall k r, nth_error (split_lines source) k = Some r ->
                  strict_line_error indentSize (S k) r = None).
Proof.
  unfold toParsedLines. rewrite trim_is_empty. intros H Hb. rewrite Hb in H.
  destruct (toParsedLines_loop _ _ _ _) as [[p b]|] eqn:Hloop; [|discriminate].
  injection H as <-. simpl.
  exact (toParsedLines_loop_exact _ _ _ _ _ _ Hloop).
Qed.

Lemma decode_scan_error (V : Validators) (source : string)
    (options : ResolvedDecodeOptions) (e : error) :
  toParsedLines source (opt_indent options) (opt_strict options) = Err e ->
  decode V source options = Err e.
Proof. intros H. unfold decode. now rewrite H. Qed.

(** A source no line of which offends strict mode is scanned in strict mode
    as it is without. *)
Lemma toParsedLines_strict_accepts (source : string) (indentSize : nat) :
  (forall j r, nth_error (split_lines source) j = Some r ->
               strict_line_error indentSize (S j) r = None) ->
  toParsedLines source indentSize true = toParsedLines source indentSize false.
Proof.
  intros Hok. unfold toParsedLines.
  destruct (is_empty (trim source)); [reflexivity|].
  rewrite toParsedLines_loop_lenient.
  destruct (toParsedLines_loop_ok indentSize true (split_lines source) 1)
    as [blanks Hloop]; [intros _; exact Hok|].
  destruct (toParsedLines_loop_exact _ _ _ _ _ _ Hloop) as (_ & -> & _).
  now rewrite Hloop.
Qed.

(** C4, as amended. In strict mode [decode] rejects, with a syntax error
    that carries the line number, the first line that is not blank and has a
    tab among its leading spaces and tabs or an indent that is positive and
    no multiple of [indentSize]; so it rejects every input with such a line.
    Blank lines are never rejected: when no line that is not blank offends,
    the scan in strict mode succeeds with the result of the scan without
    strict mode, and for a positive [indentSize] [decode] goes on to decode
    the value from its lines.  Outside strict mode the scan accepts every input, and for a positive
    [indentSize] the depth of each parsed line is the quotient of its
    indent by [indentSize]. *)
Theorem strict_indentation_errors (V : Validators) (source : string)
    (indentSize : nat) :
  (forall k raw_ e,
     nth_error (split_lines source) k = Some raw_ ->
     strict_line_error indentSize (S k) raw_ = Some e ->
     (forall j r, j < k -> nth_error (split_lines source) j = Some r ->
                  strict_line_error indentSize (S j) r = None) ->
     decode V source {| opt_indent := indentSize; opt_strict := true |} = Err e
     /\ is_SyntaxError e = true /\ error_line e = Some (S k))
  /\ (forall k raw_,
        nth_error (split_lines source) k = Some raw_ ->
        all_whitespace raw_ = false ->
        tab_in_leading_whitespace raw_ = true
        \/ (0 < space_indent raw_ /\ space_indent raw_ mod indentSize <> 0) ->
        exists e n,
          decode V source {| opt_indent := indentSize; opt_strict := true |}
          = Err e
          /\ is_SyntaxError e = true /\ error_line e = Some n /\ n <= S k)
  /\ ((forall k raw_,
         nth_error (split_lines source) k = Some raw_ ->
         all_whitespace raw_ = false ->
         tab_in_leading_whitespace raw_ = false
         /\ (space_indent raw_ = 0 \/ space_indent raw_ mod indentSize = 0)) ->
      exists sr,
        toParsedLines source indentSize true = OK sr
        /\ toParsedLines source indentSize false = OK sr
        /\ (0 < indentSize ->
            decode V source {| opt_indent := indentSize; opt_strict := true |}
            = if (List.length (lines sr) =? 0)%nat then Err TypeError_EmptyInput
              else decodeValueFromLines V (decode_fuel (List.length (lines sr)))
                     (newLineCursor (lines sr) (blankLines sr))
                     {| opt_indent := indentSize; opt_strict := true |}))
  /\ (exists sr,
        toParsedLines source indentSize false = OK sr
        /\ (0 < indentSize ->
            lines sr = parsed_lines indentSize (split_lines source) 1)
        /\ forall l, In l (lines sr) ->
             (0 < indentSize -> depth l = indent l / indentSize)
             /\ indent l = space_indent (raw l)
             /\ exists k, nth_error (split_lines source) k = Some (raw l)
                          /\ lineNumber l = S k).
Proof.
  assert (Hfirst : forall k raw_ e,
     nth_error (split_lines source) k = Some raw_ ->
     strict_line_error indentSize (S k) raw_ = Some e ->
     (forall j r, j < k -> nth_error (split_lines source) j = Some r ->
                  strict_line_error indentSize (S j) r = None) ->
     decode V source {| opt_indent := indentSize; opt_strict := true |} = Err e
     /\ is_SyntaxError e = true /\ error_line e = Some (S k)).
  { intros k raw_ e Hk He Hf.
    destruct (strict_line_error_is_syntax _ _ _ _ He) as (Hs & Hl & _).
    repeat split; try assumption.
    apply decode_scan_error. simpl.
    exact (toParsedLines_strict_error source indentSize k raw_ e Hk He Hf). }
  assert (Hlenient : exists sr,
     toParsedLines source indentSize false = OK sr
     /\ lines sr = parsed_lines indentSize (split_lines source) 1).
  { apply toParsedLines_ok. discriminate. }
  split; [exact Hfirst|]. split; [|split].
  - intros k raw_ Hk Hnb Hbad.
    assert (He : exists e, strict_line_error indentSize (1 + k) raw_ = Some e).
    { unfold strict_line_error. rewrite Hnb.
      destruct (tab_in_leading_whitespace raw_); [eexists; reflexivity|].
      destruct Hbad as [Hbad|[Hpos Hmod]]; [discriminate|].
      apply Nat.ltb_lt in Hpos. apply Nat.eqb_neq in Hmod.
      rewrite Hpos, Hmod. eexists; reflexivity. }
    destruct He as [e He].
    destruct (first_strict_error indentSize _ 1 k raw_ e Hk He)
      as (k' & raw' & e' & Hle & Hk' & He' & Hf).
    destruct (Hfirst k' raw' e' Hk' He' Hf) as (Hd & Hs & Hl).
    exists e', (S k'). repeat split; try assumption. lia.
  - intros Hgood.
    assert (Hok : forall j r, nth_error (split_lines source) j = Some r ->
                              strict_line_error indentSize (S j) r = None).
    { intros j r Hj. unfold strict_line_error.
      destruct (all_whitespace r) eqn:Hb; [reflexivity|].
      destruct (Hgood j r Hj Hb) as [-> Hmul].
      destruct Hmul as [->| ->]; [reflexivity|].
      now rewrite andb_false_r. }
    destruct Hlenient as (sr & Hsr & _).
    exists sr. rewrite (toParsedLines_strict_accepts source indentSize Hok).
    split; [exact Hsr|]. split; [exact Hsr|]. intros _.
    unfold decode. cbn [opt_indent opt_strict].
    rewrite (toParsedLines_strict_accepts source indentSize Hok), Hsr.
    reflexivity.
  - destruct Hlenient as (sr & Hsr & Hl).
    exists sr. split; [exact Hsr|]. split; [intros _; exact Hl|].
    intros l Hin. rewrite Hl in Hin.
    destruct (parsed_lines_spec _ _ _ _ Hin) as (H1 & H2 & _ & _ & k & Hk & Hn).
    split; [intros _; exact H1|]. split; [exact H2|].
    exists k. split; [exact Hk | exact Hn].
Qed.

(** The sixth scenario of the specification: three spaces under an indent
    size of two are rejected at line 2 in strict mode.  A blank line of
    three spaces is not: the scan in strict mode succeeds, as it does
    without strict mode. *)
Lemma strict_indentation_errors_witness :
  (decode spec_validators ("a:" ++ String NEWLINE "   b: x")
     {| opt_indent := 2; opt_strict := true |}
   = Err (SyntaxError_IndentNotMultiple 2 2 3)
   /\ is_SyntaxError (SyntaxError_IndentNotMultiple 2 2 3) = true
   /\ error_line (SyntaxError_IndentNotMultiple 2 2 3) = Some 2)
  /\ exists sr,
       toParsedLines ("a: x" ++ String NEWLINE "   ") 2 true = OK sr
       /\ toParsedLines ("a: x" ++ String NEWLINE "   ") 2 false = OK sr.
Proof.
  split.
  - destruct (strict_indentation_errors spec_validators
                ("a:" ++ String NEWLINE "   b: x") 2) as [H _].
    apply (H 1 "   b: x").
    + reflexivity.
    + reflexivity.
    + intros j r Hj Hr. destruct j as [|j]; [|lia].
      injection Hr as <-. reflexivity.
  - destruct (strict_indentation_errors spec_validators
                ("a: x" ++ String NEWLINE "   ") 2) as (_ & _ & H & _).
    destruct H as (sr & H1 & H2 & _).
    + intros k raw_ Hk Hnb. destruct k as [|[|k]].
      * injection Hk as <-. split; [reflexivity | left; reflexivity].
      * injection Hk as <-. discriminate.
      * destruct k; discriminate.
    + exists sr. split; [exact H1 | exact H2].
Defined.

(** C4, as stated, fails on blank lines: a line made of a tab, and a line
    made of three spaces under an indent size of two, are accepted in
    strict mode. *)
Lemma strict_blank_lines_counterexample :
  (nth_error (split_lines ("a: x" ++ String NEWLINE (String TAB ""))) 1
   = Some (String TAB "")
   /\ tab_in_leading_whitespace (String TAB "") = true
   /\ forall V,
        decode V ("a: x" ++ String NEWLINE (String TAB ""))
          {| opt_indent := 2; opt_strict := true |}
        = OK (JObject [("a", JPrim (PString "x"))]))
  /\ (nth_error (split_lines ("a: x" ++ String NEWLINE "   ")) 1 = Some "   "
      /\ space_indent "   " = 3 /\ 3 mod 2 <> 0
      /\ forall V,
           decode V ("a: x" ++ String NEWLINE "   ")
             {| opt_indent := 2; opt_strict := true |}
           = OK (JObject [("a", JPrim (PString "x"))])).
Proof.
  repeat split; try reflexivity; discriminate.
Qed.

(* ================================================================= *)
(** ** The errors of the decoders *)

Lemma raises_only_OK {A} (P : error -> Prop) (a : A) : raises_only P (OK a).
Proof. intros e H. discriminate. Qed.

Lemma raises_only_Err {A} (P : error -> Prop) (e : error) :
  P e -> raises_only P (@Err A e).
Proof. intros H e' [= <-]. exact H. Qed.

Lemma raises_only_bind {A B} (P : error -> Prop) (r : result A)
    (k : A -> result B) :
  raises_only P r -> (forall a, raises_only P (k a)) ->
  raises_only P (bind r k).
Proof.
  intros Hr Hk e H. destruct r as [a|e']; simpl in H.
  - exact (Hk a e H).
  - injection H as <-. now apply Hr.
Qed.

Lemma raises_only_mapM {A B} (P : error -> Prop) (f : A -> result B)
    (l : list A) :
  (forall a, raises_only P (f a)) -> raises_only P (mapM f l).
Proof.
  intros Hf. induction l as [|a l IH]; simpl.
  - apply raises_only_OK.
  - apply raises_only_bind; [apply Hf|]. intros b.
    apply raises_only_bind; [exact IH|]. intros bs. apply raises_only_OK.
Qed.

Ltac raises_step :=
  match goal with
  | |- raises_only _ (OK _) => apply raises_only_OK
  | |- raises_only _ (Err _) => apply raises_only_Err
  | |- raises_only _ (bind _ _) => apply raises_only_bind; [|intros]
  | |- raises_only _ (mapM _ _) => apply raises_only_mapM; intros
  | |- raises_only _ (if ?b then _ else _) => destruct b
  | |- raises_only _ (match ?x with _ => _ end) => destruct x
  | |- raises_only _ (let (_, _) := ?x in _) => destruct x
  end.

Section DecoderErrors.

Variable V : Validators.
Variable P : error -> Prop.
Hypothesis P_syntax : forall e, is_SyntaxError e = true -> P e.
Hypothesis P_validation : forall v, P (Validation v).
Hypothesis P_expected_item : P ReferenceError_ExpectedListItem.
Hypothesis P_fuel : P OutOfFuel.

Lemma raises_unescapeString (s : string) : raises_only P (unescapeString s).
Proof.
  intros e H. apply P_syntax. exact (unescapeString_error_is_syntax s e H).
Qed.

Lemma raises_parseStringLiteral (s : string) :
  raises_only P (parseStringLiteral s).
Proof.
  unfold parseStringLiteral.
  repeat raises_step; auto using raises_unescapeString.
Qed.

Lemma raises_parsePrimitiveToken (s : string) :
  raises_only P (parsePrimitiveToken s).
Proof.
  unfold parsePrimitiveToken.
  repeat raises_step; auto using raises_parseStringLiteral.
Qed.

Lemma raises_parseKeyToken (s : string) (n : nat) :
  raises_only P (parseKeyToken s n).
Proof.
  unfold parseKeyToken, parseQuotedKey, parseUnquotedKey.
  repeat raises_step; auto using raises_unescapeString.
Qed.

Lemma raises_parseArrayHeaderLine (s : string) (D : Delimiter) :
  raises_only P (parseArrayHeaderLine s D).
Proof.
  unfold parseArrayHeaderLine.
  repeat raises_step; auto using raises_parseStringLiteral.
Qed.

Lemma raises_check (v : option validation_error) : raises_only P (check v).
Proof. unfold check. repeat raises_step; auto. Qed.

Lemma raises_decodeInlinePrimitiveArray h iv o :
  raises_only P (decodeInlinePrimitiveArray V h iv o).
Proof.
  unfold decodeInlinePrimitiveArray, mapRowValuesToPrimitives.
  repeat raises_step; auto using raises_check, raises_parsePrimitiveToken.
Qed.

Lemma raises_decodeTabularArray_loop fuel :
  forall h c d o objs sl el,
    raises_only P (decodeTabularArray_loop V fuel h c d o objs sl el).
Proof.
  induction fuel as [|f IH]; intros; simpl; [now apply raises_only_Err|].
  unfold mapRowValuesToPrimitives.
  repeat raises_step; auto using raises_check, raises_parsePrimitiveToken.
Qed.

Lemma raises_decodeTabularArray fuel h c d o :
  raises_only P (decodeTabularArray V fuel h c d o).
Proof.
  unfold decodeTabularArray.
  repeat raises_step;
    auto using raises_check, raises_decodeTabularArray_loop.
Qed.

Local Arguments parseArrayHeaderLine : simpl never.
Local Arguments parsePrimitiveToken : simpl never.
Local Arguments parseKeyToken : simpl never.
Local Arguments decodeTabularArray : simpl never.
Local Arguments decodeInlinePrimitiveArray : simpl never.
Local Arguments isArrayHeaderAfterHyphen : simpl never.
Local Arguments isObjectFirstFieldAfterHyphen : simpl never.
Local Arguments trim : simpl never.
Local Arguments String.length : simpl never.
Local Arguments startsWithStr : simpl never.
Local Arguments next : simpl never.
Local Arguments peek : simpl never.
Local Arguments atEnd : simpl never.
Local Arguments current : simpl never.
Local Arguments advance : simpl never.

Lemma raises_decoders (fuel : nat) :
  (forall c d o obj, raises_only P (decodeObject_loop V fuel c d o obj))
  /\ (forall s c d o, raises_only P (decodeKeyValue V fuel s c d o))
  /\ (forall l c d o, raises_only P (decodeKeyValuePair V fuel l c d o))
  /\ (forall h iv c d o, raises_only P (decodeArrayFromHeader V fuel h iv c d o))
  /\ (forall h c d o, raises_only P (decodeListArray V fuel h c d o))
  /\ (forall h c d o items sl el,
        raises_only P (decodeListArray_loop V fuel h c d o items sl el))
  /\ (forall c d a o, raises_only P (decodeListItem V fuel c d a o))
  /\ (forall l c d o, raises_only P (decodeObjectFromListItem V fuel l c d o))
  /\ (forall c d o obj,
        raises_only P (decodeObjectFromListItem_loop V fuel c d o obj)).
Proof.
  induction fuel as [|f IH].
  - repeat split; intros; simpl; now apply raises_only_Err.
  - destruct IH as (IH1 & IH2 & IH3 & IH4 & IH5 & IH6 & IH7 & IH8 & IH9).
    repeat split; intros; simpl;
      repeat raises_step;
      auto using raises_check, raises_parsePrimitiveToken,
        raises_parseKeyToken, raises_parseArrayHeaderLine,
        raises_decodeTabularArray, raises_decodeInlinePrimitiveArray.
Qed.

Lemma raises_decodeValueFromLines (fuel : nat) (c : LineCursor)
    (o : ResolvedDecodeOptions) :
  P ReferenceError_NoContent ->
  raises_only P (decodeValueFromLines V fuel c o).
Proof.
  intros Hnc. unfold decodeValueFromLines, decodeObject.
  destruct (raises_decoders fuel)
    as (IH1 & IH2 & IH3 & IH4 & IH5 & IH6 & IH7 & IH8 & IH9).
  repeat raises_step;
    auto using raises_parsePrimitiveToken, raises_parseArrayHeaderLine.
Qed.

End DecoderErrors.

(* ================================================================= *)
(** ** index.ts: empty input *)

Lemma toParsedLines_loop_result (indentSize : nat) (strict : bool)
    (raws : list string) :
  forall n,
    match toParsedLines_loop raws n indentSize strict with
    | OK (parsed, _) => parsed = parsed_lines indentSize raws n
    | Err e => is_SyntaxError e = true /\ strict = true
    end.
Proof.
  induction raws as [|r0 raws IH]; intros n; simpl; [reflexivity|].
  fold (space_indent r0). rewrite blank_content.
  specialize (IH (S n)).
  destruct (toParsedLines_loop raws (S n) indentSize strict) as [[p b]|e].
  - destruct (all_whitespace r0); simpl; [exact IH|].
    destruct strict; simpl.
    + destruct (includes TAB _); [auto|].
      destruct (_ && _); [auto | now subst p].
    + now subst p.
  - destruct (all_whitespace r0); simpl; [exact IH|].
    destruct strict; simpl; [|exact IH].
    destruct (includes TAB _); [auto|].
    destruct (_ && _); auto.
Qed.

Lemma toParsedLines_result (source : string) (indentSize : nat) (strict : bool) :
  match toParsedLines source indentSize strict with
  | OK sr =>
      lines sr = parsed_lines indentSize (split_lines source) 1
      /\ (lines sr = [] <-> all_whitespace source = true)
  | Err e =>
      is_SyntaxError e = true /\ strict = true /\ all_whitespace source = false
  end.
Proof.
  unfold toParsedLines. rewrite trim_is_empty.
  destruct (all_whitespace source) eqn:Hb.
  - simpl. split; [|tauto]. symmetry. apply parsed_lines_nil_iff.
    now rewrite <- all_whitespace_split_lines.
  - pose proof (toParsedLines_loop_result indentSize strict (split_lines source) 1)
      as H.
    destruct (toParsedLines_loop (split_lines source) 1 indentSize strict)
      as [[p b]|e]; simpl.
    + split; [exact H|]. subst p. rewrite parsed_lines_nil_iff.
      now rewrite <- all_whitespace_split_lines, Hb.
    + tauto.
Qed.

(** C8, as amended. [decode] raises the error of the empty input exactly
    when the input is empty or white space only.  On any other input the scan
    either returns at least one parsed line, and [decode] goes on to decode
    them, or, in strict mode only, rejects the indentation with a syntax
    error; outside strict mode it always returns at least one parsed line. *)
Theorem empty_input_error (V : Validators) (source : string)
    (options : ResolvedDecodeOptions) :
  (decode V source options = Err TypeError_EmptyInput
   <-> all_whitespace source = true)
  /\ (all_whitespace source = false ->
      (exists sr,
         toParsedLines source (opt_indent options) (opt_strict options) = OK sr
         /\ lines sr <> []
         /\ decode V source options
            = decodeValueFromLines V (decode_fuel (List.length (lines sr)))
                (newLineCursor (lines sr) (blankLines sr)) options)
      \/ (opt_strict options = true
          /\ exists e,
               toParsedLines source (opt_indent options) (opt_strict options)
               = Err e
               /\ is_SyntaxError e = true
               /\ decode V source options = Err e))
  /\ (opt_strict options = false -> all_whitespace source = false ->
      exists sr,
        toParsedLines source (opt_indent options) (opt_strict options) = OK sr
        /\ lines sr <> []).
Proof.
  pose proof (toParsedLines_result source (opt_indent options)
                (opt_strict options)) as Hscan.
  unfold decode.
  destruct (toParsedLines source (opt_indent options) (opt_strict options))
    as [sr|e] eqn:Hsr; simpl.
  - destruct Hscan as [Hl Hnil].
    destruct (lines sr) as [|l ls] eqn:Hls; simpl.
    + assert (Hb : all_whitespace source = true) by now apply Hnil.
      rewrite Hb. split; [tauto|]. split; discriminate.
    + assert (Hb : all_whitespace source = false).
      { destruct (all_whitespace source); [|reflexivity].
        destruct Hnil as [_ Hnil]. discriminate (Hnil eq_refl). }
      rewrite Hb. split; [|split].
      * split; [|discriminate]. intros Hd. exfalso.
        refine (raises_decodeValueFromLines V
                  (fun e => e <> TypeError_EmptyInput) _ _ _ _ _ _ _ _ _ Hd eq_refl);
          try discriminate.
        intros e He ->. discriminate.
      * intros _. left. exists sr. rewrite Hls. repeat split.
        -- discriminate.
      * intros _ _. exists sr. rewrite Hls. split; [reflexivity | discriminate].
  - destruct Hscan as (Hs & Hstrict & Hb). rewrite Hb. split; [|split].
    + split; [|discriminate]. intros [= ->]. discriminate.
    + intros _. right. split; [exact Hstrict|]. exists e. auto.
    + intros Hns. congruence.
Qed.

Lemma empty_input_error_witness :
  decode spec_validators "  " (resolveDecodeOptions None None)
  = Err TypeError_EmptyInput
  /\ exists sr,
       toParsedLines (String TAB "x") 2 false = OK sr /\ lines sr <> [].
Proof.
  destruct (empty_input_error spec_validators "  "
              (resolveDecodeOptions None None)) as [[_ H1] _].
  destruct (empty_input_error spec_validators (String TAB "x")
              {| opt_indent := 2; opt_strict := false |}) as (_ & _ & H2).
  split; [apply H1; reflexivity | apply H2; reflexivity].
Defined.

(** C8, as stated, fails in strict mode: an input that is not blank and
    whose indentation strict mode rejects gives no parsed line. *)
Lemma scan_without_parsed_line_counterexample :
  all_whitespace (String TAB "x") = false
  /\ toParsedLines (String TAB "x") 2 true = Err (SyntaxError_TabsInIndent 1)
  /\ ~ (exists sr,
          toParsedLines (String TAB "x") 2 true = OK sr /\ lines sr <> []).
Proof.
  repeat split. intros (sr & H & _). discriminate.
Qed.

(* ================================================================= *)
(** ** decode/decoders.ts: the cursor only moves forward *)

Lemma cursor_le_refl c : cursor_le c c.
Proof. split; [reflexivity | lia]. Qed.

Lemma cursor_le_trans c1 c2 c3 :
  cursor_le c1 c2 -> cursor_le c2 c3 -> cursor_le c1 c3.
Proof. intros [H1 H2] [H3 H4]. split; [congruence | lia]. Qed.

Lemma cursor_lt_le c c' : cursor_lt c c' -> cursor_le c c'.
Proof. intros [H1 H2]. split; [exact H1 | lia]. Qed.

Lemma cursor_advance_lt c c' : cursor_le (advance c) c' -> cursor_lt c c'.
Proof. intros [H1 H2]. simpl in *. split; [exact H1 | lia]. Qed.

(** Takes apart a hypothesis that says that a computation in the [result]
    monad returned. *)
Ltac inv_OK H :=
  repeat match type of H with
    | OK _ = OK _ => injection H as H; subst
    | Err _ = OK _ => discriminate H
    | bind ?r _ = OK _ =>
        let E := fresh "E" in
        destruct r eqn:E; simpl in H; [|discriminate H]
    | (if ?b then _ else _) = OK _ =>
        let E := fresh "E" in destruct b eqn:E
    | match ?x with _ => _ end = OK _ =>
        let E := fresh "E" in destruct x eqn:E
    | _ /\ _ => destruct H
    | (_, _) = (_, _) => injection H as H
    end.

Ltac cursor_use lem :=
  match goal with
  | H : _ = OK _ |- _ => apply lem in H
  end.

Ltac cursor_unfold_in_goal := idtac.

Ltac cursor_solve :=
  unfold cursor_le, cursor_lt, advance in *; simpl in *;
  repeat match goal with H : _ /\ _ |- _ => destruct H end;
  split; [congruence | lia].

Section CursorMonotone.

Variable V : Validators.

Local Arguments parseArrayHeaderLine : simpl never.
Local Arguments parsePrimitiveToken : simpl never.
Local Arguments parseKeyToken : simpl never.
Local Arguments decodeInlinePrimitiveArray : simpl never.
Local Arguments isArrayHeaderAfterHyphen : simpl never.
Local Arguments isObjectFirstFieldAfterHyphen : simpl never.
Local Arguments parseDelimitedValues : simpl never.
Local Arguments mapRowValuesToPrimitives : simpl never.
Local Arguments trim : simpl never.
Local Arguments String.length : simpl never.
Local Arguments startsWithStr : simpl never.
Local Arguments peek : simpl never.
Local Arguments atEnd : simpl never.
Local Arguments current : simpl never.
Local Arguments advance : simpl never.
Local Arguments check : simpl never.
Local Arguments Z.of_nat : simpl never.
Local Arguments Z.ltb : simpl never.

Lemma decodeTabularArray_loop_cursor (fuel : nat) :
  forall h c d o objs sl el objs' sl' el' c',
    decodeTabularArray_loop V fuel h c d o objs sl el
    = OK (objs', sl', el', c') ->
    cursor_le c c'.
Proof.
  induction fuel as [|f IH]; intros h c d o objs sl el objs' sl' el' c' H;
    [discriminate|].
  simpl in H.
  destruct (negb (atEnd c) && _); [|inv_OK H; apply cursor_le_refl].
  destruct (peek c) as [line|]; [|inv_OK H; apply cursor_le_refl].
  destruct (depth line <? d)%nat; [inv_OK H; apply cursor_le_refl|].
  destruct (depth line =? d)%nat; [|inv_OK H; apply cursor_le_refl].
  destruct (check _) as [[]|e]; [|discriminate]. simpl in H.
  destruct (mapRowValuesToPrimitives _) as [ps|e]; [|discriminate].
  simpl in H. apply IH in H. apply cursor_lt_le, cursor_advance_lt, H.
Qed.

Lemma decodeTabularArray_cursor (fuel : nat) h c d o objs c' :
  decodeTabularArray V fuel h c d o = OK (objs, c') -> cursor_le c c'.
Proof.
  unfold decodeTabularArray.
  destruct (decodeTabularArray_loop V fuel h c (d + 1) o [] None None)
    as [[[[objs0 sl] el] c0]|e] eqn:Hloop; [|discriminate].
  apply decodeTabularArray_loop_cursor in Hloop. simpl. intros H.
  repeat match type of H with
         | bind ?r _ = _ => destruct r; [|discriminate]; simpl in H
         end.
  now injection H as <- <-.
Qed.

Local Arguments decodeTabularArray : simpl never.

Lemma decoders_cursor (fuel : nat) :
  (forall c d o obj r c',
     decodeObject_loop V fuel c d o obj = OK (r, c') -> cursor_le c c')
  /\ (forall s c d o k v fd c',
        decodeKeyValue V fuel s c d o = OK (k, v, fd, c') -> cursor_le c c')
  /\ (forall l c d o k v c',
        decodeKeyValuePair V fuel l c d o = OK (k, v, c') -> cursor_lt c c')
  /\ (forall h iv c d o r c',
        decodeArrayFromHeader V fuel h iv c d o = OK (r, c') -> cursor_le c c')
  /\ (forall h c d o r c',
        decodeListArray V fuel h c d o = OK (r, c') -> cursor_le c c')
  /\ (forall h c d o items sl el r sl' el' c',
        decodeListArray_loop V fuel h c d o items sl el = OK (r, sl', el', c') ->
        cursor_le c c')
  /\ (forall c d a o r c',
        decodeListItem V fuel c d a o = OK (r, c') -> cursor_lt c c')
  /\ (forall l c d o r c',
        decodeObjectFromListItem V fuel l c d o = OK (r, c') -> cursor_le c c')
  /\ (forall c d o obj r c',
        decodeObjectFromListItem_loop V fuel c d o obj = OK (r, c') ->
        cursor_le c c').
Proof.
  induction fuel as [|f IH].
  - repeat split; intros; discriminate.
  - destruct IH as (IH1 & IH2 & IH3 & IH4 & IH5 & IH6 & IH7 & IH8 & IH9).
    repeat match goal with |- _ /\ _ => split end;
      intros; cursor_unfold_in_goal;
      match goal with H : _ = OK _ |- _ => simpl in H; unfold next in H; inv_OK H end;
      repeat first
        [ cursor_use IH1 | cursor_use IH2 | cursor_use IH3 | cursor_use IH4
        | cursor_use IH5 | cursor_use IH6 | cursor_use IH7 | cursor_use IH8
        | cursor_use IH9 | cursor_use decodeTabularArray_cursor ];
      cursor_solve.
Qed.

End CursorMonotone.

(* ================================================================= *)
(** ** decode/decoders.ts: the fuel of [decode] is enough *)

Lemma no_timeout_OK {A} (a : A) : no_timeout (OK a).
Proof. discriminate. Qed.

Lemma no_timeout_bind {A B} (r : result A) (k : A -> result B) :
  no_timeout r -> (forall a, r = OK a -> no_timeout (k a)) ->
  no_timeout (bind r k).
Proof.
  intros Hr Hk. destruct r as [a|e]; simpl.
  - now apply Hk.
  - intros [= ->]. now apply Hr.
Qed.

Lemma no_timeout_raises {A} (r : result A) :
  raises_only (fun e => e <> OutOfFuel) r -> no_timeout r.
Proof. intros H Heq. now apply (H _ Heq). Qed.

Lemma syntax_error_not_timeout (e : error) :
  is_SyntaxError e = true -> e <> OutOfFuel.
Proof. intros H ->. discriminate. Qed.

Lemma validation_not_timeout (v : validation_error) : Validation v <> OutOfFuel.
Proof. discriminate. Qed.

Lemma expected_item_not_timeout : ReferenceError_ExpectedListItem <> OutOfFuel.
Proof. discriminate. Qed.

Lemma peek_Some_remaining (c : LineCursor) (l : ParsedLine) :
  peek c = Some l -> cur_index c < List.length (cur_lines c).
Proof.
  unfold peek. intros H. apply nth_error_Some. congruence.
Qed.

Lemma next_Some_remaining (c : LineCursor) (l : ParsedLine) (c1 : LineCursor) :
  next c = (Some l, c1) ->
  cur_index c < List.length (cur_lines c) /\ c1 = advance c.
Proof.
  unfold next. intros [= H <-]. split; [|reflexivity].
  apply nth_error_Some. congruence.
Qed.

Lemma nth_error_Some_lt {A} (l : list A) (n : nat) (a : A) :
  nth_error l n = Some a -> n < List.length l.
Proof. intros H. apply nth_error_Some. congruence. Qed.

Ltac no_timeout_leaf :=
  apply no_timeout_raises;
  first
    [ apply raises_parsePrimitiveToken
    | apply raises_parseKeyToken
    | apply raises_parseArrayHeaderLine
    | apply raises_check
    | apply raises_decodeInlinePrimitiveArray
    | apply raises_only_mapM; intros; apply raises_parsePrimitiveToken ];
  auto using syntax_error_not_timeout, validation_not_timeout.

Ltac no_timeout_step :=
  match goal with
  | |- no_timeout (OK _) => apply no_timeout_OK
  | |- no_timeout (Err _) => discriminate
  | |- no_timeout (bind _ _) =>
      apply no_timeout_bind; [|let a := fresh "a" in
                               let E := fresh "E" in intros a E]
  | |- no_timeout (if ?b then _ else _) =>
      let E := fresh "E" in destruct b eqn:E
  | |- no_timeout (match ?x with _ => _ end) =>
      let E := fresh "E" in destruct x eqn:E
  | |- no_timeout (let (_, _) := ?x in _) =>
      let E := fresh "E" in destruct x eqn:E
  end.

(** The facts about cursors that the hypotheses give, then arithmetic. *)
Ltac fuel_arith V :=
  repeat match goal with
    | H : peek _ = Some _ |- _ => apply peek_Some_remaining in H
    | H : nth_error _ _ = Some _ |- _ => apply nth_error_Some_lt in H
    | H : next _ = (Some _, _) |- _ =>
        apply next_Some_remaining in H; destruct H as [H ?]; subst
    | H : decodeKeyValuePair V _ _ _ _ _ = OK _ |- _ =>
        apply (proj1 (proj2 (proj2 (decoders_cursor V _)))) in H
    | H : decodeKeyValue V _ _ _ _ _ = OK _ |- _ =>
        apply (proj1 (proj2 (decoders_cursor V _))) in H
    | H : decodeListItem V _ _ _ _ _ = OK _ |- _ =>
        apply (proj1 (proj2 (proj2 (proj2 (proj2 (proj2 (proj2
                 (decoders_cursor V _)))))))) in H
    end;
  unfold remaining, cursor_le, cursor_lt, advance in *; simpl in *;
  repeat match goal with H : _ /\ _ |- _ => destruct H end;
  repeat match goal with
    | H : cur_lines _ = cur_lines _ |- _ => rewrite H in *; clear H
    end;
  lia.

Section Fuel.

Variable V : Validators.

Local Arguments parseArrayHeaderLine : simpl never.
Local Arguments parsePrimitiveToken : simpl never.
Local Arguments parseKeyToken : simpl never.
Local Arguments decodeInlinePrimitiveArray : simpl never.
Local Arguments isArrayHeaderAfterHyphen : simpl never.
Local Arguments isObjectFirstFieldAfterHyphen : simpl never.
Local Arguments parseDelimitedValues : simpl never.
Local Arguments mapRowValuesToPrimitives : simpl never.
Local Arguments trim : simpl never.
Local Arguments String.length : simpl never.
Local Arguments startsWithStr : simpl never.
Local Arguments peek : simpl never.
Local Arguments next : simpl never.
Local Arguments atEnd : simpl never.
Local Arguments current : simpl never.
Local Arguments advance : simpl never.
Local Arguments check : simpl never.
Local Arguments Z.of_nat : simpl never.
Local Arguments Z.ltb : simpl never.
Local Arguments Nat.mul : simpl never.

Lemma decodeTabularArray_loop_fuel (fuel : nat) :
  forall h c d o objs sl el,
    remaining c + 1 <= fuel ->
    no_timeout (decodeTabularArray_loop V fuel h c d o objs sl el).
Proof.
  induction fuel as [|f IH]; intros h c d o objs sl el Hf; [lia|].
  simpl. unfold mapRowValuesToPrimitives.
  repeat no_timeout_step; try no_timeout_leaf.
  apply IH. fuel_arith V.
Qed.

Lemma decodeTabularArray_fuel (fuel : nat) h c d o :
  remaining c + 1 <= fuel -> no_timeout (decodeTabularArray V fuel h c d o).
Proof.
  intros Hf. unfold decodeTabularArray.
  apply no_timeout_bind; [now apply decodeTabularArray_loop_fuel|].
  intros. repeat no_timeout_step; try no_timeout_leaf.
Qed.

Local Arguments decodeTabularArray : simpl never.

Lemma decoders_fuel (fuel : nat) :
  (forall c d o obj,
     6 * remaining c + 1 <= fuel ->
     no_timeout (decodeObject_loop V fuel c d o obj))
  /\ (forall s c d o,
        6 * remaining c + 5 <= fuel ->
        no_timeout (decodeKeyValue V fuel s c d o))
  /\ (forall l c d o,
        1 <= remaining c -> 6 * remaining c <= fuel ->
        no_timeout (decodeKeyValuePair V fuel l c d o))
  /\ (forall h iv c d o,
        6 * remaining c + 4 <= fuel ->
        no_timeout (decodeArrayFromHeader V fuel h iv c d o))
  /\ (forall h c d o,
        6 * remaining c + 3 <= fuel ->
        no_timeout (decodeListArray V fuel h c d o))
  /\ (forall h c d o items sl el,
        6 * remaining c + 2 <= fuel ->
        no_timeout (decodeListArray_loop V fuel h c d o items sl el))
  /\ (forall c d a o,
        6 * remaining c + 1 <= fuel ->
        no_timeout (decodeListItem V fuel c d a o))
  /\ (forall l c d o,
        6 * remaining c + 6 <= fuel ->
        no_timeout (decodeObjectFromListItem V fuel l c d o))
  /\ (forall c d o obj,
        6 * remaining c + 1 <= fuel ->
        no_timeout (decodeObjectFromListItem_loop V fuel c d o obj)).
Proof.
  induction fuel as [|f IH].
  - repeat split; intros; lia.
  - destruct IH as (IH1 & IH2 & IH3 & IH4 & IH5 & IH6 & IH7 & IH8 & IH9).
    repeat match goal with |- _ /\ _ => split end;
      intros; simpl;
      repeat no_timeout_step;
      try no_timeout_leaf;
      first
        [ apply IH1 | apply IH2 | apply IH3 | apply IH4 | apply IH5
        | apply IH6 | apply IH7 | apply IH8 | apply IH9
        | apply decodeTabularArray_fuel ];
      fuel_arith V.
Qed.

(** Whatever the input, [decode] does not run out of fuel. *)
Theorem decode_fuel_enough (source : string) (options : ResolvedDecodeOptions) :
  decode V source options <> Err OutOfFuel.
Proof.
  unfold decode. fold (@no_timeout JsonValue
    (bind (toParsedLines source (opt_indent options) (opt_strict options))
       (fun scanResult =>
          if (List.length (lines scanResult) =? 0)%nat
          then Err TypeError_EmptyInput
          else decodeValueFromLines V
                 (decode_fuel (List.length (lines scanResult)))
                 (newLineCursor (lines scanResult) (blankLines scanResult))
                 options))).
  apply no_timeout_bind.
  - pose proof (toParsedLines_result source (opt_indent options)
                  (opt_strict options)) as H.
    destruct (toParsedLines _ _ _) as [sr|e]; [discriminate|].
    destruct H as [H _]. intros [= ->]. discriminate.
  - intros sr _. destruct (List.length (lines sr) =? 0)%nat; [discriminate|].
    unfold decodeValueFromLines, decodeObject.
    destruct (decoders_fuel (decode_fuel (List.length (lines sr))))
      as (IH1 & _ & _ & IH4 & _).
    repeat no_timeout_step; try no_timeout_leaf;
      first [apply IH1 | apply IH4];
      unfold decode_fuel, remaining, newLineCursor, advance; simpl; lia.
Qed.

End Fuel.

(* ================================================================= *)
(** ** decode/decoders.ts: the length of a decoded array *)

Section ArrayLength.

Variable V : Validators.

Local Arguments parseDelimitedValues : simpl never.
Local Arguments mapRowValuesToPrimitives : simpl never.
Local Arguments startsWithStr : simpl never.
Local Arguments peek : simpl never.
Local Arguments atEnd : simpl never.
Local Arguments current : simpl never.
Local Arguments advance : simpl never.
Local Arguments Z.of_nat : simpl never.
Local Arguments Z.ltb : simpl never.

(** The loop over list items pushes an item only while it has fewer than
    the declared length. *)
Lemma decodeListArray_loop_length (fuel : nat) :
  forall h c d o items sl el items' sl' el' c',
    decodeListArray_loop V fuel h c d o items sl el
    = OK (items', sl', el', c') ->
    (List.length items' <= Nat.max (List.length items) (Z.to_nat (hlength h)))%nat.
Proof.
  induction fuel as [|f IH]; intros h c d o items sl el items' sl' el' c' H;
    [discriminate|].
  simpl in H.
  destruct (negb (atEnd c)) eqn:Hend; simpl in H;
    [|injection H as <- <- <- <-; lia].
  destruct (Z.ltb_spec (Z.of_nat (List.length items)) (hlength h)) as [Hlt|Hge];
    [|injection H as <- <- <- <-; lia].
  destruct (peek c) as [line|]; [|injection H as <- <- <- <-; lia].
  destruct (depth line <? d)%nat; [injection H as <- <- <- <-; lia|].
  destruct ((depth line =? d)%nat && startsWithStr LIST_ITEM_PREFIX (content line));
    [|injection H as <- <- <- <-; lia].
  destruct (decodeListItem V f c d (hdelimiter h) o) as [[item c1]|e];
    [|discriminate].
  simpl in H. apply IH in H. rewrite length_app in H. simpl in H. lia.
Qed.

(** The loop over tabular rows does the same. *)
Lemma decodeTabularArray_loop_length (fuel : nat) :
  forall h c d o objs sl el objs' sl' el' c',
    decodeTabularArray_loop V fuel h c d o objs sl el
    = OK (objs', sl', el', c') ->
    (List.length objs' <= Nat.max (List.length objs) (Z.to_nat (hlength h)))%nat.
Proof.
  induction fuel as [|f IH]; intros h c d o objs sl el objs' sl' el' c' H;
    [discriminate|].
  simpl in H.
  destruct (negb (atEnd c)) eqn:Hend; simpl in H;
    [|injection H as <- <- <- <-; lia].
  destruct (Z.ltb_spec (Z.of_nat (List.length objs)) (hlength h)) as [Hlt|Hge];
    [|injection H as <- <- <- <-; lia].
  destruct (peek c) as [line|]; [|injection H as <- <- <- <-; lia].
  destruct (depth line <? d)%nat; [injection H as <- <- <- <-; lia|].
  destruct (depth line =? d)%nat; [|injection H as <- <- <- <-; lia].
  destruct (check _) as [[]|e]; [|discriminate]. simpl in H.
  destruct (mapRowValuesToPrimitives _) as [ps|e]; [|discriminate].
  simpl in H. apply IH in H. rewrite length_app in H. simpl in H. lia.
Qed.

Lemma decodeListArray_length (fuel : nat) h c d o items c' :
  decodeListArray V fuel h c d o = OK (items, c') ->
  (List.length items <= Z.to_nat (hlength h))%nat.
Proof.
  destruct fuel as [|f]; [discriminate|]. simpl.
  destruct (decodeListArray_loop V f h c (d + 1) o [] None None)
    as [[[[items0 sl] el] c0]|e] eqn:Hloop; [|discriminate].
  apply decodeListArray_loop_length in Hloop. simpl in Hloop.
  simpl. intros H.
  repeat match type of H with
         | bind ?r _ = _ => destruct r; [|discriminate]; simpl in H
         end.
  injection H as <- <-. lia.
Qed.

Lemma decodeTabularArray_length (fuel : nat) h c d o objs c' :
  decodeTabularArray V fuel h c d o = OK (objs, c') ->
  (List.length objs <= Z.to_nat (hlength h))%nat.
Proof.
  unfold decodeTabularArray.
  destruct (decodeTabularArray_loop V fuel h c (d + 1) o [] None None)
    as [[[[objs0 sl] el] c0]|e] eqn:Hloop; [|discriminate].
  apply decodeTabularArray_loop_length in Hloop. simpl in Hloop.
  simpl. intros H.
  repeat match type of H with
         | bind ?r _ = _ => destruct r; [|discriminate]; simpl in H
         end.
  injection H as <- <-. lia.
Qed.

End ArrayLength.

(** C9, as amended. In strict mode and outside it, whatever the checks of
    decode/validation.ts do, an array that [decodeListArray] or
    [decodeTabularArray] returns has at most as many items as the declared
    length when that is not negative, and none when it is negative: the
    loops push an item only while they have fewer than the declared
    length.  So the length of the array is at most the larger of 0 and the
    declared length, and at most the declared length when that is not
    negative. *)
Theorem decoded_array_length_bounded (V : Validators) (fuel : nat)
    (header : ArrayHeaderInfo) (cursor : LineCursor) (baseDepth : nat)
    (options : ResolvedDecodeOptions) :
  (forall items cursor',
     decodeListArray V fuel header cursor baseDepth options = OK (items, cursor') ->
     (Z.of_nat (List.length items) <= Z.max 0 (hlength header))%Z
     /\ (0 <= hlength header -> Z.of_nat (List.length items) <= hlength header)%Z
     /\ ((hlength header < 0)%Z -> items = []))
  /\ (forall objects cursor',
        decodeTabularArray V fuel header cursor baseDepth options
        = OK (objects, cursor') ->
        (Z.of_nat (List.length objects) <= Z.max 0 (hlength header))%Z
        /\ (0 <= hlength header ->
            Z.of_nat (List.length objects) <= hlength header)%Z
        /\ ((hlength header < 0)%Z -> objects = [])).
Proof.
  split.
  - intros items c' H. apply decodeListArray_length in H.
    split; [lia|]. split; [lia|]. intros Hneg.
    destruct items; [reflexivity|]. simpl in H. lia.
  - intros objs c' H. apply decodeTabularArray_length in H.
    split; [lia|]. split; [lia|]. intros Hneg.
    destruct objs; [reflexivity|]. simpl in H. lia.
Qed.

(** A list array that declares two items and is followed by three, outside
    strict mode: two are read. *)
Lemma decoded_array_length_bounded_witness :
  exists items cursor',
    decodeListArray strict_validators 10
      {| hkey := None; hlength := 2; hdelimiter := DelimComma;
         hfields := None; hasLengthMarker := false |}
      (newLineCursor
         (parsed_lines 2 ["  - a"; "  - b"; "  - c"] 2) [])
      0 {| opt_indent := 2; opt_strict := false |}
    = OK (items, cursor')
    /\ items = [JPrim (PString "a"); JPrim (PString "b")]
    /\ (Z.of_nat (List.length items) <= 2)%Z.
Proof.
  eexists. eexists. split; [vm_compute; reflexivity|]. split; [reflexivity|].
  destruct (decoded_array_length_bounded strict_validators 10
              {| hkey := None; hlength := 2; hdelimiter := DelimComma;
                 hfields := None; hasLengthMarker := false |}
              (newLineCursor
                 (parsed_lines 2 ["  - a"; "  - b"; "  - c"] 2) [])
              0 {| opt_indent := 2; opt_strict := false |}) as [H _].
  refine (proj1 (proj2 (H _ _ _)) _); [vm_compute; reflexivity | simpl; lia].
Defined.

(** C9, as stated, fails for a declared length that is negative, which
    [parseBracketSegment] lets through: the header of the line a[-1]:
    declares the length -1, the loop of [decodeListArray] reads nothing,
    and outside strict mode, where the count is not compared, the empty
    array is returned, for the header alone and for the header followed by
    an item.  Its length 0 exceeds the declared length. *)
Lemma negative_declared_length_counterexample :
  parseArrayHeaderLine "a[-1]:" DEFAULT_DELIMITER
  = OK (Some ({| hkey := Some "a"; hlength := -1; hdelimiter := DelimComma;
                 hfields := None; hasLengthMarker := false |}, None))
  /\ (forall V : Validators,
        assertExpectedCount V 0 (-1) "list array items"
          {| opt_indent := 2; opt_strict := false |} = None ->
        decodeListArray V 10
          {| hkey := Some "a"; hlength := -1; hdelimiter := DelimComma;
             hfields := None; hasLengthMarker := false |}
          (advance (newLineCursor (parsed_lines 2 ["a[-1]:"; "  - x"] 1) []))
          0 {| opt_indent := 2; opt_strict := false |}
        = OK ([], advance
                    (newLineCursor (parsed_lines 2 ["a[-1]:"; "  - x"] 1) [])))
  /\ decodeListArray strict_validators 10
       {| hkey := Some "a"; hlength := -1; hdelimiter := DelimComma;
          hfields := None; hasLengthMarker := false |}
       (advance (newLineCursor (parsed_lines 2 ["a[-1]:"; "  - x"] 1) []))
       0 {| opt_indent := 2; opt_strict := false |}
     = OK ([], advance
                 (newLineCursor (parsed_lines 2 ["a[-1]:"; "  - x"] 1) []))
  /\ (-1 < Z.of_nat (List.length (@nil JsonValue)))%Z
  /\ decode strict_validators "a[-1]:"
       {| opt_indent := 2; opt_strict := false |}
     = OK (JObject [("a", JArray [])])
  /\ decode strict_validators ("a[-1]:" ++ String NEWLINE "  - x")
       {| opt_indent := 2; opt_strict := false |}
     = OK (JObject [("a", JArray [])]).
Proof.
  split; [reflexivity|]. split.
  - intros V HV. vm_compute in HV. vm_compute. rewrite HV. reflexivity.
  - repeat split; vm_compute; reflexivity.
Qed.

(* ================================================================= *)
(** ** A single line that is a primitive *)

Local Arguments Ascii.eqb : simpl never.
Local Arguments trim : simpl never.
Local Arguments is_whitespace : simpl never.

Lemma split_lines_no_newline (s : string) :
  includes NEWLINE s = false -> split_lines s = [s].
Proof.
  induction s as [|c s IH]; [reflexivity|].
  simpl. intros H. apply orb_false_iff in H. destruct H as [Hc Hs].
  now rewrite Hc, (IH Hs).
Qed.

Lemma head_not_whitespace_facts (s : string) :
  head_not_whitespace s ->
  all_whitespace s = false
  /\ space_indent s = 0
  /\ tab_in_leading_whitespace s = false.
Proof.
  destruct s as [|c s]; [contradiction|]. simpl. intros Hc.
  assert (Hs : Ascii.eqb c SPACE = false).
  { apply Ascii.eqb_neq. intros ->. discriminate. }
  assert (Ht : Ascii.eqb c TAB = false).
  { apply Ascii.eqb_neq. intros ->. discriminate. }
  unfold space_indent, tab_in_leading_whitespace. simpl.
  now rewrite Hc, Hs, Ht.
Qed.

(** The scan of one line that starts with a character that is no white
    space: one parsed line, at depth 0, whose content is the line. *)
Lemma toParsedLines_single_line (s : string) (indentSize : nat) (strict : bool) :
  head_not_whitespace s -> includes NEWLINE s = false ->
  toParsedLines s indentSize strict
  = OK {| lines := [{| raw := s; depth := 0 / indentSize; indent := 0;
                       content := s; lineNumber := 1 |}];
          blankLines := [] |}.
Proof.
  intros Hh Hn.
  destruct (head_not_whitespace_facts s Hh) as (Hb & Hi & Ht).
  unfold toParsedLines. rewrite trim_is_empty, Hb, (split_lines_no_newline s Hn).
  simpl. fold (space_indent s). rewrite blank_content, Hb.
  unfold tab_in_leading_whitespace in Ht. rewrite Ht, Hi.
  destruct strict; reflexivity.
Qed.

(** The entry rule on such a line: when it is no array header and no
    key-value line, [decode] returns its primitive-token parse. *)
Lemma decode_single_line_primitive (V : Validators) (s : string)
    (options : ResolvedDecodeOptions) :
  head_not_whitespace s -> includes NEWLINE s = false ->
  isArrayHeaderAfterHyphen s = false ->
  (if startsWith DOUBLE_QUOTE s
   then match findClosingQuote s 0 with
        | Some i => (i + 1 <? String.length s)%nat && charAt_is (i + 1) s COLON
        | None => false
        end
   else includes COLON s) = false ->
  decode V s options
  = bind (parsePrimitiveToken (trim s)) (fun p => OK (JPrim p)).
Proof.
  intros Hh Hn Ha Hk. unfold decode.
  rewrite (toParsedLines_single_line s _ _ Hh Hn). simpl.
  unfold decodeValueFromLines, isKeyValueLine. simpl.
  rewrite Ha. simpl.
  rewrite Hk. reflexivity.
Qed.

(** *** A quoted string *)

Lemma findClosingQuote_loop_escape_char (c : ascii) (t : string) (i : nat) :
  t <> "" ->
  findClosingQuote_loop (escape_char c ++ t) i
  = findClosingQuote_loop t (i + String.length (escape_char c)).
Proof.
  intros Ht. unfold escape_char.
  destruct (Ascii.eqb_spec c BACKSLASH) as [->|Hb]; [reflexivity|].
  destruct (Ascii.eqb_spec c DOUBLE_QUOTE) as [->|Hq]; [reflexivity|].
  destruct (Ascii.eqb_spec c NEWLINE) as [->|Hn]; [reflexivity|].
  destruct (Ascii.eqb_spec c CARRIAGE_RETURN) as [->|Hr]; [reflexivity|].
  destruct (Ascii.eqb_spec c TAB) as [->|Ht']; [reflexivity|].
  apply Ascii.eqb_neq in Hb, Hq. simpl. now rewrite Hb, Hq.
Qed.

Lemma findClosingQuote_loop_escapeString (s : string) :
  forall i,
    findClosingQuote_loop (escapeString s ++ String DOUBLE_QUOTE "") i
    = Some (i + String.length (escapeString s)).
Proof.
  induction s as [|c s IH]; intros i.
  - simpl. reduce_eqb. f_equal. lia.
  - rewrite escapeString_cons, append_assoc.
    rewrite findClosingQuote_loop_escape_char.
    + rewrite IH, length_append. f_equal. lia.
    + destruct (escapeString s); discriminate.
Qed.

Lemma trimEnd_last_not_whitespace (a : string) (c : ascii) :
  is_whitespace c = false ->
  trimEnd (a ++ String c "") = (a ++ String c "")%string.
Proof.
  intros Hc. induction a as [|x a IH]; simpl.
  - now rewrite Hc.
  - rewrite IH. destruct a; simpl; now rewrite andb_false_r.
Qed.

Lemma trim_quoted (e : string) : trim (quoted e) = quoted e.
Proof.
  unfold trim, quoted.
  change (trimStart (String DOUBLE_QUOTE (e ++ String DOUBLE_QUOTE "")))
    with ((String DOUBLE_QUOTE e) ++ String DOUBLE_QUOTE "")%string.
  now apply trimEnd_last_not_whitespace.
Qed.

Lemma take_append (a b : string) : take (String.length a) (a ++ b) = a.
Proof. induction a as [|x a IH]; simpl; [now destruct b | now rewrite IH]. Qed.

Lemma length_quoted (e : string) :
  String.length (quoted e) = String.length e + 2.
Proof. unfold quoted. simpl. rewrite length_append. simpl. lia. Qed.

Lemma findClosingQuote_quoted (s : string) :
  findClosingQuote (quoted (escapeString s)) 0
  = Some (String.length (escapeString s) + 1).
Proof.
  unfold findClosingQuote, quoted.
  change (drop (0 + 1) (String DOUBLE_QUOTE
            (escapeString s ++ String DOUBLE_QUOTE "")))
    with (escapeString s ++ String DOUBLE_QUOTE "")%string.
  rewrite findClosingQuote_loop_escapeString. f_equal. lia.
Qed.

Lemma slice_quoted (e : string) :
  slice 1 (String.length e + 1) (quoted e) = e.
Proof.
  unfold slice, quoted.
  replace (String.length e + 1 - 1) with (String.length e) by lia.
  change (drop 1 (String DOUBLE_QUOTE (e ++ String DOUBLE_QUOTE "")))
    with (e ++ String DOUBLE_QUOTE "")%string.
  apply take_append.
Qed.

Lemma parseStringLiteral_quoted (s : string) :
  parseStringLiteral (quoted (escapeString s)) = OK s.
Proof.
  unfold parseStringLiteral. rewrite trim_quoted.
  change (startsWith DOUBLE_QUOTE (quoted (escapeString s))) with true.
  cbv iota. rewrite findClosingQuote_quoted, length_quoted.
  replace (String.length (escapeString s) + 1
           =? String.length (escapeString s) + 2 - 1)%nat with true
    by (symmetry; apply Nat.eqb_eq; lia).
  cbn [negb]. cbv iota.
  rewrite slice_quoted. apply unescapeString_escapeString.
Qed.

Lemma includes_quoted_escapeString (s : string) :
  includes NEWLINE (quoted (escapeString s)) = false.
Proof.
  unfold quoted. simpl. reduce_eqb. simpl.
  rewrite includes_append, includes_escapeString by auto. reflexivity.
Qed.

(** [decode] reads a quoted string back, whatever the string. *)
Lemma decode_quoted_string (V : Validators) (s : string)
    (options : ResolvedDecodeOptions) :
  decode V (quoted (escapeString s)) options = OK (JPrim (PString s)).
Proof.
  rewrite decode_single_line_primitive.
  - rewrite trim_quoted. unfold parsePrimitiveToken. rewrite trim_quoted.
    change (is_empty (quoted (escapeString s))) with false.
    change (startsWith DOUBLE_QUOTE (quoted (escapeString s))) with true.
    cbv iota. now rewrite parseStringLiteral_quoted.
  - reflexivity.
  - apply includes_quoted_escapeString.
  - unfold isArrayHeaderAfterHyphen. now rewrite trim_quoted.
  - change (startsWith DOUBLE_QUOTE (quoted (escapeString s))) with true.
    cbv iota. rewrite findClosingQuote_quoted, length_quoted.
    replace (String.length (escapeString s) + 1 + 1
             <? String.length (escapeString s) + 2)%nat with false
      by (symmetry; apply Nat.ltb_ge; lia).
    reflexivity.
Qed.

(** *** A string without quotes *)

Lemma includes_any_head (p : ascii -> bool) (c : ascii) (s : string) :
  includes_any p (String c s) = false -> p c = false.
Proof. simpl. intros H. now apply orb_false_iff in H. Qed.

Lemma includes_head (x c : ascii) (s : string) :
  includes x (String c s) = false -> Ascii.eqb c x = false.
Proof. simpl. intros H. now apply orb_false_iff in H. Qed.

Lemma trim_fixed_head (s : string) :
  s <> "" -> trim s = s -> head_not_whitespace s.
Proof.
  intros Hne Ht. pose proof (trimEnd_head _ (trimStart_head s)) as H.
  fold (trim s) in H. rewrite Ht in H.
  destruct s; [contradiction | exact H].
Qed.

(** What [isSafeUnquoted] says about a string. *)
Lemma isSafeUnquoted_facts (s : string) (d : ascii) :
  isSafeUnquoted s d = true ->
  s <> "" /\ trim s = s /\ isBooleanOrNullLiteral s = false
  /\ includes COLON s = false /\ includes DOUBLE_QUOTE s = false
  /\ includes_any (fun c => Ascii.eqb c "[" || Ascii.eqb c "]"
                            || Ascii.eqb c "{" || Ascii.eqb c "}") s = false
  /\ includes NEWLINE s = false.
Proof.
  unfold isSafeUnquoted.
  destruct s as [|c s]; [discriminate|]. cbn [is_empty].
  destruct (String.eqb_spec (String c s) (trim (String c s))) as [Ht|];
    [|discriminate]. cbn [negb].
  destruct (isBooleanOrNullLiteral (String c s)); [discriminate|].
  destruct (isNumericLike (String c s)); [discriminate|]. cbn [orb].
  change (includes ":" (String c s)) with (includes COLON (String c s)).
  destruct (includes COLON (String c s)); [discriminate|].
  destruct (includes DOUBLE_QUOTE (String c s)); [discriminate|].
  destruct (includes BACKSLASH (String c s)); [discriminate|]. cbn [orb].
  destruct (includes_any _ (String c s)); [discriminate|].
  destruct (includes_any _ (String c s)) eqn:Hctl; [discriminate|].
  intros _. repeat split; try congruence.
  clear - Hctl. induction (String c s) as [|x r IH]; [reflexivity|].
  simpl in *. apply orb_false_iff in Hctl. destruct Hctl as [Hx Hr].
  apply orb_false_iff in Hx. destruct Hx as [Hx _].
  apply orb_false_iff in Hx. destruct Hx as [Hx _].
  now rewrite Hx, (IH Hr).
Qed.

(** [decode] reads a string that [encodeStringLiteral] left without quotes
    as a number when [isNumericLiteral] accepts it, and as the string
    otherwise. *)
Lemma decode_unquoted_string (V : Validators) (s : string) (d : ascii)
    (options : ResolvedDecodeOptions) :
  isSafeUnquoted s d = true ->
  decode V s options
  = OK (JPrim (if isNumericLiteral s then PNumber (parseFloat s)
               else PString s)).
Proof.
  intros Hsafe.
  destruct (isSafeUnquoted_facts s d Hsafe)
    as (Hne & Ht & Hlit & Hcolon & Hq & Hbr & Hnl).
  assert (Hsq : startsWith DOUBLE_QUOTE s = false).
  { destruct s as [|c s]; [reflexivity|]. exact (includes_head _ _ _ Hq). }
  rewrite decode_single_line_primitive.
  - rewrite Ht, (parsePrimitiveToken_token s Ht Hne Hsq Hlit). reflexivity.
  - now apply trim_fixed_head.
  - exact Hnl.
  - unfold isArrayHeaderAfterHyphen. rewrite Ht.
    destruct s as [|c s]; [reflexivity|].
    apply includes_any_head in Hbr. simpl.
    apply orb_false_iff in Hbr. destruct Hbr as [Hbr _].
    apply orb_false_iff in Hbr. destruct Hbr as [Hbr _].
    apply orb_false_iff in Hbr. destruct Hbr as [Hbr _].
    unfold OPEN_BRACKET. now rewrite Hbr.
  - now rewrite Hsq.
Qed.

(** Encoding a string at the root and decoding the text: the string comes
    back unless it was written without quotes and reads as a number. *)
Theorem encode_decode_root_string
    (numberToString : number -> string)
    (encodeNonInlineArray :
       option string -> list JsonValue -> nat -> ResolvedEncodeOptions
       -> list string)
    (V : Validators) (s : string) (eo : ResolvedEncodeOptions)
    (options : ResolvedDecodeOptions) :
  decode V (encode numberToString encodeNonInlineArray (JPrim (PString s)) eo)
    options
  = OK (JPrim (if isSafeUnquoted s (delimiter_char (enc_delimiter eo))
                  && isNumericLiteral s
               then PNumber (parseFloat s) else PString s)).
Proof.
  unfold encode, encodeValue, encodePrimitive, encodeStringLiteral.
  destruct (isSafeUnquoted s (delimiter_char (enc_delimiter eo))) eqn:Hsafe.
  - simpl.
    exact (decode_unquoted_string V s (delimiter_char (enc_delimiter eo))
             options Hsafe).
  - simpl. apply decode_quoted_string.
Qed.

(* ================================================================= *)
(** ** decode/decoders.ts: the entry rule *)

(** C5 fails on the code. The input [a "b:c"] is one line, is no array
    header and has its only colon inside quotes; its primitive-token parse
    is the string itself.  [isKeyValueLine] looks for any colon in a line
    that does not start with a quote, so [decode] returns an object. *)
Theorem single_line_with_quoted_colon :
  (exists sr l,
     toParsedLines ("a " ++ quoted "b:c") 2 true = OK sr
     /\ lines sr = [l] /\ content l = ("a " ++ quoted "b:c")%string)
  /\ findUnquotedChar ("a " ++ quoted "b:c") COLON 0 = None
  /\ isArrayHeaderAfterHyphen ("a " ++ quoted "b:c") = false
  /\ parsePrimitiveToken (trim ("a " ++ quoted "b:c"))
     = OK (PString ("a " ++ quoted "b:c"))
  /\ forall V,
       decode V ("a " ++ quoted "b:c") (resolveDecodeOptions None None)
       = OK (JObject [(("a " ++ String DOUBLE_QUOTE "b")%string,
                       JPrim (PString (String "c" (String DOUBLE_QUOTE ""))))]).
Proof.
  split; [eexists; eexists; repeat split|].
  repeat split; intros; reflexivity.
Qed.

(* ================================================================= *)
(** ** index.ts: encoding and decoding again *)

(** C1 fails on the code. The string [.5] is no number for [isNumericLike],
    so [encodeStringLiteral] writes it without quotes, and it is a number for
    [isNumericLiteral], so [decode] reads the number 0.5.  And
    [formatHeader] writes a key that needs quotes in front of the bracket
    segment, which [parseArrayHeaderLine] refuses to read as a header. *)
Theorem encode_decode_not_identity :
  forall (numberToString : number -> string)
         (encodeNonInlineArray :
            option string -> list JsonValue -> nat -> ResolvedEncodeOptions
            -> list string)
         (V : Validators),
    isSafeUnquoted ".5" COMMA = true
    /\ isNumericLiteral ".5" = true
    /\ encode numberToString encodeNonInlineArray (JPrim (PString ".5"))
         (resolveOptions None None None) = ".5"
    /\ decode V ".5" (resolveDecodeOptions (Some 2) (Some true))
       = OK (JPrim (PNumber (Finite false 5 (-1))))
    /\ encode numberToString encodeNonInlineArray
         (JObject [("a b", JArray [JPrim (PBoolean true)])])
         (resolveOptions None None None)
       = (quoted "a b" ++ "[1]: true")%string
    /\ decode V (quoted "a b" ++ "[1]: true")
         (resolveDecodeOptions (Some 2) (Some true))
       = Err SyntaxError_AfterClosingQuote.
Proof. intros. repeat split; reflexivity. Qed.

(* ================================================================= *)
(** * Further properties *)

(** ** shared/string-utils.ts: escaping and the two searches *)

Lemma escape_char_plain (c : ascii) :
  needs_escape c = false -> escape_char c = String c "".
Proof.
  unfold needs_escape, escape_char. intros H.
  repeat (apply orb_false_elim in H; destruct H as [H ?]).
  now rewrite H, H3, H2, H1, H0.
Qed.

Lemma escape_char_length (c : ascii) :
  String.length (escape_char c) = if needs_escape c then 2 else 1.
Proof.
  unfold needs_escape, escape_char.
  destruct (Ascii.eqb c BACKSLASH); [reflexivity|].
  destruct (Ascii.eqb c DOUBLE_QUOTE); [reflexivity|].
  destruct (Ascii.eqb c NEWLINE); [reflexivity|].
  destruct (Ascii.eqb c CARRIAGE_RETURN); [reflexivity|].
  destruct (Ascii.eqb c TAB); reflexivity.
Qed.

Lemma escapeString_length (s : string) :
  String.length s <= String.length (escapeString s).
Proof.
  induction s as [|c s IH]; [apply Nat.le_refl|].
  rewrite escapeString_cons, length_append, escape_char_length. simpl.
  destruct (needs_escape c); lia.
Qed.

Lemma escapeString_append (a b : string) :
  escapeString (a ++ b) = (escapeString a ++ escapeString b)%string.
Proof.
  induction a as [|c a IH]; [reflexivity|].
  simpl. now rewrite !escapeString_cons, IH, append_assoc.
Qed.

(** X1. [escapeString] leaves a string as it is exactly when the string has
    none of the five characters that it rewrites, and it never shortens a
    string. *)
Theorem escapeString_fixed_point (s : string) :
  (escapeString s = s <-> includes_any needs_escape s = false)
  /\ String.length s <= String.length (escapeString s).
Proof.
  split; [|apply escapeString_length].
  induction s as [|c s IH]; [simpl; tauto|].
  rewrite escapeString_cons. simpl.
  destruct (needs_escape c) eqn:Hc; simpl.
  - split; [|discriminate].
    intros H. apply (f_equal String.length) in H.
    rewrite length_append, escape_char_length, Hc in H. simpl in H.
    pose proof (escapeString_length s). lia.
  - rewrite (escape_char_plain c Hc). simpl. rewrite <- IH.
    split; [now intros [= ->] | now intros ->].
Qed.

(** X2. [escapeString] works character by character: the escaped text of a
    concatenation is the concatenation of the escaped texts; and two
    different strings never have the same escaped text. *)
Theorem escapeString_concat_injective :
  (forall a b : string,
     escapeString (a ++ b) = (escapeString a ++ escapeString b)%string)
  /\ (forall a b : string, escapeString a = escapeString b -> a = b).
Proof.
  split; [apply escapeString_append|].
  intros a b H.
  pose proof (unescapeString_escapeString a) as Ha.
  rewrite H, unescapeString_escapeString in Ha. now injection Ha.
Qed.

Lemma unescapeString_length (s : string) :
  forall t,
    unescapeString s = OK t ->
    String.length t <= String.length s
    /\ (includes BACKSLASH s = true -> String.length t < String.length s).
Proof.
  induction s as [s IH] using string_len_ind. intros t H.
  destruct s as [|c rest]; [injection H as <-; simpl; split; [lia|discriminate]|].
  simpl in H. simpl includes.
  destruct (Ascii.eqb c BACKSLASH) eqn:Hc; simpl.
  - destruct rest as [|next rest']; [discriminate|].
    assert (Hrec : forall x, (r <- unescapeString rest' ;; OK (String x r)) = OK t ->
                   String.length t <= S (S (String.length rest'))
                   /\ (true = true -> String.length t < S (S (String.length rest')))).
    { intros x Hx. destruct (unescapeString rest') as [r|] eqn:Hr; [|discriminate].
      injection Hx as <-. destruct (IH rest' ltac:(simpl; lia) r Hr) as [Hle _].
      simpl. split; [lia|intros _; lia]. }
    destruct (Ascii.eqb next "n"); [now apply Hrec in H|].
    destruct (Ascii.eqb next "t"); [now apply Hrec in H|].
    destruct (Ascii.eqb next "r"); [now apply Hrec in H|].
    destruct (Ascii.eqb next BACKSLASH); [now apply Hrec in H|].
    destruct (Ascii.eqb next DOUBLE_QUOTE); [now apply Hrec in H|].
    discriminate.
  - destruct (unescapeString rest) as [r|] eqn:Hr; [|discriminate].
    injection H as <-. destruct (IH rest ltac:(simpl; lia) r Hr) as [Hle Hlt].
    simpl. split; [lia|]. intros Hb. specialize (Hlt Hb). lia.
Qed.

Lemma unescapeString_plain (s : string) :
  includes BACKSLASH s = false -> unescapeString s = OK s.
Proof.
  induction s as [|c s IH]; [reflexivity|].
  simpl. intros H. apply orb_false_elim in H. destruct H as [Hc Hs].
  now rewrite Hc, (IH Hs).
Qed.

(** X3. [unescapeString] returns its argument unchanged exactly when the
    argument has no backslash, and what it returns is never longer than
    its argument. *)
Theorem unescapeString_fixed_point (s : string) :
  (unescapeString s = OK s <-> includes BACKSLASH s = false)
  /\ (forall t, unescapeString s = OK t -> String.length t <= String.length s).
Proof.
  split.
  - split; [|apply unescapeString_plain].
    intros H. destruct (includes BACKSLASH s) eqn:Hb; [|reflexivity].
    destruct (unescapeString_length s s H) as [_ Hlt].
    specialize (Hlt Hb). lia.
  - intros t H. now apply unescapeString_length.
Qed.

Lemma get_drop (m : nat) (s : string) (n : nat) :
  String.get n (drop m s) = String.get (m + n) s.
Proof.
  revert s. induction m as [|m IH]; intros s; [reflexivity|].
  destruct s as [|c s]; [now destruct n|]. simpl. apply IH.
Qed.

Lemma length_drop (m : nat) (s : string) :
  String.length (drop m s) = String.length s - m.
Proof.
  revert s. induction m as [|m IH]; intros s; [simpl; lia|].
  destruct s as [|c s]; [reflexivity|]. simpl. apply IH.
Qed.

Lemma includes_drop (c : ascii) (m : nat) (s : string) :
  includes c s = false -> includes c (drop m s) = false.
Proof.
  revert s. induction m as [|m IH]; intros s H; [exact H|].
  destruct s as [|x s]; [reflexivity|]. simpl in *.
  apply orb_false_elim in H. now apply IH.
Qed.

Lemma findClosingQuote_loop_sound (s : string) :
  forall i k,
    findClosingQuote_loop s i = Some k ->
    i <= k /\ k < i + String.length s
    /\ String.get (k - i) s = Some DOUBLE_QUOTE.
Proof.
  induction s as [s IH] using string_len_ind. intros i k H.
  destruct s as [|c rest]; [discriminate|]. simpl in H.
  destruct (Ascii.eqb c BACKSLASH) eqn:Hb.
  - destruct rest as [|x rest']; [discriminate|].
    destruct (IH rest' ltac:(simpl; lia) _ _ H) as (H1 & H2 & H3).
    simpl. repeat split; [lia|lia|].
    replace (k - i) with (S (S (k - (i + 2)))) by lia. exact H3.
  - destruct (Ascii.eqb_spec c DOUBLE_QUOTE) as [->|Hq].
    + injection H as <-. simpl. rewrite Nat.sub_diag. repeat split; lia || reflexivity.
    + destruct (IH rest ltac:(simpl; lia) _ _ H) as (H1 & H2 & H3).
      simpl. repeat split; [lia|lia|].
      replace (k - i) with (S (k - (i + 1))) by lia. exact H3.
Qed.

Lemma findClosingQuote_loop_plain (s : string) :
  forall i,
    includes BACKSLASH s = false ->
    findClosingQuote_loop s i = indexOf_aux DOUBLE_QUOTE s i.
Proof.
  induction s as [|c s IH]; intros i H; [reflexivity|].
  simpl in *. apply orb_false_elim in H. destruct H as [Hc Hs].
  rewrite Hc. destruct (Ascii.eqb c DOUBLE_QUOTE); [reflexivity|].
  rewrite Nat.add_1_r. now apply IH.
Qed.

Lemma findClosingQuote_sound_lemma (content : string) (start i : nat) :
  findClosingQuote content start = Some i ->
  start < i /\ i < String.length content
  /\ String.get i content = Some DOUBLE_QUOTE.
Proof.
  unfold findClosingQuote. intros H. apply findClosingQuote_loop_sound in H.
  destruct H as (H1 & H2 & H3).
  rewrite length_drop in H2. rewrite get_drop in H3.
  replace (start + 1 + (i - (start + 1))) with i in H3 by lia.
  repeat split; [lia|lia|exact H3].
Qed.

(** X4. An index that [findClosingQuote] returns lies after [start] and
    inside the content, and the character there is a double quote; in a
    content without backslash it is the first double quote after [start]. *)
Theorem findClosingQuote_sound (content : string) (start : nat) :
  (forall i,
     findClosingQuote content start = Some i ->
     start < i /\ i < String.length content
     /\ String.get i content = Some DOUBLE_QUOTE)
  /\ (includes BACKSLASH content = false ->
      findClosingQuote content start
      = indexOf DOUBLE_QUOTE (start + 1) content).
Proof.
  split; [apply findClosingQuote_sound_lemma|].
  unfold findClosingQuote, indexOf.
  intros H. apply findClosingQuote_loop_plain. now apply includes_drop.
Qed.

Lemma findClosingQuote_sound_witness :
  findClosingQuote ("k" ++ quoted "a\" ++ quoted "b") 1 = Some 5
  /\ String.get 5 ("k" ++ quoted "a\" ++ quoted "b") = Some DOUBLE_QUOTE.
Proof.
  destruct (findClosingQuote_sound ("k" ++ quoted "a\" ++ quoted "b") 1)
    as [H _].
  split; [reflexivity|]. exact (proj2 (proj2 (H 5 eq_refl))).
Defined.

Lemma findUnquotedChar_loop_sound (s : string) (c : ascii) :
  forall q i k,
    findUnquotedChar_loop s c q i = Some k ->
    i <= k /\ k < i + String.length s /\ String.get (k - i) s = Some c.
Proof.
  induction s as [s IH] using string_len_ind. intros q i k H.
  destruct s as [|x rest]; [discriminate|].
  assert (Hfall :
    (if Ascii.eqb x DOUBLE_QUOTE
     then findUnquotedChar_loop rest c (negb q) (i + 1)
     else if Ascii.eqb x c && negb q then Some i
          else findUnquotedChar_loop rest c q (i + 1)) = Some k ->
    i <= k /\ k < i + String.length (String x rest)
    /\ String.get (k - i) (String x rest) = Some c).
  { intros Hf. destruct (Ascii.eqb x DOUBLE_QUOTE).
    - destruct (IH rest ltac:(simpl; lia) _ _ _ Hf) as (H1 & H2 & H3).
      simpl. repeat split; [lia|lia|].
      replace (k - i) with (S (k - (i + 1))) by lia. exact H3.
    - destruct (Ascii.eqb_spec x c) as [->|Hx]; simpl in Hf.
      + destruct q; simpl in Hf.
        * destruct (IH rest ltac:(simpl; lia) _ _ _ Hf) as (H1 & H2 & H3).
          simpl. repeat split; [lia|lia|].
          replace (k - i) with (S (k - (i + 1))) by lia. exact H3.
        * injection Hf as <-. simpl. rewrite Nat.sub_diag.
          repeat split; lia || reflexivity.
      + destruct (IH rest ltac:(simpl; lia) _ _ _ Hf) as (H1 & H2 & H3).
        simpl. repeat split; [lia|lia|].
        replace (k - i) with (S (k - (i + 1))) by lia. exact H3. }
  simpl in H.
  destruct (Ascii.eqb x BACKSLASH && q); [|exact (Hfall H)].
  destruct rest as [|y rest']; [exact (Hfall H)|].
  destruct (IH rest' ltac:(simpl; lia) _ _ _ H) as (H1 & H2 & H3).
  simpl. repeat split; [lia|lia|].
  replace (k - i) with (S (S (k - (i + 2)))) by lia. exact H3.
Qed.

Lemma findUnquotedChar_loop_plain (s : string) (c : ascii) :
  forall i,
    includes DOUBLE_QUOTE s = false ->
    findUnquotedChar_loop s c false i = indexOf_aux c s i.
Proof.
  induction s as [|x s IH]; intros i H; [reflexivity|].
  simpl in *. apply orb_false_elim in H. destruct H as [Hx Hs].
  rewrite andb_false_r, Hx, andb_true_r.
  destruct (Ascii.eqb x c); [reflexivity|].
  rewrite Nat.add_1_r. now apply IH.
Qed.

(** X5. An index that [findUnquotedChar] returns lies at or after [start]
    and inside the content, and the character there is the one looked for;
    in a content without double quote it is the first occurrence at or
    after [start], as [indexOf] gives it. *)
Theorem findUnquotedChar_sound (content : string) (char : ascii) (start : nat) :
  (forall i,
     findUnquotedChar content char start = Some i ->
     start <= i /\ i < String.length content
     /\ String.get i content = Some char)
  /\ (includes DOUBLE_QUOTE content = false ->
      findUnquotedChar content char start = indexOf char start content).
Proof.
  unfold findUnquotedChar, indexOf. split.
  - intros i H. apply findUnquotedChar_loop_sound in H.
    destruct H as (H1 & H2 & H3).
    rewrite length_drop in H2. rewrite get_drop in H3.
    replace (start + (i - start)) with i in H3 by lia.
    repeat split; [lia|lia|exact H3].
  - intros H. apply findUnquotedChar_loop_plain. now apply includes_drop.
Qed.

Lemma findUnquotedChar_sound_witness :
  findUnquotedChar (quoted "a:b" ++ ": c") COLON 0 = Some 5
  /\ String.get 5 (quoted "a:b" ++ ": c") = Some COLON.
Proof.
  destruct (findUnquotedChar_sound (quoted "a:b" ++ ": c") COLON 0) as [H _].
  split; [reflexivity|]. exact (proj2 (proj2 (H 5 eq_refl))).
Defined.

(* ================================================================= *)
(** ** Regular expressions: the test computes the language *)

Lemma append_eq_nil (s t : string) : (s ++ t)%string = "" -> s = "" /\ t = "".
Proof. destruct s; simpl; [intros ->; now split | discriminate]. Qed.

Lemma nullable_matches (r : regex) : nullable r = true <-> matches r "".
Proof.
  induction r as [| |p|a IHa b IHb|a IHa b IHb|a IHa]; simpl.
  - split; [discriminate | intros H; inversion H].
  - split; [constructor | reflexivity].
  - split; [discriminate | intros H; inversion H].
  - rewrite andb_true_iff, IHa, IHb. split.
    + intros [H1 H2]. change "" with ("" ++ "")%string. now constructor.
    + intros H. inversion H as [| |a' b' s t H1 H2 E1 E2| | | |]; subst.
      apply append_eq_nil in E2. destruct E2 as [-> ->]. now split.
  - rewrite orb_true_iff, IHa, IHb. split.
    + intros [H|H]; [now apply matches_alt_l | now apply matches_alt_r].
    + intros H. inversion H; subst; [now left | now right].
  - split; [constructor | reflexivity].
Qed.

Lemma deriv_sound (c : ascii) (r : regex) :
  forall s, matches (deriv c r) s -> matches r (String c s).
Proof.
  induction r as [| |p|a IHa b IHb|a IHa b IHb|a IHa]; simpl; intros s H.
  - inversion H.
  - inversion H.
  - destruct (p c) eqn:Hp; inversion H; subst. now constructor.
  - assert (Hleft : forall u, matches (RSeq (deriv c a) b) u ->
                              matches (RSeq a b) (String c u)).
    { intros u Hu. inversion Hu as [| |a' b' s1 s2 H1 H2 E1 E2| | | |]; subst.
      change (String c (s1 ++ s2)) with (String c s1 ++ s2)%string.
      constructor; [now apply IHa | assumption]. }
    destruct (nullable a) eqn:Hn; [|now apply Hleft].
    inversion H; subst; [now apply Hleft|].
    change (String c s) with ("" ++ String c s)%string.
    constructor; [now apply nullable_matches | now apply IHb].
  - inversion H; subst;
      [apply matches_alt_l; now apply IHa | apply matches_alt_r; now apply IHb].
  - inversion H as [| |a' b' s1 s2 H1 H2 E1 E2| | | |]; subst.
    change (String c (s1 ++ s2)) with (String c s1 ++ s2)%string.
    constructor; [now apply IHa | assumption].
Qed.

Lemma deriv_complete (c : ascii) (r : regex) (t : string) :
  matches r t -> forall s, t = String c s -> matches (deriv c r) s.
Proof.
  induction 1 as [|p x Hp|a b s1 s2 H1 IH1 H2 IH2|a b s1 H1 IH1|a b s1 H1 IH1
                  |a|a s1 s2 H1 IH1 H2 IH2]; intros s E; simpl.
  - discriminate.
  - injection E as -> <-. rewrite Hp. constructor.
  - destruct s1 as [|x s1'].
    + simpl in E. apply nullable_matches in H1. rewrite H1.
      apply matches_alt_r. now apply IH2.
    + simpl in E. injection E as -> <-.
      assert (matches (RSeq (deriv c a) b) (s1' ++ s2)) as Hs
          by (constructor; [now apply IH1 | assumption]).
      destruct (nullable a); [now apply matches_alt_l | assumption].
  - apply matches_alt_l. now apply IH1.
  - apply matches_alt_r. now apply IH1.
  - discriminate.
  - destruct s1 as [|x s1'].
    + simpl in E. now apply IH2.
    + simpl in E. injection E as -> <-.
      constructor; [now apply IH1 | assumption].
Qed.

Lemma regex_test_matches (r : regex) (s : string) :
  regex_test r s = true <-> matches r s.
Proof.
  revert r. induction s as [|c s IH]; intros r; simpl.
  - apply nullable_matches.
  - rewrite IH. split; [apply deriv_sound|].
    intros H. now apply (deriv_complete c r (String c s)).
Qed.

Lemma matches_star_class (q : ascii -> bool) (s : string) :
  matches (RStar (RClass q)) s <-> all_chars q s = true.
Proof.
  split.
  - intros H. remember (RStar (RClass q)) as r eqn:Er.
    induction H as [| | | | | |a s1 s2 H1 _ H2 IH2]; try discriminate;
      [reflexivity|].
    injection Er as ->. inversion H1; subst. simpl.
    rewrite H0. now apply IH2.
  - induction s as [|c s IH]; simpl; intros H; [constructor|].
    apply andb_true_iff in H. destruct H as [Hc Hs].
    change (String c s) with (String c "" ++ s)%string.
    constructor; [now constructor | now apply IH].
Qed.

(* ================================================================= *)
(** ** shared/validation.ts: unquoted keys *)

Lemma matches_unquoted_key (k : string) :
  matches re_unquoted_key k
  <-> exists c r, k = String c r /\ is_key_start c = true
                  /\ all_chars is_key_char r = true.
Proof.
  unfold re_unquoted_key. split.
  - intros H. inversion H as [| |a b s t H1 H2 E1 E2| | | |]; subst.
    inversion H1; subst. apply matches_star_class in H2.
    exists c, t. repeat split; assumption.
  - intros (c & r & -> & Hc & Hr).
    change (String c r) with (String c "" ++ r)%string.
    constructor; [now constructor | now apply matches_star_class].
Qed.

Lemma isValidUnquotedKey_spec (k : string) :
  isValidUnquotedKey k
  = match k with
    | String c r => is_key_start c && all_chars is_key_char r
    | EmptyString => false
    end.
Proof.
  unfold isValidUnquotedKey.
  destruct (regex_test re_unquoted_key k) eqn:H.
  - apply regex_test_matches, matches_unquoted_key in H.
    destruct H as (c & r & -> & Hc & Hr). now rewrite Hc, Hr.
  - destruct k as [|c r]; [reflexivity|].
    destruct (is_key_start c && all_chars is_key_char r) eqn:E; [|reflexivity].
    apply andb_true_iff in E. destruct E as [Hc Hr].
    assert (regex_test re_unquoted_key (String c r) = true) as Ht.
    { apply regex_test_matches, matches_unquoted_key. now exists c, r. }
    congruence.
Qed.

(** X6. [isValidUnquotedKey] accepts exactly the keys whose first character
    is a letter or an underscore and whose other characters are letters,
    digits, underscores or dots; the empty key is not one of them. *)
Theorem isValidUnquotedKey_chars (k : string) :
  isValidUnquotedKey k
  = match k with
    | String c r => is_key_start c && all_chars is_key_char r
    | EmptyString => false
    end.
Proof. exact (isValidUnquotedKey_spec k). Qed.

Lemma all_chars_includes (p : ascii -> bool) (x : ascii) (s : string) :
  p x = false -> all_chars p s = true -> includes x s = false.
Proof.
  intros Hx. induction s as [|c s IH]; simpl; [reflexivity|].
  intros H. apply andb_true_iff in H. destruct H as [Hc Hs].
  rewrite (IH Hs), orb_false_r.
  destruct (Ascii.eqb_spec c x) as [->|]; [congruence | reflexivity].
Qed.

Lemma all_chars_impl (p q : ascii -> bool) (s : string) :
  (forall c, p c = true -> q c = true) ->
  all_chars p s = true -> all_chars q s = true.
Proof.
  intros Hpq. induction s as [|c s IH]; simpl; [reflexivity|].
  intros H. apply andb_true_iff in H. destruct H as [Hc Hs].
  now rewrite (Hpq c Hc), (IH Hs).
Qed.

Lemma is_key_char_not_whitespace (c : ascii) :
  is_key_char c = true -> is_whitespace c = false.
Proof.
  destruct c as [[] [] [] [] [] [] [] []]; vm_compute; congruence.
Qed.

Lemma is_key_start_key_char (c : ascii) :
  is_key_start c = true -> is_key_char c = true.
Proof.
  unfold is_key_start, is_key_char, is_word. intros H.
  apply orb_true_iff in H. destruct H as [H| ->];
    [|now rewrite !orb_true_r].
  apply orb_true_iff in H. destruct H as [-> | ->];
    [reflexivity | now rewrite orb_true_r].
Qed.

Lemma trimEnd_no_whitespace (s : string) :
  all_chars (fun c => negb (is_whitespace c)) s = true -> trimEnd s = s.
Proof.
  induction s as [|c s IH]; simpl; [reflexivity|].
  intros H. apply andb_true_iff in H. destruct H as [Hc Hs].
  apply negb_true_iff in Hc. now rewrite (IH Hs), Hc.
Qed.

Lemma trim_no_whitespace (s : string) :
  all_chars (fun c => negb (is_whitespace c)) s = true -> trim s = s.
Proof.
  intros H. unfold trim. rewrite trimStart_no_leading.
  - now apply trimEnd_no_whitespace.
  - destruct s as [|c s]; [exact I|]. simpl in H.
    apply andb_true_iff in H. now apply negb_true_iff.
Qed.

(** What a valid unquoted key is made of. *)
Lemma valid_key_facts (k : string) :
  isValidUnquotedKey k = true ->
  all_chars is_key_char k = true /\ trim k = k
  /\ exists c r, k = String c r /\ is_key_start c = true.
Proof.
  rewrite isValidUnquotedKey_spec. destruct k as [|c r]; [discriminate|].
  intros H. apply andb_true_iff in H. destruct H as [Hc Hr].
  assert (all_chars is_key_char (String c r) = true) as Hall
      by (simpl; now rewrite (is_key_start_key_char c Hc), Hr).
  split; [exact Hall|]. split; [|now exists c, r].
  apply trim_no_whitespace. revert Hall. apply all_chars_impl.
  intros x Hx. now rewrite (is_key_char_not_whitespace x Hx).
Qed.

Lemma valid_key_excludes (k : string) (x : ascii) :
  isValidUnquotedKey k = true -> is_key_char x = false ->
  includes x k = false.
Proof.
  intros Hk Hx. apply (all_chars_includes is_key_char); [exact Hx|].
  now apply valid_key_facts.
Qed.

Lemma indexOf_aux_append (c : ascii) (a b : string) :
  forall i,
    includes c a = false ->
    indexOf_aux c (a ++ b) i = indexOf_aux c b (i + String.length a).
Proof.
  induction a as [|x a IH]; intros i H; simpl.
  - now rewrite Nat.add_0_r.
  - simpl in H. apply orb_false_elim in H. destruct H as [Hx Ha].
    rewrite Hx, (IH _ Ha). f_equal. lia.
Qed.

Lemma indexOf_aux_here (c : ascii) (b : string) (i : nat) :
  indexOf_aux c (String c b) i = Some i.
Proof. simpl. now rewrite Ascii.eqb_refl. Qed.

Lemma drop_append (a b : string) : drop (String.length a) (a ++ b) = b.
Proof. induction a as [|x a IH]; [reflexivity | exact IH]. Qed.

Lemma get_append_here (a : string) (c : ascii) (b : string) :
  String.get (String.length a) (a ++ String c b) = Some c.
Proof. induction a as [|x a IH]; [reflexivity | exact IH]. Qed.

Lemma findClosingQuote_loop_escaped (s tail : string) :
  forall i,
    findClosingQuote_loop (escapeString s ++ String DOUBLE_QUOTE tail) i
    = Some (i + String.length (escapeString s)).
Proof.
  induction s as [|c s IH]; intros i.
  - simpl. reduce_eqb. f_equal. lia.
  - rewrite escapeString_cons, append_assoc.
    rewrite findClosingQuote_loop_escape_char.
    + rewrite IH, length_append. f_equal. lia.
    + destruct (escapeString s); discriminate.
Qed.

Lemma quoted_append (e tail : string) :
  (quoted e ++ tail)%string
  = String DOUBLE_QUOTE (e ++ String DOUBLE_QUOTE tail).
Proof. unfold quoted. simpl. now rewrite append_assoc. Qed.

Lemma findClosingQuote_quoted_append (s tail : string) :
  findClosingQuote (quoted (escapeString s) ++ tail) 0
  = Some (String.length (escapeString s) + 1).
Proof.
  rewrite quoted_append. unfold findClosingQuote.
  change (drop (0 + 1) (String DOUBLE_QUOTE
            (escapeString s ++ String DOUBLE_QUOTE tail)))
    with (escapeString s ++ String DOUBLE_QUOTE tail)%string.
  rewrite findClosingQuote_loop_escaped. f_equal. lia.
Qed.

(* ================================================================= *)
(** ** encode/primitives.ts and decode/parser.ts: keys *)

Lemma parseKeyToken_unquoted (k rest : string) :
  isValidUnquotedKey k = true ->
  parseKeyToken (k ++ String COLON rest) 0 = OK (k, String.length k + 1).
Proof.
  intros Hk. destruct (valid_key_facts k Hk) as (Hall & Htrim & c & r & -> & Hc).
  unfold parseKeyToken.
  assert (charAt_is 0 (String c r ++ String COLON rest) DOUBLE_QUOTE = false)
    as ->.
  { unfold charAt_is. simpl.
    destruct (Ascii.eqb_spec c DOUBLE_QUOTE) as [->|]; [|reflexivity].
    apply is_key_start_key_char in Hc. discriminate Hc. }
  unfold parseUnquotedKey, indexOf.
  change (drop 0 (String c r ++ String COLON rest))
    with (String c r ++ String COLON rest)%string.
  rewrite indexOf_aux_append
    by (apply (all_chars_includes is_key_char); [reflexivity | exact Hall]).
  rewrite indexOf_aux_here. cbn [Nat.add].
  unfold slice. rewrite Nat.sub_0_r.
  change (drop 0 (String c r ++ String COLON rest))
    with (String c r ++ String COLON rest)%string.
  now rewrite take_append, Htrim.
Qed.

Lemma parseKeyToken_quoted (k rest : string) :
  parseKeyToken (quoted (escapeString k) ++ String COLON rest) 0
  = OK (k, String.length (quoted (escapeString k)) + 1).
Proof.
  unfold parseKeyToken.
  assert (charAt_is 0 (quoted (escapeString k) ++ String COLON rest)
            DOUBLE_QUOTE = true) as -> by reflexivity.
  unfold parseQuotedKey. rewrite findClosingQuote_quoted_append.
  assert (slice (0 + 1) (String.length (escapeString k) + 1)
            (quoted (escapeString k) ++ String COLON rest) = escapeString k)
    as ->.
  { rewrite quoted_append. unfold slice.
    replace (String.length (escapeString k) + 1 - (0 + 1))
      with (String.length (escapeString k)) by lia.
    change (drop (0 + 1)
              (String DOUBLE_QUOTE
                 (escapeString k ++ String DOUBLE_QUOTE (String COLON rest))))
      with (escapeString k ++ String DOUBLE_QUOTE (String COLON rest))%string.
    apply take_append. }
  rewrite unescapeString_escapeString, bind_OK.
  rewrite length_append, length_quoted.
  assert (charAt_is (String.length (escapeString k) + 1 + 1)
            (quoted (escapeString k) ++ String COLON rest) COLON = true) as ->.
  { unfold charAt_is.
    replace (String.length (escapeString k) + 1 + 1)
      with (String.length (quoted (escapeString k)))
      by (rewrite length_quoted; lia).
    rewrite get_append_here. apply Ascii.eqb_refl. }
  replace (String.length (escapeString k) + 2 + String.length (String COLON rest)
           <=? String.length (escapeString k) + 1 + 1)%nat with false
    by (symmetry; apply Nat.leb_gt; simpl; lia).
  simpl. do 2 f_equal. lia.
Qed.

Lemma encodeKey_parseKeyToken_lemma (k rest : string) :
  parseKeyToken (encodeKey k ++ String COLON rest) 0
  = OK (k, String.length (encodeKey k) + 1).
Proof.
  unfold encodeKey. destruct (isValidUnquotedKey k) eqn:Hk.
  - now apply parseKeyToken_unquoted.
  - apply parseKeyToken_quoted.
Qed.

(** X7. A key that [encodeKey] has written, followed by a colon, is read
    back by [parseKeyToken]: it returns the key and the index after the
    colon, for every key and whatever follows the colon. *)
Theorem encodeKey_parseKeyToken (k rest : string) :
  parseKeyToken (encodeKey k ++ String COLON rest) 0
  = OK (k, String.length (encodeKey k) + 1).
Proof. exact (encodeKey_parseKeyToken_lemma k rest). Qed.

(* ================================================================= *)
(** ** encode/primitives.ts and decode/parser.ts: string literals *)

Lemma parseStringLiteral_encoded (s : string) (d : ascii) :
  parseStringLiteral (encodeStringLiteral s d) = OK s.
Proof.
  unfold encodeStringLiteral. destruct (isSafeUnquoted s d) eqn:Hs.
  - destruct (isSafeUnquoted_facts s d Hs) as (Hne & Htrim & _ & _ & Hq & _).
    unfold parseStringLiteral. rewrite Htrim.
    destruct s as [|c r]; [reflexivity|].
    apply includes_head in Hq. simpl. now rewrite Hq.
  - apply parseStringLiteral_quoted.
Qed.

(** X8. [parseStringLiteral] reads back every string that
    [encodeStringLiteral] has written, with quotes or without, for every
    delimiter character. *)
Theorem encodeStringLiteral_parseStringLiteral (s : string) (d : ascii) :
  parseStringLiteral (encodeStringLiteral s d) = OK s.
Proof. exact (parseStringLiteral_encoded s d). Qed.

(* ================================================================= *)
(** ** encode/primitives.ts and decode/parser.ts: primitives *)

Lemma isSafeUnquoted_more (s : string) (d : ascii) :
  isSafeUnquoted s d = true ->
  includes BACKSLASH s = false /\ includes d s = false
  /\ startsWith LIST_ITEM_MARKER s = false /\ isNumericLike s = false.
Proof.
  unfold isSafeUnquoted.
  destruct (is_empty s); [discriminate|].
  destruct (negb (String.eqb s (trim s))); [discriminate|].
  destruct (isBooleanOrNullLiteral s); [discriminate|].
  destruct (isNumericLike s); [discriminate|]. cbn [orb].
  destruct (includes ":" s); [discriminate|].
  destruct (includes DOUBLE_QUOTE s); [discriminate|].
  destruct (includes BACKSLASH s); [discriminate|]. cbn [orb].
  destruct (includes_any _ s); [discriminate|].
  destruct (includes_any _ s); [discriminate|].
  destruct (includes d s); [discriminate|].
  destruct (startsWith LIST_ITEM_MARKER s); [discriminate|].
  intros _. repeat split.
Qed.

Lemma safe_not_quote (s : string) (d : ascii) :
  isSafeUnquoted s d = true -> startsWith DOUBLE_QUOTE s = false.
Proof.
  intros Hs. destruct (isSafeUnquoted_facts s d Hs) as (_ & _ & _ & _ & Hq & _).
  destruct s as [|c s]; [reflexivity|]. exact (includes_head _ _ _ Hq).
Qed.

Lemma parsePrimitiveToken_quoted (s : string) :
  parsePrimitiveToken (quoted (escapeString s)) = OK (PString s).
Proof.
  unfold parsePrimitiveToken. rewrite trim_quoted.
  change (is_empty (quoted (escapeString s))) with false.
  change (startsWith DOUBLE_QUOTE (quoted (escapeString s))) with true.
  cbv iota. now rewrite parseStringLiteral_quoted.
Qed.

Lemma parsePrimitiveToken_encoded_string (s : string) (d : ascii) :
  parsePrimitiveToken (encodeStringLiteral s d) = OK (reread d (PString s)).
Proof.
  unfold encodeStringLiteral, reread. destruct (isSafeUnquoted s d) eqn:Hs.
  - destruct (isSafeUnquoted_facts s d Hs) as (Hne & Htrim & Hlit & _).
    rewrite (parsePrimitiveToken_token s Htrim Hne (safe_not_quote s d Hs) Hlit).
    reflexivity.
  - apply parsePrimitiveToken_quoted.
Qed.

Lemma numeric_literal_start (s : string) (d : ascii) :
  isSafeUnquoted s d = true -> isNumericLiteral s = true ->
  numeric_start s = true.
Proof.
  intros Hs Hn.
  destruct (isSafeUnquoted_facts s d Hs) as (Hne & Htrim & _).
  destruct (isSafeUnquoted_more s d Hs) as (_ & _ & Hhy & _).
  apply (isNumericLiteral_iff s Htrim Hne) in Hn. destruct Hn as (Hdec & _).
  destruct Hdec as [Hu | (u & Hu & [-> | ->])].
  - apply unsigned_decimal_head in Hu. destruct Hu as (c & t & -> & [Hc | ->]).
    + simpl. now rewrite Hc.
    + reflexivity.
  - reflexivity.
  - discriminate Hhy.
Qed.

(** X9. Reading back what [encodePrimitive] wrote: [parsePrimitiveToken]
    returns a boolean and null as they were, and a string as it was unless
    the string was written without quotes and [isNumericLiteral] accepts
    it, in which case it returns a number; a string that does not begin
    with a digit, a plus sign or a point always comes back as it was. *)
Theorem encodePrimitive_parsePrimitiveToken
    (numberToString : number -> string) (d : ascii) :
  (forall b,
     parsePrimitiveToken (encodePrimitive numberToString (PBoolean b) d)
     = OK (PBoolean b))
  /\ parsePrimitiveToken (encodePrimitive numberToString PNull d) = OK PNull
  /\ (forall s,
        parsePrimitiveToken (encodePrimitive numberToString (PString s) d)
        = OK (if isSafeUnquoted s d && isNumericLiteral s
              then PNumber (parseFloat s) else PString s))
  /\ (forall s,
        numeric_start s = false ->
        parsePrimitiveToken (encodePrimitive numberToString (PString s) d)
        = OK (PString s)).
Proof.
  split; [intros []; reflexivity|]. split; [reflexivity|].
  split; intros s.
  - exact (parsePrimitiveToken_encoded_string s d).
  - intros Hstart. cbn [encodePrimitive].
    rewrite parsePrimitiveToken_encoded_string. unfold reread.
    destruct (isSafeUnquoted s d) eqn:Hs; [|reflexivity].
    destruct (isNumericLiteral s) eqn:Hn; [|reflexivity].
    rewrite (numeric_literal_start s d Hs Hn) in Hstart. discriminate.
Qed.

Lemma encodePrimitive_parsePrimitiveToken_witness :
  parsePrimitiveToken (encodePrimitive (fun _ => "0") (PString "a, b") COMMA)
  = OK (PString "a, b")
  /\ parsePrimitiveToken (encodePrimitive (fun _ => "0") (PString "5.") COMMA)
     = OK (PNumber (Finite false 5 0)).
Proof.
  destruct (encodePrimitive_parsePrimitiveToken (fun _ => "0") COMMA)
    as (_ & _ & Hs & Hplain).
  split; [exact (Hplain "a, b" eq_refl) | exact (Hs "5.")].
Defined.

Lemma Number_trim (token : string) : Number (trim token) = Number token.
Proof. unfold Number. now rewrite trim_idempotent. Qed.

(** X10. A number that [parsePrimitiveToken] returns is finite, and it is
    the value that the [Number] conversion gives to the token: the decoder
    produces neither NaN nor an infinity. *)
Theorem parsePrimitiveToken_number_finite (token : string) (n : number)
    (H : parsePrimitiveToken token = OK (PNumber n)) :
  isFinite n = true /\ n = Number token.
Proof.
  unfold parsePrimitiveToken in H.
  pose proof (trim_idempotent token) as Htrim.
  destruct (is_empty (trim token)) eqn:He; [discriminate|].
  assert (trim token <> "") as Hne by (intros E; rewrite E in He; discriminate).
  destruct (startsWith DOUBLE_QUOTE (trim token)).
  { destruct (parseStringLiteral (trim token)); discriminate. }
  destruct (String.eqb (trim token) TRUE_LITERAL); [discriminate|].
  destruct (String.eqb (trim token) FALSE_LITERAL); [discriminate|].
  destruct (String.eqb (trim token) NULL_LITERAL); [discriminate|].
  destruct (isNumericLiteral (trim token)) eqn:Hn; [|discriminate].
  injection H as <-.
  apply (isNumericLiteral_iff _ Htrim Hne) in Hn.
  destruct Hn as (Hdec & Hlz & Hfin).
  destruct (decimal_literal_Number _ Htrim Hne Hdec Hlz) as [_ ->].
  rewrite Number_trim in *. now split.
Qed.

Lemma parsePrimitiveToken_number_finite_witness :
  parsePrimitiveToken " -1.5e3 " = OK (PNumber (Finite true 15 2))
  /\ isFinite (Finite true 15 2) = true.
Proof.
  split; [reflexivity|].
  exact (proj1 (parsePrimitiveToken_number_finite " -1.5e3 "
                  (Finite true 15 2) eq_refl)).
Defined.

(* ================================================================= *)
(** ** encode/primitives.ts: the tokens that are written *)

Lemma indexOf_aux_none (c : ascii) (s : string) :
  forall i, includes c s = false -> indexOf_aux c s i = None.
Proof.
  induction s as [|x s IH]; intros i H; [reflexivity|].
  simpl in *. apply orb_false_elim in H. destruct H as [Hx Hs].
  rewrite Hx. now apply IH.
Qed.

Lemma findUnquotedChar_none (s : string) (x : ascii) :
  includes DOUBLE_QUOTE s = false -> includes x s = false ->
  findUnquotedChar s x 0 = None.
Proof.
  intros Hq Hx. rewrite findUnquotedChar_0, findUnquotedChar_loop_plain by exact Hq.
  now apply indexOf_aux_none.
Qed.

Lemma quote_state_plain (s : string) :
  includes DOUBLE_QUOTE s = false -> quote_state s false = false.
Proof.
  induction s as [|c s IH]; [reflexivity|].
  simpl. intros H. apply orb_false_elim in H. destruct H as [Hc Hs].
  rewrite andb_false_r, Hc. now apply IH.
Qed.

Lemma findUnquotedChar_loop_escape_char (c : ascii) (t : string) (x : ascii)
    (i : nat) :
  t <> "" ->
  findUnquotedChar_loop (escape_char c ++ t) x true i
  = findUnquotedChar_loop t x true (i + String.length (escape_char c)).
Proof.
  intros Ht. unfold escape_char.
  destruct (Ascii.eqb_spec c BACKSLASH) as [->|Hb]; [reflexivity|].
  destruct (Ascii.eqb_spec c DOUBLE_QUOTE) as [->|Hq]; [reflexivity|].
  destruct (Ascii.eqb_spec c NEWLINE) as [->|Hn]; [reflexivity|].
  destruct (Ascii.eqb_spec c CARRIAGE_RETURN) as [->|Hr]; [reflexivity|].
  destruct (Ascii.eqb_spec c TAB) as [->|Ht']; [reflexivity|].
  apply Ascii.eqb_neq in Hb, Hq. simpl.
  now rewrite Hb, Hq, andb_false_r.
Qed.

Lemma quote_state_escape_char (c : ascii) (t : string) :
  t <> "" -> quote_state (escape_char c ++ t) true = quote_state t true.
Proof.
  intros Ht. unfold escape_char.
  destruct (Ascii.eqb_spec c BACKSLASH) as [->|Hb]; [reflexivity|].
  destruct (Ascii.eqb_spec c DOUBLE_QUOTE) as [->|Hq]; [reflexivity|].
  destruct (Ascii.eqb_spec c NEWLINE) as [->|Hn]; [reflexivity|].
  destruct (Ascii.eqb_spec c CARRIAGE_RETURN) as [->|Hr]; [reflexivity|].
  destruct (Ascii.eqb_spec c TAB) as [->|Ht']; [reflexivity|].
  apply Ascii.eqb_neq in Hb, Hq. simpl. now rewrite Hb, Hq.
Qed.

Lemma findUnquotedChar_loop_escaped (s tail : string) (x : ascii) :
  forall i,
    findUnquotedChar_loop (escapeString s ++ String DOUBLE_QUOTE tail) x true i
    = findUnquotedChar_loop tail x false
        (i + String.length (escapeString s) + 1).
Proof.
  induction s as [|c s IH]; intros i.
  - simpl. reduce_eqb. simpl. f_equal. lia.
  - rewrite escapeString_cons, append_assoc.
    rewrite findUnquotedChar_loop_escape_char.
    + rewrite IH, length_append. f_equal. lia.
    + destruct (escapeString s); discriminate.
Qed.

Lemma quote_state_escaped (s tail : string) :
  quote_state (escapeString s ++ String DOUBLE_QUOTE tail) true
  = quote_state tail false.
Proof.
  induction s as [|c s IH].
  - simpl. reduce_eqb. reflexivity.
  - rewrite escapeString_cons, append_assoc.
    rewrite quote_state_escape_char; [exact IH|].
    destruct (escapeString s); discriminate.
Qed.

Lemma findUnquotedChar_quoted (s : string) (x : ascii) :
  findUnquotedChar (quoted (escapeString s)) x 0 = None.
Proof.
  rewrite findUnquotedChar_0. unfold quoted. simpl. reduce_eqb. simpl.
  now rewrite findUnquotedChar_loop_escaped.
Qed.

Lemma quote_state_quoted (s : string) :
  quote_state (quoted (escapeString s)) false = false.
Proof.
  unfold quoted. simpl. reduce_eqb. simpl. now rewrite quote_state_escaped.
Qed.

(** What every written string token has. *)
Lemma encoded_string_token (s : string) (D : Delimiter) :
  let t := encodeStringLiteral s (delimiter_char D) in
  t <> "" /\ trim t = t /\ closed_piece D t
  /\ findUnquotedChar t COLON 0 = None
  /\ includes NEWLINE t = false
  /\ startsWithStr LIST_ITEM_PREFIX t = false.
Proof.
  unfold encodeStringLiteral, closed_piece.
  destruct (isSafeUnquoted s (delimiter_char D)) eqn:Hs; cbv zeta.
  - destruct (isSafeUnquoted_facts _ _ Hs)
      as (Hne & Htrim & _ & Hcolon & Hq & _ & Hnl).
    destruct (isSafeUnquoted_more _ _ Hs) as (_ & Hd & Hhy & _).
    repeat split; try assumption.
    + now apply findUnquotedChar_none.
    + now apply quote_state_plain.
    + now apply findUnquotedChar_none.
    + destruct s as [|c s]; [reflexivity|].
      unfold startsWithStr, LIST_ITEM_PREFIX.
      change (String.prefix "- " (String c s))
        with (if Ascii.ascii_dec "-" c then String.prefix " " s else false).
      destruct (Ascii.ascii_dec "-" c) as [<-|]; [|reflexivity].
      discriminate Hhy.
  - repeat split.
    + discriminate.
    + apply trim_quoted.
    + apply findUnquotedChar_quoted.
    + apply quote_state_quoted.
    + apply findUnquotedChar_quoted.
    + apply includes_quoted_escapeString.
Qed.

(** X11. A string that [encodeStringLiteral] has written is one token: it
    is not empty, has no white space around it, no line break, no
    delimiter and no colon outside quotes, its quotes are closed, and it
    does not begin like a list item. *)
Theorem encodeStringLiteral_token (s : string) (D : Delimiter) :
  encodeStringLiteral s (delimiter_char D) <> ""
  /\ trim (encodeStringLiteral s (delimiter_char D))
     = encodeStringLiteral s (delimiter_char D)
  /\ closed_piece D (encodeStringLiteral s (delimiter_char D))
  /\ findUnquotedChar (encodeStringLiteral s (delimiter_char D)) COLON 0 = None
  /\ includes NEWLINE (encodeStringLiteral s (delimiter_char D)) = false
  /\ startsWithStr LIST_ITEM_PREFIX (encodeStringLiteral s (delimiter_char D))
     = false.
Proof. exact (encoded_string_token s D). Qed.

(* ================================================================= *)
(** ** Inline arrays: [encodeAndJoinPrimitives] and [parseDelimitedValues] *)

Lemma join_pieces_join (D : Delimiter) (ts : list string) (t : string) :
  join (String (delimiter_char D) "") (ts ++ [t]) = join_pieces D ts t.
Proof.
  induction ts as [|p ts IH]; [reflexivity|].
  simpl. destruct (ts ++ [t]) as [|q qs] eqn:E.
  - now destruct ts.
  - now rewrite <- IH.
Qed.

Lemma join_pieces_not_empty (D : Delimiter) (ts : list string) (t : string) :
  t <> "" -> join_pieces D ts t <> "".
Proof.
  intros Ht. destruct ts as [|p ts]; [exact Ht|].
  simpl. destruct p; discriminate.
Qed.

Lemma map_trim_fixed (ts : list string) :
  Forall (fun t => trim t = t) ts -> map trim ts = ts.
Proof. induction 1 as [|t ts Ht _ IH]; simpl; [reflexivity | now rewrite Ht, IH]. Qed.

Lemma parseDelimitedValues_tokens (D : Delimiter) (ts : list string) :
  Forall (fun t => t <> "" /\ trim t = t /\ closed_piece D t) ts ->
  parseDelimitedValues (join (String (delimiter_char D) "") ts) D = ts.
Proof.
  intros H. destruct ts as [|t0 ts0] eqn:E; [reflexivity|].
  rewrite <- E in *. assert (ts <> []) as Hne by (rewrite E; discriminate).
  clear E t0 ts0.
  destruct (exists_last Hne) as (ps & t & ->).
  apply Forall_app in H. destruct H as [Hps Ht].
  apply Forall_inv in Ht. destruct Ht as (Htne & Httrim & Htclosed & _).
  rewrite join_pieces_join. unfold parseDelimitedValues.
  rewrite parseDelimitedValues_loop_pieces.
  - destruct (join_pieces D ps t) eqn:E;
      [now apply join_pieces_not_empty in E|].
    simpl. apply map_trim_fixed. apply Forall_app. split.
    + revert Hps. apply Forall_impl. now intros x (_ & Hx & _).
    + now constructor.
  - revert Hps. apply Forall_impl. now intros x (_ & _ & Hx).
  - exact Htclosed.
Qed.

Lemma encoded_primitive_token (numberToString : number -> string)
    (D : Delimiter) (p : JsonPrimitive) :
  is_number p = false ->
  let t := encodePrimitive numberToString p (delimiter_char D) in
  t <> "" /\ trim t = t /\ closed_piece D t.
Proof.
  destruct p as [s|n|b|]; intros Hp; try discriminate; cbv zeta.
  - cbn [encodePrimitive].
    destruct (encoded_string_token s D) as (H1 & H2 & H3 & _).
    split; [exact H1 | split; [exact H2 | exact H3]].
  - destruct b, D; repeat split; try discriminate; reflexivity.
  - destruct D; repeat split; try discriminate; reflexivity.
Qed.

Lemma parsePrimitiveToken_encoded (numberToString : number -> string)
    (d : ascii) (p : JsonPrimitive) :
  is_number p = false ->
  parsePrimitiveToken (encodePrimitive numberToString p d) = OK (reread d p).
Proof.
  destruct p as [s|n|b|]; intros Hp; try discriminate.
  - apply parsePrimitiveToken_encoded_string.
  - now destruct b.
  - reflexivity.
Qed.

Lemma inline_values_parsed
    (numberToString : number -> string) (D : Delimiter)
    (values : list JsonPrimitive)
    (Hvalues : forallb (fun p => negb (is_number p)) values = true) :
  parseDelimitedValues
    (encodeAndJoinPrimitives numberToString values (delimiter_char D)) D
  = map (fun v => encodePrimitive numberToString v (delimiter_char D)) values
  /\ mapRowValuesToPrimitives
       (parseDelimitedValues
          (encodeAndJoinPrimitives numberToString values (delimiter_char D)) D)
     = OK (map (reread (delimiter_char D)) values).
Proof.
  assert (Hsplit :
    parseDelimitedValues
      (encodeAndJoinPrimitives numberToString values (delimiter_char D)) D
    = map (fun v => encodePrimitive numberToString v (delimiter_char D)) values).
  { unfold encodeAndJoinPrimitives. apply parseDelimitedValues_tokens.
    apply Forall_map, Forall_forall. intros p Hp.
    apply encoded_primitive_token.
    rewrite forallb_forall in Hvalues. specialize (Hvalues p Hp).
    now apply negb_true_iff in Hvalues. }
  split; [exact Hsplit|]. rewrite Hsplit. unfold mapRowValuesToPrimitives.
  clear Hsplit. induction values as [|p ps IH]; [reflexivity|].
  simpl in Hvalues. apply andb_true_iff in Hvalues.
  destruct Hvalues as [Hp Hps]. apply negb_true_iff in Hp.
  cbn [map mapM]. rewrite (parsePrimitiveToken_encoded _ _ _ Hp), bind_OK.
  now rewrite (IH Hps).
Qed.

(** X12. An inline array of strings, booleans and nulls: the text that
    [encodeAndJoinPrimitives] writes is split by [parseDelimitedValues]
    into the tokens of the items, one for one, and
    [mapRowValuesToPrimitives] then returns the items, each as
    [parsePrimitiveToken] reads its token back. *)
Theorem encodeAndJoinPrimitives_parseDelimitedValues
    (numberToString : number -> string) (D : Delimiter)
    (values : list JsonPrimitive)
    (Hvalues : forallb (fun p => negb (is_number p)) values = true) :
  parseDelimitedValues
    (encodeAndJoinPrimitives numberToString values (delimiter_char D)) D
  = map (fun v => encodePrimitive numberToString v (delimiter_char D)) values
  /\ mapRowValuesToPrimitives
       (parseDelimitedValues
          (encodeAndJoinPrimitives numberToString values (delimiter_char D)) D)
     = OK (map (reread (delimiter_char D)) values).
Proof.
  exact (inline_values_parsed numberToString D values Hvalues).
Qed.

Lemma encodeAndJoinPrimitives_parseDelimitedValues_witness :
  encodeAndJoinPrimitives (fun _ => "0")
    [PString "a,b"; PBoolean true; PNull; PString ""; PString "x y"] COMMA
  = (quoted "a,b" ++ ",true,null," ++ quoted "" ++ ",x y")%string
  /\ mapRowValuesToPrimitives
       (parseDelimitedValues
          (encodeAndJoinPrimitives (fun _ => "0")
             [PString "a,b"; PBoolean true; PNull; PString ""; PString "x y"]
             (delimiter_char DelimComma)) DelimComma)
     = OK [PString "a,b"; PBoolean true; PNull; PString ""; PString "x y"].
Proof.
  split; [reflexivity|].
  exact (proj2 (encodeAndJoinPrimitives_parseDelimitedValues (fun _ => "0")
                  DelimComma
                  [PString "a,b"; PBoolean true; PNull; PString "";
                   PString "x y"] eq_refl)).
Defined.

(* ================================================================= *)
(** ** Array headers: [formatHeader] and [parseArrayHeaderLine] *)

(** *** The decimal text of a length *)

Lemma string_of_uint_digits (d : Decimal.uint) :
  all_digits (NilEmpty.string_of_uint d) = true.
Proof. induction d; simpl; try assumption; reflexivity. Qed.

Lemma string_of_uint_value (d : Decimal.uint) :
  forall acc,
    digits_value_acc (NilEmpty.string_of_uint d) (N.of_nat acc)
    = N.of_nat (Nat.of_uint_acc d acc).
Proof.
  induction d as [|d IH|d IH|d IH|d IH|d IH|d IH|d IH|d IH|d IH|d IH];
    intros acc; [reflexivity|..]; cbn [NilEmpty.string_of_uint digits_value_acc
                                       Nat.of_uint_acc];
    rewrite <- IH; f_equal; rewrite Nat.tail_mul_spec;
    unfold digit_value;
    match goal with
    | |- context [nat_of_ascii ?c - 48] =>
        let v := eval vm_compute in (nat_of_ascii c - 48) in
        change (nat_of_ascii c - 48) with v
    end; lia.
Qed.

Lemma nat_to_string_digits (n : nat) : digits1 (nat_to_string n).
Proof.
  unfold nat_to_string, NilZero.string_of_uint, digits1.
  destruct (Nat.to_uint n) as [|d|d|d|d|d|d|d|d|d|d];
    (split; [discriminate|]); try reflexivity;
    match goal with
    | |- all_digits (NilEmpty.string_of_uint ?u) = true =>
        apply (string_of_uint_digits u)
    end.
Qed.

Lemma nat_to_string_value (n : nat) :
  digits_value (nat_to_string n) = N.of_nat n.
Proof.
  unfold nat_to_string, NilZero.string_of_uint, digits_value.
  rewrite <- (DecimalNat.Unsigned.of_to n) at 2. unfold Nat.of_uint.
  destruct (Nat.to_uint n) as [|d|d|d|d|d|d|d|d|d|d]; [reflexivity|..];
    match goal with
    | |- digits_value_acc (NilEmpty.string_of_uint ?u) _ = _ =>
        apply (string_of_uint_value u 0)
    end.
Qed.

(** *** The places of a header line *)

Lemma drop_drop (a b : nat) (s : string) : drop (a + b) s = drop b (drop a s).
Proof.
  revert s. induction a as [|a IH]; intros s; [reflexivity|].
  destruct s as [|c s]; [now destruct b | apply IH].
Qed.

Lemma indexOf_aux_ge (c : ascii) (s : string) :
  forall i k, indexOf_aux c s i = Some k -> i <= k.
Proof.
  induction s as [|x s IH]; intros i k H; [discriminate|].
  simpl in H. destruct (Ascii.eqb x c); [injection H as <-; lia|].
  apply IH in H. lia.
Qed.

Section HeaderLine.

Variables K B F rest : string.

Let T : string := (F ++ String COLON rest)%string.
Let line : string :=
  (K ++ String OPEN_BRACKET (B ++ String CLOSE_BRACKET T))%string.
Let bracketEnd : nat := String.length K + S (String.length B).

Hypothesis K_head :
  match K with
  | String c _ => is_whitespace c = false /\ Ascii.eqb c DOUBLE_QUOTE = false
  | EmptyString => True
  end.
Hypothesis K_bracket : includes OPEN_BRACKET K = false.
Hypothesis B_bracket : includes CLOSE_BRACKET B = false.

Lemma line_not_quoted : startsWith DOUBLE_QUOTE (trimStart line) = false.
Proof.
  unfold line. destruct K as [|c r]; [reflexivity|].
  destruct K_head as [Hw Hq]. simpl. now rewrite Hw.
Qed.

Lemma line_bracketStart :
  indexOf OPEN_BRACKET 0 line = Some (String.length K).
Proof.
  unfold indexOf, line. cbn [drop].
  rewrite indexOf_aux_append by exact K_bracket. apply indexOf_aux_here.
Qed.

Lemma drop_line_K :
  drop (String.length K) line
  = String OPEN_BRACKET (B ++ String CLOSE_BRACKET T).
Proof. apply drop_append. Qed.

Lemma drop_line_bracketEnd :
  drop bracketEnd line = String CLOSE_BRACKET T.
Proof.
  unfold bracketEnd. rewrite drop_drop, drop_line_K. cbn [drop].
  apply drop_append.
Qed.

Lemma line_bracketEnd :
  indexOf CLOSE_BRACKET (String.length K) line = Some bracketEnd.
Proof.
  unfold indexOf. rewrite drop_line_K. simpl. reduce_eqb. cbv iota.
  rewrite indexOf_aux_append by exact B_bracket.
  rewrite indexOf_aux_here. unfold bracketEnd. f_equal. lia.
Qed.

Lemma line_key :
  slice 0 (String.length K) line = K.
Proof. unfold slice, line. rewrite Nat.sub_0_r. cbn [drop]. apply take_append. Qed.

Lemma line_bracketContent :
  slice (String.length K + 1) bracketEnd line = B.
Proof.
  unfold slice. rewrite drop_drop, drop_line_K. cbn [drop].
  replace (bracketEnd - (String.length K + 1)) with (String.length B)
    by (unfold bracketEnd; lia).
  apply take_append.
Qed.

Variable defaultDelimiter : Delimiter.
Variable len : Z.
Variable delim : Delimiter.
Variable marker : bool.
Hypothesis B_parsed :
  parseBracketSegment B defaultDelimiter = OK (len, delim, marker).

(** A header without field list. *)
Lemma parseArrayHeaderLine_no_fields :
  F = "" ->
  parseArrayHeaderLine line defaultDelimiter
  = OK (Some ({| hkey := if (0 <? String.length K)%nat then Some K else None;
                 hlength := len; hdelimiter := delim; hfields := None;
                 hasLengthMarker := marker |},
              if is_empty (trim rest) then None else Some (trim rest))).
Proof.
  intros HF. unfold parseArrayHeaderLine.
  rewrite line_not_quoted, line_bracketStart, line_bracketEnd.
  assert (HT : T = String COLON rest) by (unfold T; now rewrite HF).
  assert (Hcolon : indexOf COLON bracketEnd line = Some (bracketEnd + 1)).
  { unfold indexOf. rewrite drop_line_bracketEnd, HT. simpl. reduce_eqb.
    cbv iota. f_equal. lia. }
  assert (Hbrace : forall bs, indexOf OPEN_BRACE bracketEnd line = Some bs ->
                              bracketEnd + 2 <= bs).
  { unfold indexOf. rewrite drop_line_bracketEnd, HT. simpl. reduce_eqb.
    cbv iota. intros bs H. apply indexOf_aux_ge in H. lia. }
  assert (Hdrop : drop (bracketEnd + 1 + 1) line = rest).
  { rewrite <- Nat.add_assoc, drop_drop, drop_line_bracketEnd, HT.
    reflexivity. }
  assert (Hcolon' : indexOf COLON (bracketEnd + 1) line = Some (bracketEnd + 1)).
  { unfold indexOf. rewrite drop_drop, drop_line_bracketEnd, HT. cbn [drop].
    apply indexOf_aux_here. }
  rewrite Hcolon.
  destruct (indexOf OPEN_BRACE bracketEnd line) as [bs|] eqn:Hbs.
  - specialize (Hbrace bs eq_refl).
    replace (lt_index bs (Some (bracketEnd + 1))) with false
      by (symmetry; apply Nat.ltb_ge; lia).
    replace (Nat.max bracketEnd (bracketEnd + 1)) with (bracketEnd + 1) by lia.
    rewrite Hcolon', Hdrop, line_key, line_bracketContent, B_parsed.
    replace (bs <? bracketEnd + 1)%nat with false
      by (symmetry; apply Nat.ltb_ge; lia).
    reflexivity.
  - replace (Nat.max bracketEnd (bracketEnd + 1)) with (bracketEnd + 1) by lia.
    rewrite Hcolon', Hdrop, line_key, line_bracketContent, B_parsed.
    reflexivity.
Qed.

(** A header with a field list. *)
Lemma parseArrayHeaderLine_fields (J : string) (fs : list string) :
  F = String OPEN_BRACE (J ++ String CLOSE_BRACE "") ->
  includes COLON J = false -> includes CLOSE_BRACE J = false ->
  mapM (fun field => parseStringLiteral (trim field))
    (parseDelimitedValues J delim) = OK fs ->
  parseArrayHeaderLine line defaultDelimiter
  = OK (Some ({| hkey := if (0 <? String.length K)%nat then Some K else None;
                 hlength := len; hdelimiter := delim; hfields := Some fs;
                 hasLengthMarker := marker |},
              if is_empty (trim rest) then None else Some (trim rest))).
Proof.
  intros HF HJc HJb Hfs. unfold parseArrayHeaderLine.
  rewrite line_not_quoted, line_bracketStart, line_bracketEnd.
  assert (HT : T = String OPEN_BRACE
                     (J ++ String CLOSE_BRACE (String COLON rest))).
  { unfold T. rewrite HF. simpl. now rewrite append_assoc. }
  pose (colonIndex := bracketEnd + 1 + S (String.length J) + 1).
  assert (HdropB : drop (bracketEnd + 1) line
                   = String OPEN_BRACE
                       (J ++ String CLOSE_BRACE (String COLON rest))).
  { rewrite drop_drop, drop_line_bracketEnd, HT. reflexivity. }
  assert (HdropJ : drop (bracketEnd + 1 + 1) line
                   = (J ++ String CLOSE_BRACE (String COLON rest))%string).
  { rewrite drop_drop, HdropB. reflexivity. }
  assert (HdropC : drop colonIndex line = String COLON rest).
  { unfold colonIndex.
    replace (bracketEnd + 1 + S (String.length J) + 1)
      with (bracketEnd + 1 + 1 + (String.length J + 1)) by lia.
    rewrite drop_drop, HdropJ, drop_drop, drop_append. reflexivity. }
  assert (Hbrace : indexOf OPEN_BRACE bracketEnd line = Some (bracketEnd + 1)).
  { unfold indexOf. rewrite drop_line_bracketEnd, HT. simpl. reduce_eqb.
    cbv iota. f_equal. lia. }
  assert (Hcolon : indexOf COLON bracketEnd line = Some colonIndex).
  { unfold indexOf. rewrite drop_line_bracketEnd, HT. simpl. reduce_eqb.
    cbv iota. rewrite indexOf_aux_append by exact HJc. simpl. reduce_eqb.
    cbv iota. unfold colonIndex. f_equal. lia. }
  assert (HbraceEnd : indexOf CLOSE_BRACE (bracketEnd + 1) line
                      = Some (bracketEnd + 1 + S (String.length J))).
  { unfold indexOf. rewrite HdropB. simpl. reduce_eqb. cbv iota.
    rewrite indexOf_aux_append by exact HJb. rewrite indexOf_aux_here.
    f_equal. lia. }
  assert (Hcolon' : indexOf COLON colonIndex line = Some colonIndex).
  { unfold indexOf. rewrite HdropC. apply indexOf_aux_here. }
  assert (Hdrop : drop (colonIndex + 1) line = rest).
  { rewrite drop_drop, HdropC. reflexivity. }
  assert (Hslice : slice (bracketEnd + 1 + 1)
                     (bracketEnd + 1 + S (String.length J)) line = J).
  { unfold slice. rewrite HdropJ.
    replace (bracketEnd + 1 + S (String.length J) - (bracketEnd + 1 + 1))
      with (String.length J) by lia.
    apply take_append. }
  rewrite Hbrace, Hcolon.
  replace (lt_index (bracketEnd + 1) (Some colonIndex)) with true
    by (symmetry; apply Nat.ltb_lt; unfold colonIndex; lia).
  rewrite HbraceEnd.
  replace (Nat.max bracketEnd (bracketEnd + 1 + S (String.length J) + 1))
    with colonIndex by (unfold colonIndex; lia).
  rewrite Hcolon', Hdrop, line_key, line_bracketContent, B_parsed.
  replace (bracketEnd + 1 <? colonIndex)%nat with true
    by (symmetry; apply Nat.ltb_lt; unfold colonIndex; lia).
  replace (bracketEnd + 1 + S (String.length J) <? colonIndex)%nat with true
    by (symmetry; apply Nat.ltb_lt; unfold colonIndex; lia).
  rewrite Hslice, Hfs. reflexivity.
Qed.

End HeaderLine.

(** *** What [formatHeader] writes *)

Lemma all_digits_includes (x : ascii) (s : string) :
  is_digit x = false -> all_digits s = true -> includes x s = false.
Proof.
  intros Hx. induction s as [|c s IH]; simpl; [reflexivity|].
  intros H. apply andb_true_iff in H. destruct H as [Hc Hs].
  rewrite (IH Hs), orb_false_r. now apply is_digit_not.
Qed.

Lemma includes_join (x : ascii) (sep : string) (ts : list string) :
  includes x sep = false ->
  Forall (fun t => includes x t = false) ts ->
  includes x (join sep ts) = false.
Proof.
  intros Hsep H. induction H as [|t ts Ht Hts IH]; [reflexivity|].
  simpl. destruct ts as [|u us]; [exact Ht|].
  now rewrite !includes_append, Ht, Hsep, IH.
Qed.

Lemma map_encodeKey_valid (fs : list string) :
  forallb isValidUnquotedKey fs = true -> map encodeKey fs = fs.
Proof.
  induction fs as [|f fs IH]; simpl; [reflexivity|].
  intros H. apply andb_true_iff in H. destruct H as [Hf Hfs].
  unfold encodeKey at 1. now rewrite Hf, (IH Hfs).
Qed.

Lemma is_key_char_delimiter (D : Delimiter) :
  is_key_char (delimiter_char D) = false.
Proof. now destruct D. Qed.

Lemma valid_key_token (D : Delimiter) (f : string) :
  isValidUnquotedKey f = true ->
  f <> "" /\ trim f = f /\ closed_piece D f.
Proof.
  intros Hf. destruct (valid_key_facts f Hf) as (_ & Htrim & c & r & E & _).
  assert (Hq : includes DOUBLE_QUOTE f = false)
    by now apply valid_key_excludes.
  split; [rewrite E; discriminate|]. split; [exact Htrim|]. split.
  - apply findUnquotedChar_none; [exact Hq|].
    apply valid_key_excludes; [exact Hf | apply is_key_char_delimiter].
  - now apply quote_state_plain.
Qed.

Lemma parse_field_names (D : Delimiter) (fs : list string) :
  forallb isValidUnquotedKey fs = true ->
  mapM (fun field => parseStringLiteral (trim field))
    (parseDelimitedValues
       (join (String (delimiter_char D) "") (map encodeKey fs)) D)
  = OK fs.
Proof.
  intros H. rewrite (map_encodeKey_valid fs H).
  rewrite parseDelimitedValues_tokens.
  - induction fs as [|f fs IH]; [reflexivity|].
    simpl in H. apply andb_true_iff in H. destruct H as [Hf Hfs].
    cbn [mapM]. rewrite (IH Hfs).
    destruct (valid_key_facts f Hf) as (_ & Htrim & _).
    assert (Hq : includes DOUBLE_QUOTE f = false)
      by now apply valid_key_excludes.
    unfold parseStringLiteral. rewrite !Htrim.
    destruct f as [|c r]; [reflexivity|].
    apply includes_head in Hq. simpl. now rewrite Hq.
  - apply Forall_forall. intros f Hin. apply valid_key_token.
    rewrite forallb_forall in H. now apply H.
Qed.

Lemma formatHeader_line (n : nat) (k : option string)
    (flds : option (list string)) (D : Delimiter) (marker : bool)
    (rest : string) :
  (formatHeader n k flds D marker ++ rest)%string
  = ((match k with
      | Some s => if is_empty s then "" else encodeKey s
      | None => ""
      end)
     ++ String OPEN_BRACKET
          (((if marker then String HASH "" else "")
            ++ nat_to_string n
            ++ match D with
               | DelimComma => ""
               | d => String (delimiter_char d) ""
               end)
           ++ String CLOSE_BRACKET
                ((match flds with
                  | Some fs =>
                      String OPEN_BRACE
                        (join (String (delimiter_char D) "") (map encodeKey fs)
                         ++ String CLOSE_BRACE "")
                  | None => ""
                  end) ++ String COLON rest)))%string.
Proof.
  unfold formatHeader.
  repeat first [rewrite append_assoc | progress cbn [append]]. reflexivity.
Qed.

Lemma bracket_text_closed (n : nat) (D : Delimiter) (marker : bool) :
  includes CLOSE_BRACKET
    ((if marker then String HASH "" else "")
     ++ nat_to_string n
     ++ match D with
        | DelimComma => ""
        | d => String (delimiter_char d) ""
        end) = false.
Proof.
  rewrite !includes_append.
  rewrite (all_digits_includes CLOSE_BRACKET (nat_to_string n));
    [|reflexivity | apply nat_to_string_digits].
  now destruct marker, D.
Qed.

Lemma bracket_text_parsed (n : nat) (D : Delimiter) (marker : bool) :
  parseBracketSegment
    ((if marker then String HASH "" else "")
     ++ nat_to_string n
     ++ match D with
        | DelimComma => ""
        | d => String (delimiter_char d) ""
        end) DEFAULT_DELIMITER
  = OK (Z.of_nat n, D, marker).
Proof.
  rewrite parseBracketSegment_wellformed by apply nat_to_string_digits.
  rewrite nat_to_string_value, nat_N_Z. now destruct D.
Qed.

Lemma formatHeader_parsed (n : nat) (k : option string)
    (flds : option (list string)) (D : Delimiter) (marker : bool)
    (rest : string) :
  (match k with Some s => isValidUnquotedKey s = true | None => True end ->
   match flds with
   | Some fs => forallb isValidUnquotedKey fs = true
   | None => True
   end ->
   parseArrayHeaderLine (formatHeader n k flds D marker ++ rest)
     DEFAULT_DELIMITER
   = OK (Some ({| hkey := k; hlength := Z.of_nat n; hdelimiter := D;
                  hfields := flds; hasLengthMarker := marker |},
               if is_empty (trim rest) then None else Some (trim rest))))
  /\ (forall s,
        k = Some s -> s <> "" -> isValidUnquotedKey s = false ->
        parseArrayHeaderLine (formatHeader n k flds D marker ++ rest)
          DEFAULT_DELIMITER
        = OK None).
Proof.
  rewrite formatHeader_line. split.
  - intros Hk Hf.
    set (K := match k with
              | Some s => if is_empty s then "" else encodeKey s
              | None => ""
              end).
    assert (HK : (if (0 <? String.length K)%nat then Some K else None) = k
                 /\ includes OPEN_BRACKET K = false
                 /\ match K with
                    | String c _ =>
                        is_whitespace c = false
                        /\ Ascii.eqb c DOUBLE_QUOTE = false
                    | EmptyString => True
                    end).
    { subst K. destruct k as [s|]; [|now repeat split].
      destruct (valid_key_facts s Hk) as (_ & _ & c & r & -> & Hc).
      cbn [is_empty]. unfold encodeKey. rewrite Hk.
      split; [reflexivity|]. split; [now apply valid_key_excludes|].
      apply is_key_start_key_char in Hc. split.
      - now apply is_key_char_not_whitespace.
      - destruct (Ascii.eqb_spec c DOUBLE_QUOTE) as [->|];
          [discriminate Hc | reflexivity]. }
    destruct HK as (HKk & HKb & HKh).
    destruct flds as [fs|].
    + erewrite parseArrayHeaderLine_fields;
        [ rewrite HKk; reflexivity | exact HKh | exact HKb
        | apply bracket_text_closed | apply bracket_text_parsed
        | reflexivity | | | now apply parse_field_names ].
      * apply includes_join; [now destruct D|].
        rewrite (map_encodeKey_valid fs Hf). apply Forall_forall.
        intros f Hin. apply valid_key_excludes; [|reflexivity].
        rewrite forallb_forall in Hf. now apply Hf.
      * apply includes_join; [now destruct D|].
        rewrite (map_encodeKey_valid fs Hf). apply Forall_forall.
        intros f Hin. apply valid_key_excludes; [|reflexivity].
        rewrite forallb_forall in Hf. now apply Hf.
    + erewrite parseArrayHeaderLine_no_fields;
        [ rewrite HKk; reflexivity | exact HKh | exact HKb
        | apply bracket_text_closed | apply bracket_text_parsed
        | reflexivity ].
  - intros s -> Hne Hs. destruct s as [|c r]; [contradiction|].
    cbn [is_empty]. unfold encodeKey. rewrite Hs. reflexivity.
Qed.

(** X13. A header that [formatHeader] has written for a key and field
    names that need no quotes is read back by [parseArrayHeaderLine]: the
    key, the length, the delimiter, the length marker and the field names
    are the ones that were written, and the inline values are what follows
    the colon, trimmed.  A header whose key needed quotes is not
    recognised as a header. *)
Theorem formatHeader_parseArrayHeaderLine (n : nat) (k : option string)
    (flds : option (list string)) (D : Delimiter) (marker : bool)
    (rest : string) :
  (match k with Some s => isValidUnquotedKey s = true | None => True end ->
   match flds with
   | Some fs => forallb isValidUnquotedKey fs = true
   | None => True
   end ->
   parseArrayHeaderLine (formatHeader n k flds D marker ++ rest)
     DEFAULT_DELIMITER
   = OK (Some ({| hkey := k; hlength := Z.of_nat n; hdelimiter := D;
                  hfields := flds; hasLengthMarker := marker |},
               if is_empty (trim rest) then None else Some (trim rest))))
  /\ (forall s,
        k = Some s -> s <> "" -> isValidUnquotedKey s = false ->
        parseArrayHeaderLine (formatHeader n k flds D marker ++ rest)
          DEFAULT_DELIMITER
        = OK None).
Proof. exact (formatHeader_parsed n k flds D marker rest). Qed.

Lemma formatHeader_parseArrayHeaderLine_witness :
  formatHeader 3 (Some "items") (Some ["id"; "name"]) DelimPipe true
  = "items[#3|]{id|name}:"
  /\ parseArrayHeaderLine
       (formatHeader 3 (Some "items") (Some ["id"; "name"]) DelimPipe true
        ++ " ") DEFAULT_DELIMITER
     = OK (Some ({| hkey := Some "items"; hlength := 3; hdelimiter := DelimPipe;
                    hfields := Some ["id"; "name"]; hasLengthMarker := true |},
                 None)).
Proof.
  split; [reflexivity|].
  exact (proj1 (formatHeader_parseArrayHeaderLine 3 (Some "items")
                  (Some ["id"; "name"]) DelimPipe true " ") eq_refl eq_refl).
Defined.

(* ================================================================= *)
(** ** decode/parser.ts: what the parsers return *)

Lemma indexOf_aux_sound (c : ascii) (s : string) :
  forall i k,
    indexOf_aux c s i = Some k ->
    i <= k /\ k < i + String.length s /\ String.get (k - i) s = Some c.
Proof.
  induction s as [|x s IH]; intros i k H; [discriminate|].
  simpl in H. destruct (Ascii.eqb_spec x c) as [->|Hx].
  - injection H as <-. simpl. rewrite Nat.sub_diag.
    repeat split; lia || reflexivity.
  - destruct (IH _ _ H) as (H1 & H2 & H3). simpl.
    repeat split; [lia|lia|].
    replace (k - i) with (S (k - S i)) by lia. exact H3.
Qed.

Lemma indexOf_sound (c : ascii) (from : nat) (s : string) (k : nat) :
  indexOf c from s = Some k ->
  from <= k /\ k < String.length s /\ String.get k s = Some c.
Proof.
  unfold indexOf. intros H. apply indexOf_aux_sound in H.
  destruct H as (H1 & H2 & H3). rewrite length_drop in H2.
  rewrite get_drop in H3. replace (from + (k - from)) with k in H3 by lia.
  repeat split; [lia|lia|exact H3].
Qed.

Lemma get_includes (c : ascii) (s : string) (k : nat) :
  String.get k s = Some c -> includes c s = true.
Proof.
  revert k. induction s as [|x s IH]; intros k H; [discriminate|].
  simpl. destruct k as [|k]; simpl in H.
  - injection H as ->. now rewrite Ascii.eqb_refl.
  - rewrite (IH k H). apply orb_true_r.
Qed.

Lemma length_take (n : nat) (s : string) :
  n <= String.length s -> String.length (take n s) = n.
Proof.
  revert s. induction n as [|n IH]; intros s H; [reflexivity|].
  destruct s as [|c s]; simpl in *; [lia|]. rewrite IH; lia.
Qed.

Lemma take_drop (n : nat) (s : string) : (take n s ++ drop n s)%string = s.
Proof.
  revert s. induction n as [|n IH]; intros s; [reflexivity|].
  destruct s as [|c s]; [reflexivity|]. simpl. now rewrite IH.
Qed.

Lemma drop_get (n : nat) (s : string) (c : ascii) :
  String.get n s = Some c -> drop n s = String c (drop (S n) s).
Proof.
  revert s. induction n as [|n IH]; intros s H;
    (destruct s as [|x s]; [discriminate|]); simpl in *.
  - now injection H as ->.
  - now apply IH.
Qed.

(** X14. A header that [parseArrayHeaderLine] returns has a key that is not
    empty, the text before the first opening bracket of the line, or no
    key at all; its inline values, when there are any, are not empty and
    have no white space around them; and the line holds an opening
    bracket, a closing bracket and a colon and does not begin with a
    double quote. *)
Theorem parseArrayHeaderLine_result (content_ : string)
    (defaultDelimiter : Delimiter) (header : ArrayHeaderInfo)
    (inlineValues : option string)
    (H : parseArrayHeaderLine content_ defaultDelimiter
         = OK (Some (header, inlineValues))) :
  (forall k, hkey header = Some k ->
             k <> ""
             /\ includes OPEN_BRACKET k = false
             /\ exists r, content_ = (k ++ String OPEN_BRACKET r)%string)
  /\ (hkey header = None -> startsWith OPEN_BRACKET content_ = true)
  /\ (forall iv, inlineValues = Some iv -> iv <> "" /\ trim iv = iv)
  /\ includes OPEN_BRACKET content_ = true
  /\ includes CLOSE_BRACKET content_ = true
  /\ includes COLON content_ = true
  /\ startsWith DOUBLE_QUOTE (trimStart content_) = false.
Proof.
  unfold parseArrayHeaderLine in H.
  destruct (startsWith DOUBLE_QUOTE (trimStart content_)) eqn:Hq;
    [discriminate|].
  destruct (indexOf OPEN_BRACKET 0 content_) as [bs|] eqn:Hbs; [|discriminate].
  destruct (indexOf CLOSE_BRACKET bs content_) as [be|] eqn:Hbe; [|discriminate].
  match type of H with
  | match indexOf COLON ?n content_ with _ => _ end = _ =>
      destruct (indexOf COLON n content_) as [ci|] eqn:Hci; [|discriminate]
  end.
  destruct (parseBracketSegment _ _) as [[[len delim] marker]|]; [|discriminate].
  match type of H with
  | bind ?r _ = _ => destruct r as [flds|]; [|discriminate]
  end.
  simpl in H. injection H as <- <-. cbn [hkey].
  pose proof (indexOf_sound _ _ _ _ Hbs) as (_ & Hbs1 & Hbs2).
  pose proof (indexOf_sound _ _ _ _ Hbe) as (_ & _ & Hbe2).
  pose proof (indexOf_sound _ _ _ _ Hci) as (_ & _ & Hci2).
  assert (Hsplit : content_
                   = (take bs content_
                      ++ String OPEN_BRACKET (drop (S bs) content_))%string).
  { rewrite <- (drop_get _ _ _ Hbs2). symmetry. apply take_drop. }
  assert (Hpre : includes OPEN_BRACKET (take bs content_) = false).
  { destruct (includes OPEN_BRACKET (take bs content_)) eqn:E; [|reflexivity].
    exfalso. unfold indexOf in Hbs. cbn [drop] in Hbs.
    rewrite Hsplit in Hbs.
    clear - Hbs E Hbs1. revert Hbs.
    generalize (String OPEN_BRACKET (drop (S bs) content_)) as tl.
    assert (Hlen : String.length (take bs content_) = bs)
      by (apply length_take; lia).
    revert Hlen E. generalize (take bs content_) as pre. intros pre Hlen E tl.
    assert (forall i k, indexOf_aux OPEN_BRACKET (pre ++ tl) i = Some k ->
                        k < i + String.length pre) as Hlt.
    { clear Hlen. induction pre as [|x pre IH]; [discriminate|].
      intros i k Hk. simpl in *.
      destruct (Ascii.eqb x OPEN_BRACKET); [injection Hk as <-; lia|].
      simpl in E. apply IH in Hk; [lia | exact E]. }
    intros Hk. apply Hlt in Hk. lia. }
  split; [intros k Hk | split; [intros Hk | split; [intros iv Hiv|]]].
  - destruct (0 <? bs)%nat eqn:Hpos; [|discriminate].
    injection Hk as <-. apply Nat.ltb_lt in Hpos.
    unfold slice. rewrite Nat.sub_0_r. cbn [drop].
    split; [|split; [exact Hpre | now exists (drop (S bs) content_)]].
    intros E. apply (f_equal String.length) in E.
    rewrite length_take in E by lia. simpl in E. lia.
  - destruct (0 <? bs)%nat eqn:Hpos; [discriminate|].
    apply Nat.ltb_ge in Hpos. assert (bs = 0) as -> by lia.
    destruct content_ as [|c r]; [discriminate|]. simpl in Hbs2.
    injection Hbs2 as ->. reflexivity.
  - destruct (is_empty (trim (drop (ci + 1) content_))) eqn:E;
      [discriminate|]. injection Hiv as <-.
    split; [|apply trim_idempotent].
    intros E'. rewrite E' in E. discriminate.
  - repeat split.
    + exact (get_includes _ _ _ Hbs2).
    + exact (get_includes _ _ _ Hbe2).
    + exact (get_includes _ _ _ Hci2).
Qed.

Lemma parseArrayHeaderLine_result_witness :
  parseArrayHeaderLine "items[2]: a,b" DEFAULT_DELIMITER
  = OK (Some ({| hkey := Some "items"; hlength := 2; hdelimiter := DelimComma;
                 hfields := None; hasLengthMarker := false |}, Some "a,b"))
  /\ ("items" <> ""
      /\ includes OPEN_BRACKET "items" = false
      /\ exists r, "items[2]: a,b" = ("items" ++ String OPEN_BRACKET r)%string).
Proof.
  split; [reflexivity|].
  exact (proj1 (parseArrayHeaderLine_result "items[2]: a,b" DEFAULT_DELIMITER
                  _ _ eq_refl) "items" eq_refl).
Defined.

Lemma charAt_is_get (i : nat) (s : string) (c : ascii) :
  charAt_is i s c = true -> String.get i s = Some c.
Proof.
  unfold charAt_is. destruct (String.get i s) as [a|]; [|discriminate].
  intros H. apply Ascii.eqb_eq in H. now subst.
Qed.

Lemma indexOf_aux_prefix (c : ascii) (s : string) :
  forall j k,
    indexOf_aux c s j = Some k -> includes c (take (k - j) s) = false.
Proof.
  induction s as [|x s IH]; intros j k H; [discriminate|].
  simpl in H. destruct (Ascii.eqb x c) eqn:Hx.
  - injection H as <-. now rewrite Nat.sub_diag.
  - pose proof (indexOf_aux_ge _ _ _ _ H).
    replace (k - j) with (S (k - S j)) by lia.
    simpl. rewrite Hx. simpl. now apply IH.
Qed.

(** X15. The index that [parseKeyToken] returns with a key lies after
    [start] and not beyond the end of the content, and the character just
    before it is the colon that closes the key; a key that was read
    without quotes has no white space around it and no colon in it. *)
Theorem parseKeyToken_end (content_ : string) (start : nat) (k : string)
    (e : nat) (H : parseKeyToken content_ start = OK (k, e)) :
  start < e /\ e <= String.length content_
  /\ String.get (e - 1) content_ = Some COLON
  /\ (charAt_is start content_ DOUBLE_QUOTE = false ->
      trim k = k
      /\ k = trim (slice start (e - 1) content_)
      /\ includes COLON (slice start (e - 1) content_) = false).
Proof.
  unfold parseKeyToken in H.
  destruct (charAt_is start content_ DOUBLE_QUOTE) eqn:Hq.
  - unfold parseQuotedKey in H.
    destruct (findClosingQuote content_ start) as [cq|] eqn:Hcq; [|discriminate].
    destruct (findClosingQuote_sound_lemma _ _ _ Hcq) as (H1 & H2 & _).
    destruct (unescapeString _) as [k'|]; [|discriminate]. simpl in H.
    destruct (String.length content_ <=? cq + 1)%nat eqn:Hlen;
      [discriminate|]. apply Nat.leb_gt in Hlen.
    destruct (charAt_is (cq + 1) content_ COLON) eqn:Hc; [|discriminate].
    simpl in H. injection H as <- <-.
    replace (cq + 1 + 1 - 1) with (cq + 1) by lia.
    repeat split; [lia|lia|now apply charAt_is_get|discriminate..].
  - unfold parseUnquotedKey in H.
    destruct (indexOf COLON start content_) as [i|] eqn:Hi; [|discriminate].
    injection H as <- <-.
    destruct (indexOf_sound _ _ _ _ Hi) as (H1 & H2 & H3).
    replace (i + 1 - 1) with i by lia.
    repeat split; [lia|lia|exact H3|apply trim_idempotent|].
    unfold slice, indexOf in *. now apply indexOf_aux_prefix.
Qed.

Lemma parseKeyToken_end_witness :
  parseKeyToken "  name : x" 0 = OK ("name", 8)
  /\ String.get (8 - 1) "  name : x" = Some COLON.
Proof.
  split; [reflexivity|].
  exact (proj1 (proj2 (proj2 (parseKeyToken_end "  name : x" 0 "name" 8
                                eq_refl)))).
Defined.

(* ================================================================= *)
(** ** decode/scanner.ts: what the scan records *)

Lemma parsed_blank_count (indentSize : nat) (raws : list string) :
  forall n,
    List.length (parsed_lines indentSize raws n)
    + List.length (blank_lines indentSize raws n) = List.length raws.
Proof.
  induction raws as [|r0 raws IH]; intros n; [reflexivity|].
  simpl. destruct (all_whitespace r0); simpl; rewrite <- (IH (S n)); lia.
Qed.

Lemma parsed_lines_increasing (indentSize : nat) (raws : list string) :
  forall n i j l1 l2,
    i < j ->
    nth_error (parsed_lines indentSize raws n) i = Some l1 ->
    nth_error (parsed_lines indentSize raws n) j = Some l2 ->
    n <= lineNumber l1 /\ lineNumber l1 < lineNumber l2.
Proof.
  induction raws as [|r0 raws IH]; intros n i j l1 l2 Hij H1 H2.
  - now destruct i.
  - simpl in H1, H2. destruct (all_whitespace r0).
    + destruct (IH _ _ _ _ _ Hij H1 H2). lia.
    + destruct j as [|j]; [lia|]. destruct i as [|i].
      * injection H1 as <-. simpl. split; [lia|].
        simpl in H2. apply nth_error_In in H2.
        destruct (parsed_lines_spec _ _ _ _ H2) as (_ & _ & _ & _ & k & _ & E).
        lia.
      * simpl in H1, H2. destruct (IH (S n) i j l1 l2) as [Ha Hb];
          [lia | exact H1 | exact H2 |]. lia.
Qed.

Lemma blank_lines_spec (indentSize : nat) (raws : list string) :
  forall n b,
    In b (blank_lines indentSize raws n) ->
    exists k r,
      nth_error raws k = Some r /\ all_whitespace r = true
      /\ blank_lineNumber b = n + k /\ blank_indent b = space_indent r
      /\ blank_depth b = space_indent r / indentSize.
Proof.
  induction raws as [|r0 raws IH]; intros n b Hin; [contradiction|].
  simpl in Hin. destruct (all_whitespace r0) eqn:Hb.
  - destruct Hin as [<-|Hin].
    + exists 0, r0. simpl. repeat split; [exact Hb | lia].
    + destruct (IH _ _ Hin) as (k & r & H1 & H2 & H3 & H4 & H5).
      exists (S k), r. repeat split; try assumption. lia.
  - destruct (IH _ _ Hin) as (k & r & H1 & H2 & H3 & H4 & H5).
    exists (S k), r. repeat split; try assumption. lia.
Qed.

(** X16. What a scan that succeeds has recorded.  For a source that is
    all white space, nothing, not even its blank lines.  For any other
    source every raw line is recorded once, as a parsed line or as a blank
    line: the two counts add up to the number of raw lines, a blank-line
    record carries the number and the indent of a raw line that is blank
    and, for a positive indent size, its depth, the line numbers of the
    parsed lines increase, and no number is both the one of a parsed line
    and the one of a blank line. *)
Theorem toParsedLines_partition (source : string) (indentSize : nat)
    (strict : bool) (sr : ScanResult)
    (H : toParsedLines source indentSize strict = OK sr) :
  (all_whitespace source = true -> lines sr = [] /\ blankLines sr = [])
  /\ (all_whitespace source = false ->
      List.length (lines sr) + List.length (blankLines sr)
      = List.length (split_lines source)
      /\ (0 < indentSize ->
          blankLines sr = blank_lines indentSize (split_lines source) 1)
      /\ (forall b, In b (blankLines sr) ->
            exists k r,
              nth_error (split_lines source) k = Some r
              /\ all_whitespace r = true
              /\ blank_lineNumber b = S k /\ blank_indent b = space_indent r
              /\ (0 < indentSize ->
                  blank_depth b = space_indent r / indentSize))
      /\ (forall i j l1 l2,
            i < j -> nth_error (lines sr) i = Some l1 ->
            nth_error (lines sr) j = Some l2 ->
            lineNumber l1 < lineNumber l2)
      /\ (forall l b, In l (lines sr) -> In b (blankLines sr) ->
                      lineNumber l <> blank_lineNumber b)).
Proof.
  split.
  - intros Hb. unfold toParsedLines in H. rewrite trim_is_empty, Hb in H.
    now injection H as <-.
  - intros Hb. destruct (toParsedLines_exact _ _ _ _ H Hb) as (Hl & Hbl & _).
    rewrite Hl, Hbl. split; [apply parsed_blank_count|].
    split; [reflexivity|]. split; [|split].
    + intros b Hin. apply blank_lines_spec in Hin.
      destruct Hin as (k & r & H1 & H2 & H3 & H4 & H5). exists k, r.
      split; [exact H1|]. split; [exact H2|]. split; [exact H3|].
      split; [exact H4 | intros _; exact H5].
    + intros i j l1 l2 Hij H1 H2.
      now destruct (parsed_lines_increasing _ _ _ _ _ _ _ Hij H1 H2).
    + intros l b Hl' Hb' E.
      destruct (parsed_lines_spec _ _ _ _ Hl') as (_ & _ & _ & Hnb & k & Hk & En).
      destruct (blank_lines_spec _ _ _ _ Hb') as (k' & r & Hk' & Hw & En' & _).
      assert (k = k') by lia. subst k'. congruence.
Qed.

Lemma toParsedLines_partition_witness :
  exists sr,
    toParsedLines ("a:" ++ String NEWLINE ("  " ++ String NEWLINE "  b: 1")) 2
      true = OK sr
    /\ List.length (lines sr) + List.length (blankLines sr) = 3
    /\ blankLines sr
       = [{| blank_lineNumber := 2; blank_indent := 2; blank_depth := 1 |}].
Proof.
  eexists. split; [reflexivity|].
  destruct (toParsedLines_partition
              ("a:" ++ String NEWLINE ("  " ++ String NEWLINE "  b: 1")) 2
              true _ eq_refl) as [_ Hp].
  destruct (Hp eq_refl) as (Hcount & Hblank & _).
  split; [exact Hcount | apply Hblank; lia].
Defined.

Lemma count_leading_spaces (raw_ : string) :
  raw_ = (spaces (space_indent raw_) ++ drop (space_indent raw_) raw_)%string
  /\ startsWith SPACE (drop (space_indent raw_) raw_) = false.
Proof.
  unfold space_indent. induction raw_ as [|c r IH]; [now split|].
  simpl. destruct (Ascii.eqb_spec c SPACE) as [->|Hc].
  - destruct IH as [IH1 IH2]. simpl. split; [now rewrite <- IH1 | exact IH2].
  - simpl. split; [reflexivity | now apply Ascii.eqb_neq].
Qed.

Lemma tab_after_indent (raw_ : string) :
  startsWith TAB (drop (space_indent raw_) raw_) = true ->
  tab_in_leading_whitespace raw_ = true.
Proof.
  unfold space_indent, tab_in_leading_whitespace.
  induction raw_ as [|c r IH]; [discriminate|].
  simpl. destruct (Ascii.eqb_spec c SPACE) as [->|Hc]; simpl.
  - intros H. reduce_eqb. simpl. now apply IH.
  - intros H. apply Ascii.eqb_eq in H. subst c. reduce_eqb. simpl.
    reduce_eqb. reflexivity.
Qed.

(** X17. Every parsed line of a scan that succeeds: its raw text is its
    indent in spaces followed by its content; the content is not blank
    and does not begin with a space; and in strict mode, for a positive
    indent size, the indent is exactly the depth times the indent size and
    the content does not begin with a tab. *)
Theorem toParsedLines_line (source : string) (indentSize : nat)
    (strict : bool) (sr : ScanResult) (l : ParsedLine)
    (H : toParsedLines source indentSize strict = OK sr)
    (Hin : In l (lines sr)) :
  raw l = (spaces (indent l) ++ content l)%string
  /\ startsWith SPACE (content l) = false
  /\ is_empty (trim (content l)) = false
  /\ (strict = true -> 0 < indentSize ->
      indent l = indentSize * depth l
      /\ startsWith TAB (content l) = false).
Proof.
  destruct (all_whitespace source) eqn:Hb.
  { unfold toParsedLines in H. rewrite trim_is_empty, Hb in H.
    injection H as <-. contradiction. }
  destruct (toParsedLines_exact _ _ _ _ H Hb) as (Hl & _ & Hstrict).
  rewrite Hl in Hin.
  destruct (parsed_lines_spec _ _ _ _ Hin) as (Hd & Hi & Hc & Hnb & k & Hk & Hn).
  destruct (count_leading_spaces (raw l)) as [Hraw Hsp].
  rewrite Hc, Hi. split; [exact Hraw|]. split; [exact Hsp|].
  split; [now rewrite blank_content|].
  intros Hs Hpos. specialize (Hstrict Hs k (raw l) Hk).
  unfold strict_line_error in Hstrict. rewrite Hnb in Hstrict.
  destruct (tab_in_leading_whitespace (raw l)) eqn:Ht; [discriminate|].
  destruct ((0 <? space_indent (raw l))%nat
            && negb (space_indent (raw l) mod indentSize =? 0)%nat) eqn:Hm;
    [discriminate|].
  split.
  - rewrite Hd, Hi. apply andb_false_iff in Hm. destruct Hm as [Hm|Hm].
    + apply Nat.ltb_ge in Hm. assert (space_indent (raw l) = 0) as -> by lia.
      rewrite Nat.Div0.div_0_l. lia.
    + apply negb_false_iff, Nat.eqb_eq in Hm.
      apply Nat.Div0.div_exact in Hm. exact Hm.
  - destruct (startsWith TAB (drop (space_indent (raw l)) (raw l))) eqn:E;
      [|reflexivity].
    apply tab_after_indent in E. congruence.
Qed.

Lemma toParsedLines_line_witness :
  toParsedLines ("a:" ++ String NEWLINE "    b: 1") 2 true
  = OK {| lines := [ {| raw := "a:"; depth := 0; indent := 0; content := "a:";
                        lineNumber := 1 |};
                     {| raw := "    b: 1"; depth := 2; indent := 4;
                        content := "b: 1"; lineNumber := 2 |} ];
          blankLines := [] |}
  /\ "    b: 1" = (spaces 4 ++ "b: 1")%string.
Proof.
  split; [reflexivity|].
  exact (proj1 (toParsedLines_line ("a:" ++ String NEWLINE "    b: 1") 2 true
                  _ {| raw := "    b: 1"; depth := 2; indent := 4;
                       content := "b: 1"; lineNumber := 2 |}
                  eq_refl (or_intror (or_introl eq_refl)))).
Defined.

(** X18. Strict mode only rejects: a scan without strict mode never
    fails, and a scan that succeeds in strict mode has the result of the
    scan without strict mode. *)
Theorem toParsedLines_strict_filter (source : string) (indentSize : nat) :
  (exists sr, toParsedLines source indentSize false = OK sr)
  /\ (forall sr,
        toParsedLines source indentSize true = OK sr ->
        toParsedLines source indentSize false = OK sr).
Proof.
  unfold toParsedLines. destruct (is_empty (trim source)).
  - split; [now eexists | now intros sr H].
  - rewrite toParsedLines_loop_lenient. split; [now eexists|].
    intros sr H.
    destruct (toParsedLines_loop _ _ _ true) as [[p b]|] eqn:Hloop;
      [|discriminate].
    destruct (toParsedLines_loop_exact _ _ _ _ _ _ Hloop) as (-> & -> & _).
    exact H.
Qed.

(* ================================================================= *)
(** ** decode/scanner.ts: the line cursor *)

(** X19. The protocol of the line cursor: it is at its end exactly when
    there is no line to peek at; [next] returns the line that [peek] shows
    and moves on by one line; after a move, [current] is the line that was
    peeked at; and there is more at a depth exactly when the line to peek
    at has that depth.  Moving on changes neither the lines nor the blank
    lines. *)
Theorem cursor_protocol (c : LineCursor) :
  (atEnd c = true <-> peek c = None)
  /\ next c = (peek c, advance c)
  /\ current (advance c) = peek c
  /\ (forall d,
        hasMoreAtDepth c d = true
        <-> exists l, peek c = Some l /\ depth l = d)
  /\ cursor_length (advance c) = cursor_length c
  /\ getBlankLines (advance c) = getBlankLines c.
Proof.
  split.
  { unfold atEnd, peek. rewrite Nat.leb_le. symmetry. apply nth_error_None. }
  split; [reflexivity|]. split.
  { unfold current, advance, peek. simpl.
    replace (0 <? cur_index c + 1)%nat with true
      by (symmetry; apply Nat.ltb_lt; lia).
    now replace (cur_index c + 1 - 1) with (cur_index c) by lia. }
  split; [|split; reflexivity].
  intros d. unfold hasMoreAtDepth, peekAtDepth.
  destruct (peek c) as [l|].
  - destruct (depth l <? d)%nat eqn:Hlt.
    + apply Nat.ltb_lt in Hlt. split; [discriminate|].
      intros (l' & [= <-] & E). lia.
    + destruct (depth l =? d)%nat eqn:Heq.
      * apply Nat.eqb_eq in Heq. split; [|reflexivity].
        intros _. now exists l.
      * apply Nat.eqb_neq in Heq. split; [discriminate|].
        intros (l' & [= <-] & E). contradiction.
  - split; [discriminate | now intros (l & Hl & _)].
Qed.

(* ================================================================= *)
(** ** encode/writer.ts and decode/scanner.ts: lines written, lines read *)

Lemma push_all_lines (indentSize : nat) (ps : list (nat * string)) :
  forall w,
    push_all indentSize w ps
    = w ++ map (fun p => (spaces (indentSize * fst p) ++ snd p)%string) ps.
Proof.
  unfold push_all. induction ps as [|p ps IH]; intros w; simpl.
  - now rewrite app_nil_r.
  - rewrite IH. unfold writer_push. now rewrite <- app_assoc.
Qed.

Lemma split_lines_append (a b : string) :
  includes NEWLINE a = false ->
  split_lines (a ++ String NEWLINE b) = a :: split_lines b.
Proof.
  induction a as [|c a IH]; intros H; simpl.
  - now reduce_eqb.
  - simpl in H. apply orb_false_elim in H. destruct H as [Hc Ha].
    now rewrite Hc, (IH Ha).
Qed.

Lemma split_lines_join (ls : list string) :
  ls <> [] -> Forall (fun l => includes NEWLINE l = false) ls ->
  split_lines (join (String NEWLINE "") ls) = ls.
Proof.
  intros Hne H. induction H as [|l ls Hl Hls IH]; [contradiction|].
  simpl. destruct ls as [|l' ls'].
  - now apply split_lines_no_newline.
  - change (l ++ String NEWLINE "" ++ join (String NEWLINE "") (l' :: ls'))%string
      with (l ++ String NEWLINE (join (String NEWLINE "") (l' :: ls')))%string.
    rewrite split_lines_append by exact Hl. f_equal. now apply IH.
Qed.

Lemma length_spaces (n : nat) : String.length (spaces n) = n.
Proof. induction n as [|n IH]; simpl; [reflexivity | now rewrite IH]. Qed.

Lemma includes_spaces (x : ascii) (n : nat) :
  Ascii.eqb SPACE x = false -> includes x (spaces n) = false.
Proof. intros Hx. induction n as [|n IH]; simpl; [reflexivity | now rewrite Hx]. Qed.

Lemma count_leading_spaces_append (p : ascii -> bool) (n : nat) (c : string) :
  p SPACE = true ->
  match c with String x _ => p x = false | EmptyString => True end ->
  count_leading p (spaces n ++ c) = n.
Proof.
  intros Hp Hc. induction n as [|n IH]; simpl.
  - destruct c as [|x r]; [reflexivity | simpl; now rewrite Hc].
  - now rewrite Hp, IH.
Qed.

Lemma take_spaces (n : nat) (c : string) : take n (spaces n ++ c) = spaces n.
Proof.
  rewrite <- (length_spaces n) at 1. apply take_append.
Qed.

Lemma drop_spaces (n : nat) (c : string) : drop n (spaces n ++ c) = c.
Proof.
  rewrite <- (length_spaces n) at 1. apply drop_append.
Qed.

Lemma line_content_facts (c : string) :
  line_content c = true ->
  all_whitespace c = false /\ startsWith SPACE c = false
  /\ startsWith TAB c = false /\ includes NEWLINE c = false.
Proof.
  unfold line_content. intros H.
  repeat (apply andb_true_iff in H; destruct H as [H ?]).
  repeat split; now apply negb_true_iff.
Qed.

Lemma toParsedLines_loop_pushed (indentSize : nat) (strict : bool)
    (ps : list (nat * string)) :
  0 < indentSize ->
  forallb (fun p => line_content (snd p)) ps = true ->
  forall n,
    toParsedLines_loop
      (map (fun p => (spaces (indentSize * fst p) ++ snd p)%string) ps)
      n indentSize strict
    = OK (pushed_lines indentSize ps n, []).
Proof.
  intros Hpos. induction ps as [|[d c] ps IH]; intros Hps n; [reflexivity|].
  simpl in Hps. apply andb_true_iff in Hps. destruct Hps as [Hc Hps].
  destruct (line_content_facts c Hc) as (Hnb & Hsp & Htab & _).
  cbn [map fst snd toParsedLines_loop pushed_lines].
  rewrite count_leading_spaces_append, count_leading_spaces_append;
    [ | reflexivity
      | destruct c as [|x r]; [exact I|]; simpl in Hsp, Htab;
        now rewrite Hsp, Htab
      | apply Ascii.eqb_refl
      | destruct c as [|x r]; [exact I | exact Hsp] ].
  rewrite drop_spaces, take_spaces, trim_is_empty, Hnb.
  rewrite includes_spaces by reflexivity. rewrite andb_false_r.
  replace (indentSize * d mod indentSize =? 0)%nat with true
    by (symmetry; apply Nat.eqb_eq; rewrite Nat.mul_comm;
        apply Nat.Div0.mod_mul).
  cbn [negb]. rewrite andb_false_r.
  rewrite (IH Hps). cbn [bind]. unfold pushed_line, computeDepthFromIndent.
  cbn [fst snd]. rewrite Nat.mul_comm, Nat.div_mul by lia. reflexivity.
Qed.

Lemma toParsedLines_pushed (indentSize : nat) (strict : bool)
    (ps : list (nat * string))
    (Hsize : 0 < indentSize) (Hps : ps <> [])
    (Hcontent : forallb (fun p => line_content (snd p)) ps = true) :
  toParsedLines (writer_toString (push_all indentSize [] ps)) indentSize strict
  = OK {| lines := pushed_lines indentSize ps 1; blankLines := [] |}.
Proof.
  rewrite push_all_lines. cbn [app]. unfold writer_toString, toParsedLines.
  set (raws := map (fun p => (spaces (indentSize * fst p) ++ snd p)%string) ps).
  assert (Hsplit : split_lines (join (String NEWLINE "") raws) = raws).
  { apply split_lines_join.
    - subst raws. destruct ps; [contradiction | discriminate].
    - subst raws. apply Forall_map, Forall_forall. intros p Hin.
      rewrite forallb_forall in Hcontent.
      destruct (line_content_facts _ (Hcontent p Hin)) as (_ & _ & _ & Hnl).
      rewrite includes_append, Hnl, includes_spaces by reflexivity.
      reflexivity. }
  rewrite trim_is_empty, all_whitespace_split_lines, Hsplit.
  assert (Hblank : forallb all_whitespace raws = false).
  { subst raws. destruct ps as [|[d c] ps']; [contradiction|].
    simpl in Hcontent. apply andb_true_iff in Hcontent.
    destruct Hcontent as [Hc _].
    destruct (line_content_facts c Hc) as (Hnb & _).
    cbn [map forallb fst snd]. apply andb_false_iff. left.
    clear - Hnb. induction (indentSize * d) as [|m IH]; [exact Hnb|].
    simpl. exact IH. }
  rewrite Hblank. subst raws.
  now rewrite (toParsedLines_loop_pushed indentSize strict ps Hsize Hcontent).
Qed.

(** X20. Lines written, lines read.  The text of a writer into which
    contents were pushed at depths, each content one line that is not
    blank and begins with neither a space nor a tab, is scanned back, in
    strict mode and without it and for the same positive indent size,
    into one parsed line for each push, in order, with the depth and the
    content that were pushed, and no blank line. *)
Theorem writer_scanner_roundtrip (indentSize : nat) (strict : bool)
    (ps : list (nat * string))
    (Hsize : 0 < indentSize) (Hps : ps <> [])
    (Hcontent : forallb (fun p => line_content (snd p)) ps = true) :
  toParsedLines (writer_toString (push_all indentSize [] ps)) indentSize strict
  = OK {| lines := pushed_lines indentSize ps 1; blankLines := [] |}.
Proof. exact (toParsedLines_pushed indentSize strict ps Hsize Hps Hcontent). Qed.

Lemma writer_scanner_roundtrip_witness :
  writer_toString (push_all 2 [] [(0, "a:"); (1, "b: 1"); (1, "- x")])
  = ("a:" ++ String NEWLINE ("  b: 1" ++ String NEWLINE "  - x"))%string
  /\ toParsedLines
       (writer_toString (push_all 2 [] [(0, "a:"); (1, "b: 1"); (1, "- x")]))
       2 true
     = OK {| lines := pushed_lines 2 [(0, "a:"); (1, "b: 1"); (1, "- x")] 1;
             blankLines := [] |}.
Proof.
  split; [reflexivity|].
  apply (writer_scanner_roundtrip 2 true [(0, "a:"); (1, "b: 1"); (1, "- x")]);
    [lia | discriminate | reflexivity].
Defined.

(* ================================================================= *)
(** ** decode/decoders.ts and index.ts: the exceptions of [decode] *)

Ltac raises_step_eq :=
  match goal with
  | |- raises_only _ (OK _) => apply raises_only_OK
  | |- raises_only _ (Err _) => apply raises_only_Err
  | |- raises_only _ (bind _ _) => apply raises_only_bind; [|intros]
  | |- raises_only _ (mapM _ _) => apply raises_only_mapM; intros
  | |- raises_only _ (if ?b then _ else _) => destruct b
  | |- raises_only _ (match ?x with _ => _ end) =>
      let E := fresh "E" in destruct x eqn:E
  | |- raises_only _ (let (_, _) := ?x in _) => destruct x
  end.

Section DecoderNever.

Variable V : Validators.

(** A syntax error, an error of the checks, or the end of the fuel. *)
Let Q (e : error) : Prop :=
  is_SyntaxError e = true \/ (exists v, e = Validation v) \/ e = OutOfFuel.

Lemma Q_syntax (e : error) : is_SyntaxError e = true -> Q e.
Proof. intros H. now left. Qed.

Lemma Q_validation (v : validation_error) : Q (Validation v).
Proof. right. left. now exists v. Qed.

Lemma Q_fuel : Q OutOfFuel.
Proof. right. now right. Qed.

Local Arguments parseArrayHeaderLine : simpl never.
Local Arguments parsePrimitiveToken : simpl never.
Local Arguments parseKeyToken : simpl never.
Local Arguments decodeTabularArray : simpl never.
Local Arguments decodeInlinePrimitiveArray : simpl never.
Local Arguments isArrayHeaderAfterHyphen : simpl never.
Local Arguments isObjectFirstFieldAfterHyphen : simpl never.
Local Arguments String.length : simpl never.
Local Arguments startsWithStr : simpl never.
Local Arguments peek : simpl never.
Local Arguments atEnd : simpl never.
Local Arguments current : simpl never.
Local Arguments advance : simpl never.

(** The decoders ask for a list item only where there is a line. *)
Lemma raises_decoders_item (fuel : nat) :
  (forall c d o obj, raises_only Q (decodeObject_loop V fuel c d o obj))
  /\ (forall s c d o, raises_only Q (decodeKeyValue V fuel s c d o))
  /\ (forall l c d o, raises_only Q (decodeKeyValuePair V fuel l c d o))
  /\ (forall h iv c d o, raises_only Q (decodeArrayFromHeader V fuel h iv c d o))
  /\ (forall h c d o, raises_only Q (decodeListArray V fuel h c d o))
  /\ (forall h c d o items sl el,
        raises_only Q (decodeListArray_loop V fuel h c d o items sl el))
  /\ (forall c d a o,
        peek c <> None -> raises_only Q (decodeListItem V fuel c d a o))
  /\ (forall l c d o, raises_only Q (decodeObjectFromListItem V fuel l c d o))
  /\ (forall c d o obj,
        raises_only Q (decodeObjectFromListItem_loop V fuel c d o obj)).
Proof.
  pose proof (raises_parsePrimitiveToken Q Q_syntax) as L1.
  pose proof (raises_parseKeyToken Q Q_syntax) as L2.
  pose proof (raises_parseArrayHeaderLine Q Q_syntax) as L3.
  pose proof (raises_check Q Q_validation) as L4.
  pose proof (raises_decodeInlinePrimitiveArray V Q Q_syntax Q_validation) as L5.
  pose proof (raises_decodeTabularArray V Q Q_syntax Q_validation Q_fuel) as L6.
  induction fuel as [|f IH].
  - repeat split; intros; simpl; apply raises_only_Err, Q_fuel.
  - destruct IH as (IH1 & IH2 & IH3 & IH4 & IH5 & IH6 & IH7 & IH8 & IH9).
    repeat match goal with |- _ /\ _ => split end; intros; simpl;
      unfold next; repeat raises_step_eq; auto;
      try (apply IH7; congruence).
    exfalso. unfold peek in *. congruence.
Qed.

Lemma raises_decodeValueFromLines_item (fuel : nat) (c : LineCursor)
    (o : ResolvedDecodeOptions) :
  peek c <> None -> raises_only Q (decodeValueFromLines V fuel c o).
Proof.
  intros Hpeek. unfold decodeValueFromLines, decodeObject.
  destruct (raises_decoders_item fuel)
    as (IH1 & IH2 & IH3 & IH4 & IH5 & IH6 & IH7 & IH8 & IH9).
  pose proof (raises_parsePrimitiveToken Q Q_syntax) as L1.
  pose proof (raises_parseArrayHeaderLine Q Q_syntax) as L3.
  destruct (peek c) as [first|]; [|contradiction].
  repeat raises_step_eq; auto.
Qed.

Lemma decode_raises_only (source : string) (options : ResolvedDecodeOptions)
    (e : error) :
  decode V source options = Err e ->
  e = TypeError_EmptyInput \/ is_SyntaxError e = true
  \/ exists v, e = Validation v.
Proof.
  intros H. pose proof (decode_fuel_enough V source options) as Hfuel.
  rewrite H in Hfuel. unfold decode in H.
  pose proof (toParsedLines_result source (opt_indent options)
                (opt_strict options)) as Hscan.
  destruct (toParsedLines source (opt_indent options) (opt_strict options))
    as [sr|e0]; simpl in H.
  - destruct (List.length (lines sr) =? 0)%nat eqn:Hlen;
      [injection H as <-; now left|].
    apply raises_decodeValueFromLines_item in H.
    + destruct H as [H|[H|H]]; [now right; left | now right; right|].
      subst e. now contradiction Hfuel.
    + unfold peek, newLineCursor. simpl.
      destruct (lines sr); [discriminate Hlen | discriminate].
  - injection H as <-. right. left. now destruct Hscan.
Qed.

End DecoderNever.

(** X21. The exceptions of [decode]: the type error for an input without
    content, a syntax error, or an error of the checks of
    decode/validation.ts.  It never raises the reference errors of
    [decodeValueFromLines] and [decodeListItem] nor the type error of
    [parseBracketSegment], and its recursion always comes to an end. *)
Theorem decode_raises (V : Validators) (source : string)
    (options : ResolvedDecodeOptions) (e : error)
    (H : decode V source options = Err e) :
  (e = TypeError_EmptyInput \/ is_SyntaxError e = true
   \/ exists v, e = Validation v)
  /\ e <> ReferenceError_NoContent
  /\ e <> ReferenceError_ExpectedListItem
  /\ (forall seg, e <> TypeError_InvalidArrayLength seg)
  /\ e <> OutOfFuel.
Proof.
  pose proof (decode_raises_only V source options e H) as Hc.
  split; [exact Hc|].
  split; [intros -> | split; [intros -> | split; [intros seg -> | intros ->]]];
    destruct Hc as [Hc|[Hc|[v Hc]]]; discriminate.
Qed.

Lemma decode_raises_witness :
  decode spec_validators ("a: " ++ String DOUBLE_QUOTE "x")
    (resolveDecodeOptions None None)
  = Err SyntaxError_UnterminatedString
  /\ SyntaxError_UnterminatedString <> ReferenceError_ExpectedListItem.
Proof.
  split; [reflexivity|].
  exact (proj1 (proj2 (proj2 (decode_raises spec_validators
                                ("a: " ++ String DOUBLE_QUOTE "x")
                                (resolveDecodeOptions None None)
                                SyntaxError_UnterminatedString eq_refl)))).
Defined.

(* ================================================================= *)
(** ** decode/decoders.ts: how the decoders move the cursor *)

Lemma atEnd_false_lt (c : LineCursor) :
  atEnd c = false -> cur_index c < List.length (cur_lines c).
Proof. unfold atEnd. intros H. now apply Nat.leb_gt in H. Qed.

Ltac fwd_facts :=
  repeat match goal with
    | H : peek ?c = Some _ |- _ => apply peek_Some_remaining in H
    | H : nth_error (cur_lines ?c) (cur_index ?c) = Some _ |- _ =>
        apply nth_error_Some_lt in H
    | H : atEnd ?c = false |- _ => apply atEnd_false_lt in H
    end.

Ltac fwd_solve :=
  fwd_facts; unfold cursor_fwd, advance in *; cbn [cur_lines cur_index cur_blankLines] in *;
  repeat match goal with H : _ /\ _ |- _ => destruct H end;
  repeat match goal with
    | H : cur_lines ?a = cur_lines ?b |- _ => rewrite H in *; clear H
    | H : cur_blankLines ?a = cur_blankLines ?b |- _ => rewrite H in *; clear H
    end;
  repeat split; try reflexivity; try lia.

Ltac fwd_use lem :=
  match goal with
  | H : _ = OK _ |- _ => apply lem in H
  end.

Section CursorForward.

Variable V : Validators.

Local Arguments parseArrayHeaderLine : simpl never.
Local Arguments parsePrimitiveToken : simpl never.
Local Arguments parseKeyToken : simpl never.
Local Arguments decodeInlinePrimitiveArray : simpl never.
Local Arguments isArrayHeaderAfterHyphen : simpl never.
Local Arguments isObjectFirstFieldAfterHyphen : simpl never.
Local Arguments parseDelimitedValues : simpl never.
Local Arguments mapRowValuesToPrimitives : simpl never.
Local Arguments String.length : simpl never.
Local Arguments startsWithStr : simpl never.
Local Arguments peek : simpl never.
Local Arguments atEnd : simpl never.
Local Arguments current : simpl never.
Local Arguments advance : simpl never.
Local Arguments check : simpl never.
Local Arguments Z.of_nat : simpl never.
Local Arguments Z.ltb : simpl never.

Lemma cursor_fwd_refl (c : LineCursor) : cursor_fwd c c.
Proof. unfold cursor_fwd. repeat split; lia. Qed.

Lemma decodeTabularArray_loop_fwd (fuel : nat) :
  forall h c d o objs sl el objs' sl' el' c',
    decodeTabularArray_loop V fuel h c d o objs sl el
    = OK (objs', sl', el', c') ->
    cursor_fwd c c'.
Proof.
  induction fuel as [|f IH]; intros h c d o objs sl el objs' sl' el' c' H;
    [discriminate|].
  simpl in H.
  destruct (negb (atEnd c) && _); [|inv_OK H; apply cursor_fwd_refl].
  destruct (peek c) as [line|] eqn:Hpeek; [|inv_OK H; apply cursor_fwd_refl].
  destruct (depth line <? d)%nat; [inv_OK H; apply cursor_fwd_refl|].
  destruct (depth line =? d)%nat; [|inv_OK H; apply cursor_fwd_refl].
  destruct (check _) as [[]|e]; [|discriminate]. simpl in H.
  destruct (mapRowValuesToPrimitives _) as [ps|e]; [|discriminate].
  simpl in H. apply IH in H. fwd_solve.
Qed.

Lemma decodeTabularArray_fwd (fuel : nat) h c d o objs c' :
  decodeTabularArray V fuel h c d o = OK (objs, c') -> cursor_fwd c c'.
Proof.
  unfold decodeTabularArray.
  destruct (decodeTabularArray_loop V fuel h c (d + 1) o [] None None)
    as [[[[objs0 sl] el] c0]|e] eqn:Hloop; [|discriminate].
  apply decodeTabularArray_loop_fwd in Hloop. simpl. intros H.
  repeat match type of H with
         | bind ?r _ = _ => destruct r; [|discriminate]; simpl in H
         end.
  now injection H as <- <-.
Qed.

Local Arguments decodeTabularArray : simpl never.

Lemma decoders_fwd (fuel : nat) :
  (forall c d o obj r c',
     decodeObject_loop V fuel c d o obj = OK (r, c') -> cursor_fwd c c')
  /\ (forall s c d o k v fd c',
        decodeKeyValue V fuel s c d o = OK (k, v, fd, c') -> cursor_fwd c c')
  /\ (forall l c d o k v c',
        decodeKeyValuePair V fuel l c d o = OK (k, v, c') ->
        cursor_fwd (advance c) c')
  /\ (forall h iv c d o r c',
        decodeArrayFromHeader V fuel h iv c d o = OK (r, c') -> cursor_fwd c c')
  /\ (forall h c d o r c',
        decodeListArray V fuel h c d o = OK (r, c') -> cursor_fwd c c')
  /\ (forall h c d o items sl el r sl' el' c',
        decodeListArray_loop V fuel h c d o items sl el = OK (r, sl', el', c') ->
        cursor_fwd c c')
  /\ (forall c d a o r c',
        decodeListItem V fuel c d a o = OK (r, c') ->
        peek c <> None /\ cursor_fwd (advance c) c')
  /\ (forall l c d o r c',
        decodeObjectFromListItem V fuel l c d o = OK (r, c') ->
        cursor_fwd c c')
  /\ (forall c d o obj r c',
        decodeObjectFromListItem_loop V fuel c d o obj = OK (r, c') ->
        cursor_fwd c c').
Proof.
  induction fuel as [|f IH].
  - repeat split; intros; discriminate.
  - destruct IH as (IH1 & IH2 & IH3 & IH4 & IH5 & IH6 & IH7 & IH8 & IH9).
    repeat match goal with |- _ /\ _ => split end;
      intros;
      match goal with
      | H : _ = OK _ |- _ => simpl in H; unfold next in H; inv_OK H
      end;
      repeat first
        [ fwd_use IH1 | fwd_use IH2 | fwd_use IH3 | fwd_use IH4
        | fwd_use IH5 | fwd_use IH6 | fwd_use IH7 | fwd_use IH8
        | fwd_use IH9 | fwd_use decodeTabularArray_fwd ];
      try (split; [unfold peek; congruence|]);
      fwd_solve.
Qed.

End CursorForward.

(** X22. How the decoders move the line cursor: over the same lines and
    blank lines, never backwards, and never past the end of the lines.
    [decodeObject] and [decodeArrayFromHeader] may leave it where it was;
    [decodeKeyValuePair] moves it by one line at least, and so does
    [decodeListItem], which returns only when there was a line. *)
Theorem decoders_move_forward (V : Validators) (fuel : nat) :
  (forall c d o r c',
     decodeObject V fuel c d o = OK (r, c') -> cursor_fwd c c')
  /\ (forall h iv c d o r c',
        decodeArrayFromHeader V fuel h iv c d o = OK (r, c') -> cursor_fwd c c')
  /\ (forall l c d o k v c',
        decodeKeyValuePair V fuel l c d o = OK (k, v, c') ->
        cursor_fwd (advance c) c' /\ cur_index c < cur_index c')
  /\ (forall c d a o r c',
        decodeListItem V fuel c d a o = OK (r, c') ->
        cursor_fwd (advance c) c'
        /\ cur_index c < cur_index c' <= List.length (cur_lines c)).
Proof.
  destruct (decoders_fwd V fuel)
    as (IH1 & IH2 & IH3 & IH4 & IH5 & IH6 & IH7 & IH8 & IH9).
  split; [intros c d o r c' H; exact (IH1 _ _ _ _ _ _ H)|].
  split; [exact IH4|]. split.
  - intros l c d o k v c' H. apply IH3 in H. split; [exact H|].
    destruct H as (_ & _ & H & _). simpl in H. lia.
  - intros c d a o r c' H. apply IH7 in H. destruct H as [Hp H].
    split; [exact H|]. destruct H as (_ & _ & H1 & H2). simpl in H1, H2.
    destruct (peek c) as [l|] eqn:E; [|contradiction].
    apply peek_Some_remaining in E. lia.
Qed.

Lemma decoders_move_forward_witness :
  decodeObject spec_validators 20
    (newLineCursor (parsed_lines 2 ["a: 1"; "b:"; "  c: 2"] 1) []) 0
    {| opt_indent := 2; opt_strict := true |}
  = OK ([("a", JPrim (PNumber (Finite false 1 0)));
         ("b", JObject [("c", JPrim (PNumber (Finite false 2 0)))])],
        {| cur_lines := parsed_lines 2 ["a: 1"; "b:"; "  c: 2"] 1;
           cur_index := 3; cur_blankLines := [] |})
  /\ cursor_fwd (newLineCursor (parsed_lines 2 ["a: 1"; "b:"; "  c: 2"] 1) [])
       {| cur_lines := parsed_lines 2 ["a: 1"; "b:"; "  c: 2"] 1;
          cur_index := 3; cur_blankLines := [] |}.
Proof.
  split; [reflexivity|].
  exact (proj1 (decoders_move_forward spec_validators 20)
           (newLineCursor (parsed_lines 2 ["a: 1"; "b:"; "  c: 2"] 1) []) 0
           {| opt_indent := 2; opt_strict := true |}
           [("a", JPrim (PNumber (Finite false 1 0)));
            ("b", JObject [("c", JPrim (PNumber (Finite false 2 0)))])]
           {| cur_lines := parsed_lines 2 ["a: 1"; "b:"; "  c: 2"] 1;
              cur_index := 3; cur_blankLines := [] |} eq_refl).
Defined.

(* ================================================================= *)
(** ** decode/decoders.ts: the objects that are decoded *)

Lemma existsb_obj_set (x : string) (obj : JsonObject) (k : string)
    (v : JsonValue) :
  existsb (String.eqb x) (map fst (obj_set obj k v))
  = existsb (String.eqb x) (map fst obj) || String.eqb x k.
Proof.
  induction obj as [|[k0 v0] rest IH]; simpl.
  - now rewrite orb_false_r.
  - destruct (String.eqb_spec k0 k) as [->|Hk]; simpl.
    + destruct (String.eqb x k); [reflexivity | now rewrite orb_false_r].
    + now rewrite IH, orb_assoc.
Qed.

Lemma obj_set_distinct (obj : JsonObject) (k : string) (v : JsonValue) :
  distinct_keys (JObject obj) = true -> distinct_keys v = true ->
  distinct_keys (JObject (obj_set obj k v)) = true.
Proof.
  intros Hobj Hv. induction obj as [|[k0 v0] rest IH]; simpl in *.
  - now rewrite Hv.
  - apply andb_true_iff in Hobj. destruct Hobj as [Hkeys Hvals].
    apply andb_true_iff in Hkeys. destruct Hkeys as [Hk0 Hrest].
    apply andb_true_iff in Hvals. destruct Hvals as [Hv0 Hvals].
    destruct (String.eqb_spec k0 k) as [->|Hk]; simpl.
    + now rewrite Hk0, Hrest, Hv, Hvals.
    + assert (distinct (map fst rest)
              && forallb (fun kv => distinct_keys (snd kv)) rest = true) as H
          by now rewrite Hrest, Hvals.
      apply IH, andb_true_iff in H. destruct H as [H1 H2].
      rewrite existsb_obj_set, H1, H2, Hv0.
      apply negb_true_iff in Hk0. rewrite Hk0.
      destruct (String.eqb_spec k0 k); [contradiction | reflexivity].
Qed.

Lemma fill_row_distinct (flds : list string) (primitives : list JsonPrimitive) :
  forall i obj,
    distinct_keys (JObject obj) = true ->
    distinct_keys (JObject (fill_row flds primitives i obj)) = true.
Proof.
  induction flds as [|f flds IH]; intros i obj Hobj; [exact Hobj|].
  simpl. apply IH. apply obj_set_distinct; [exact Hobj|].
  now destruct (nth_error primitives i).
Qed.

Lemma forallb_snoc {A} (p : A -> bool) (l : list A) (a : A) :
  forallb p l = true -> p a = true -> forallb p (l ++ [a]) = true.
Proof. intros Hl Ha. rewrite forallb_app, Hl. simpl. now rewrite Ha. Qed.

Lemma forallb_primitives (ps : list JsonPrimitive) :
  forallb distinct_keys (map JPrim ps) = true.
Proof. induction ps as [|p ps IH]; [reflexivity | exact IH]. Qed.

Lemma singleton_distinct (k : string) (v : JsonValue) :
  distinct_keys v = true -> distinct_keys (JObject [(k, v)]) = true.
Proof. intros H. simpl. now rewrite H. Qed.

Ltac distinct_solve :=
  cbn [distinct_keys] in *;
  auto using obj_set_distinct, fill_row_distinct, forallb_snoc,
    forallb_primitives, singleton_distinct.

Section DecodedObjects.

Variable V : Validators.

Local Arguments parseArrayHeaderLine : simpl never.
Local Arguments parsePrimitiveToken : simpl never.
Local Arguments parseKeyToken : simpl never.
Local Arguments isArrayHeaderAfterHyphen : simpl never.
Local Arguments isObjectFirstFieldAfterHyphen : simpl never.
Local Arguments parseDelimitedValues : simpl never.
Local Arguments mapRowValuesToPrimitives : simpl never.
Local Arguments String.length : simpl never.
Local Arguments startsWithStr : simpl never.
Local Arguments peek : simpl never.
Local Arguments atEnd : simpl never.
Local Arguments current : simpl never.
Local Arguments advance : simpl never.
Local Arguments check : simpl never.
Local Arguments Z.of_nat : simpl never.
Local Arguments Z.ltb : simpl never.
Local Arguments obj_set : simpl never.
Local Arguments fill_row : simpl never.
Local Arguments distinct_keys : simpl never.

Lemma decodeTabularArray_loop_distinct (fuel : nat) :
  forall h c d o objs sl el objs' sl' el' c',
    decodeTabularArray_loop V fuel h c d o objs sl el
    = OK (objs', sl', el', c') ->
    forallb distinct_keys objs = true ->
    forallb distinct_keys objs' = true.
Proof.
  induction fuel as [|f IH];
    intros h c d o objs sl el objs' sl' el' c' H Hobjs; [discriminate|].
  simpl in H. inv_OK H; try assumption.
  apply IH in H; [exact H|]. apply forallb_snoc; [exact Hobjs|].
  now apply fill_row_distinct.
Qed.

Lemma decodeTabularArray_distinct (fuel : nat) h c d o objs c' :
  decodeTabularArray V fuel h c d o = OK (objs, c') ->
  forallb distinct_keys objs = true.
Proof.
  unfold decodeTabularArray. intros H. inv_OK H.
  now apply decodeTabularArray_loop_distinct in E.
Qed.

Lemma decodeInlinePrimitiveArray_distinct h iv o ps :
  decodeInlinePrimitiveArray V h iv o = OK ps ->
  forallb distinct_keys (map JPrim ps) = true.
Proof. intros _. apply forallb_primitives. Qed.

Local Arguments decodeTabularArray : simpl never.
Local Arguments decodeInlinePrimitiveArray : simpl never.

Lemma decoders_distinct (fuel : nat) :
  (forall c d o obj r c',
     decodeObject_loop V fuel c d o obj = OK (r, c') ->
     distinct_keys (JObject obj) = true -> distinct_keys (JObject r) = true)
  /\ (forall s c d o k v fd c',
        decodeKeyValue V fuel s c d o = OK (k, v, fd, c') ->
        distinct_keys v = true)
  /\ (forall l c d o k v c',
        decodeKeyValuePair V fuel l c d o = OK (k, v, c') ->
        distinct_keys v = true)
  /\ (forall h iv c d o r c',
        decodeArrayFromHeader V fuel h iv c d o = OK (r, c') ->
        forallb distinct_keys r = true)
  /\ (forall h c d o r c',
        decodeListArray V fuel h c d o = OK (r, c') ->
        forallb distinct_keys r = true)
  /\ (forall h c d o items sl el r sl' el' c',
        decodeListArray_loop V fuel h c d o items sl el = OK (r, sl', el', c') ->
        forallb distinct_keys items = true -> forallb distinct_keys r = true)
  /\ (forall c d a o r c',
        decodeListItem V fuel c d a o = OK (r, c') -> distinct_keys r = true)
  /\ (forall l c d o r c',
        decodeObjectFromListItem V fuel l c d o = OK (r, c') ->
        distinct_keys (JObject r) = true)
  /\ (forall c d o obj r c',
        decodeObjectFromListItem_loop V fuel c d o obj = OK (r, c') ->
        distinct_keys (JObject obj) = true ->
        distinct_keys (JObject r) = true).
Proof.
  induction fuel as [|f IH].
  - repeat split; intros; discriminate.
  - destruct IH as (IH1 & IH2 & IH3 & IH4 & IH5 & IH6 & IH7 & IH8 & IH9).
    repeat match goal with |- _ /\ _ => split end;
      intros;
      match goal with
      | H : _ = OK _ |- _ => simpl in H; unfold next in H; inv_OK H
      end;
      repeat match goal with
        | H : decodeKeyValue _ _ _ _ _ _ = OK _ |- _ => apply IH2 in H
        | H : decodeKeyValuePair _ _ _ _ _ _ = OK _ |- _ => apply IH3 in H
        | H : decodeArrayFromHeader _ _ _ _ _ _ _ = OK _ |- _ => apply IH4 in H
        | H : decodeListArray _ _ _ _ _ _ = OK _ |- _ => apply IH5 in H
        | H : decodeListItem _ _ _ _ _ _ = OK _ |- _ => apply IH7 in H
        | H : decodeObjectFromListItem _ _ _ _ _ _ = OK _ |- _ =>
            apply IH8 in H
        | H : decodeTabularArray _ _ _ _ _ _ = OK _ |- _ =>
            apply decodeTabularArray_distinct in H
        | H : decodeInlinePrimitiveArray _ _ _ _ = OK _ |- _ =>
            apply decodeInlinePrimitiveArray_distinct in H
        end;
      repeat match goal with
        | H : decodeObject_loop _ _ _ _ _ _ = OK _ |- _ =>
            apply IH1 in H; [|solve [distinct_solve]]
        | H : decodeListArray_loop _ _ _ _ _ _ _ _ _ = OK _ |- _ =>
            apply IH6 in H; [|solve [distinct_solve]]
        | H : decodeObjectFromListItem_loop _ _ _ _ _ _ = OK _ |- _ =>
            apply IH9 in H; [|solve [distinct_solve]]
        end;
      distinct_solve.
Qed.

End DecodedObjects.

(** X23. Every object that [decode] returns, at any depth of the value,
    has distinct keys: a key that the text gives twice is kept once. *)
Theorem decode_distinct_keys (V : Validators) (source : string)
    (options : ResolvedDecodeOptions) (value : JsonValue)
    (H : decode V source options = OK value) :
  distinct_keys value = true.
Proof.
  unfold decode in H. inv_OK H. unfold decodeValueFromLines, decodeObject in H.
  destruct (decoders_distinct V (decode_fuel (List.length (lines a))))
    as (IH1 & IH2 & IH3 & IH4 & IH5 & IH6 & IH7 & IH8 & IH9).
  inv_OK H; try reflexivity;
    repeat match goal with
      | H : decodeArrayFromHeader _ _ _ _ _ _ _ = OK _ |- _ => apply IH4 in H
      | H : decodeObject_loop _ _ _ _ _ _ = OK _ |- _ =>
          apply IH1 in H; [|reflexivity]
      end;
    assumption.
Qed.

Lemma decode_distinct_keys_witness :
  decode spec_validators ("a: 1" ++ String NEWLINE ("b: 2" ++ String NEWLINE "a: 3"))
    (resolveDecodeOptions None None)
  = OK (JObject [("a", JPrim (PNumber (Finite false 3 0)));
                 ("b", JPrim (PNumber (Finite false 2 0)))])
  /\ distinct_keys
       (JObject [("a", JPrim (PNumber (Finite false 3 0)));
                 ("b", JPrim (PNumber (Finite false 2 0)))]) = true.
Proof.
  split; [reflexivity|].
  exact (decode_distinct_keys spec_validators
           ("a: 1" ++ String NEWLINE ("b: 2" ++ String NEWLINE "a: 3"))
           (resolveDecodeOptions None None) _ eq_refl).
Defined.

(* ================================================================= *)
(** ** Objects of primitives: written lines, decoded object *)

Lemma includes_escape_char_bracket (c : ascii) :
  includes OPEN_BRACKET (escape_char c) = Ascii.eqb c OPEN_BRACKET.
Proof.
  unfold escape_char.
  destruct (Ascii.eqb_spec c BACKSLASH) as [->|Hb]; [reflexivity|].
  destruct (Ascii.eqb_spec c DOUBLE_QUOTE) as [->|Hq]; [reflexivity|].
  destruct (Ascii.eqb_spec c NEWLINE) as [->|Hn]; [reflexivity|].
  destruct (Ascii.eqb_spec c CARRIAGE_RETURN) as [->|Hr]; [reflexivity|].
  destruct (Ascii.eqb_spec c TAB) as [->|Ht]; [reflexivity|].
  simpl. now rewrite orb_false_r.
Qed.

Lemma includes_escapeString_bracket (s : string) :
  includes OPEN_BRACKET (escapeString s) = includes OPEN_BRACKET s.
Proof.
  induction s as [|c s IH]; [reflexivity|].
  rewrite escapeString_cons, includes_append, includes_escape_char_bracket, IH.
  reflexivity.
Qed.

Lemma parseArrayHeaderLine_no_bracket (content_ : string) (dd : Delimiter) :
  includes OPEN_BRACKET content_ = false ->
  parseArrayHeaderLine content_ dd = OK None.
Proof.
  intros H. unfold parseArrayHeaderLine.
  destruct (startsWith DOUBLE_QUOTE (trimStart content_)); [reflexivity|].
  unfold indexOf. cbn [drop]. now rewrite indexOf_aux_none.
Qed.

Lemma parseArrayHeaderLine_quoted (e tail : string) (dd : Delimiter) :
  parseArrayHeaderLine (quoted e ++ tail) dd = OK None.
Proof. reflexivity. Qed.

Section FlatObject.

Variable V : Validators.
Variable numberToString : number -> string.
Variable D : Delimiter.

Let token (p : JsonPrimitive) : string :=
  encodePrimitive numberToString p (delimiter_char D).

Lemma plain_value_token (p : JsonPrimitive) :
  plain_value p = true ->
  token p <> "" /\ trim (token p) = token p
  /\ includes NEWLINE (token p) = false
  /\ includes OPEN_BRACKET (token p) = false
  /\ parsePrimitiveToken (token p) = OK (reread (delimiter_char D) p).
Proof.
  intros Hp. assert (Hn : is_number p = false) by now destruct p.
  destruct (encoded_primitive_token numberToString D p Hn) as (H1 & H2 & _).
  split; [exact H1|]. split; [exact H2|].
  split; [|split; [|now apply parsePrimitiveToken_encoded]].
  - destruct p as [s|n|[]|]; try discriminate; try reflexivity.
    now destruct (encoded_string_token s D) as (_ & _ & _ & _ & Hnl & _).
  - destruct p as [s|n|[]|]; try discriminate; try reflexivity.
    unfold token. cbn [encodePrimitive]. unfold encodeStringLiteral.
    simpl in Hp. apply negb_true_iff in Hp.
    destruct (isSafeUnquoted s (delimiter_char D)); [exact Hp|].
    unfold quoted. simpl. reduce_eqb. simpl.
    rewrite includes_append, includes_escapeString_bracket, Hp. reflexivity.
Qed.

Lemma trim_space_token (t : string) : trim t = t -> trim (String " " t) = t.
Proof. intros H. exact H. Qed.

Lemma encodeKey_cases (k : string) :
  (isValidUnquotedKey k = true /\ encodeKey k = k)
  \/ (isValidUnquotedKey k = false /\ encodeKey k = quoted (escapeString k)).
Proof. unfold encodeKey. destruct (isValidUnquotedKey k); [now left | now right]. Qed.

Lemma entry_line_header (e : string * JsonPrimitive) :
  plain_value (snd e) = true ->
  parseArrayHeaderLine (entry_line numberToString D e) DEFAULT_DELIMITER
  = OK None.
Proof.
  intros Hp. unfold entry_line.
  destruct (encodeKey_cases (fst e)) as [[Hk ->]|[Hk ->]].
  - apply parseArrayHeaderLine_no_bracket.
    destruct (plain_value_token _ Hp) as (_ & _ & _ & Hb & _).
    rewrite !includes_append. fold (token (snd e)). rewrite Hb.
    rewrite (valid_key_excludes _ OPEN_BRACKET Hk eq_refl). reflexivity.
  - apply parseArrayHeaderLine_quoted.
Qed.

Lemma entry_line_key (e : string * JsonPrimitive) :
  parseKeyToken (entry_line numberToString D e) 0
  = OK (fst e, String.length (encodeKey (fst e)) + 1)
  /\ drop (String.length (encodeKey (fst e)) + 1) (entry_line numberToString D e)
     = String " " (token (snd e)).
Proof.
  unfold entry_line.
  change (encodeKey (fst e) ++ ": "
          ++ encodePrimitive numberToString (snd e) (delimiter_char D))%string
    with (encodeKey (fst e) ++ String COLON (String " " (token (snd e))))%string.
  split; [apply encodeKey_parseKeyToken_lemma|].
  now rewrite drop_drop, drop_append.
Qed.

Local Arguments parseArrayHeaderLine : simpl never.
Local Arguments parsePrimitiveToken : simpl never.
Local Arguments parseKeyToken : simpl never.
Local Arguments isArrayHeaderAfterHyphen : simpl never.
Local Arguments isObjectFirstFieldAfterHyphen : simpl never.
Local Arguments String.length : simpl never.
Local Arguments startsWithStr : simpl never.
Local Arguments peek : simpl never.
Local Arguments atEnd : simpl never.
Local Arguments advance : simpl never.
Local Arguments obj_set : simpl never.
Local Arguments drop : simpl never.
Local Arguments entry_line : simpl never.

Lemma decodeKeyValue_entry (f : nat) (e : string * JsonPrimitive)
    (cursor : LineCursor) (baseDepth : nat) (o : ResolvedDecodeOptions) :
  plain_value (snd e) = true ->
  decodeKeyValue V (S f) (entry_line numberToString D e) cursor baseDepth o
  = OK (fst e, JPrim (reread (delimiter_char D) (snd e)), baseDepth + 1, cursor).
Proof.
  intros Hp. simpl. rewrite (entry_line_header e Hp). cbn [bind].
  destruct (entry_line_key e) as [Hk1 Hk2]. rewrite Hk1. cbn [bind].
  rewrite Hk2.
  destruct (plain_value_token _ Hp) as (Hne & Htrim & _ & _ & Hparse).
  rewrite (trim_space_token _ Htrim), Hparse. cbn [bind].
  destruct (token (snd e)); [now contradiction Hne | reflexivity].
Qed.

Lemma peek_middle (pre : list ParsedLine) (l : ParsedLine)
    (rest : list ParsedLine) (bs : list BlankLineInfo) :
  peek {| cur_lines := pre ++ l :: rest; cur_index := List.length pre;
          cur_blankLines := bs |} = Some l
  /\ atEnd {| cur_lines := pre ++ l :: rest; cur_index := List.length pre;
              cur_blankLines := bs |} = false.
Proof.
  unfold peek, atEnd. simpl. split.
  - rewrite nth_error_app2 by lia. now rewrite Nat.sub_diag.
  - apply Nat.leb_gt. rewrite length_app. simpl. lia.
Qed.

Lemma decodeObject_loop_eq (f : nat) (c : LineCursor) (d : nat)
    (o : ResolvedDecodeOptions) (obj : JsonObject) :
  decodeObject_loop V (S f) c d o obj
  = if atEnd c then OK (obj, c)
    else match peek c with
         | None => OK (obj, c)
         | Some line =>
             if (depth line <? d)%nat then OK (obj, c)
             else if (depth line =? d)%nat then
               '(k, value, cursor') <- decodeKeyValuePair V f line c d o ;;
               decodeObject_loop V f cursor' d o (obj_set obj k value)
             else OK (obj, c)
         end.
Proof. reflexivity. Qed.

Lemma decodeKeyValuePair_eq (f : nat) (line : ParsedLine) (c : LineCursor)
    (d : nat) (o : ResolvedDecodeOptions) :
  decodeKeyValuePair V (S f) line c d o
  = ('(k, value, _, cursor') <-
       decodeKeyValue V f (content line) (advance c) d o ;;
     OK (k, value, cursor')).
Proof. reflexivity. Qed.

Lemma decodeObject_loop_entries (o : ResolvedDecodeOptions)
    (bs : list BlankLineInfo) (entries : list (string * JsonPrimitive)) :
  forall (ls pre : list ParsedLine) (obj : JsonObject) (fuel : nat),
    Forall2 (fun l e => depth l = 0
                        /\ content l = entry_line numberToString D e)
      ls entries ->
    forallb (fun e => plain_value (snd e)) entries = true ->
    List.length entries + 3 <= fuel ->
    decodeObject_loop V fuel
      {| cur_lines := pre ++ ls; cur_index := List.length pre;
         cur_blankLines := bs |} 0 o obj
    = OK (fold_left
            (fun ob e =>
               obj_set ob (fst e) (JPrim (reread (delimiter_char D) (snd e))))
            entries obj,
          {| cur_lines := pre ++ ls;
             cur_index := List.length pre + List.length entries;
             cur_blankLines := bs |}).
Proof.
  induction entries as [|e entries IH]; intros ls pre obj fuel Hls Hp Hfuel.
  - inversion Hls; subst. destruct fuel as [|f]; [simpl in Hfuel; lia|].
    rewrite decodeObject_loop_eq. unfold atEnd. simpl.
    rewrite app_nil_r, Nat.leb_refl. now rewrite Nat.add_0_r.
  - inversion Hls as [|l e' ls' es' [Hd Hc] Hrest]; subst.
    simpl in Hp. apply andb_true_iff in Hp. destruct Hp as [Hpe Hp].
    simpl in Hfuel.
    destruct fuel as [|[|[|f]]]; try lia.
    destruct (peek_middle pre l ls' bs) as [Hpeek Hend].
    rewrite decodeObject_loop_eq, Hend, Hpeek, Hd.
    cbn [Nat.ltb Nat.leb Nat.eqb].
    rewrite decodeKeyValuePair_eq, Hc.
    rewrite (decodeKeyValue_entry f e _ 0 o Hpe). cbn [bind].
    unfold advance. cbn [cur_lines cur_index cur_blankLines].
    replace (pre ++ l :: ls') with ((pre ++ [l]) ++ ls')
      by now rewrite <- app_assoc.
    replace (List.length pre + 1) with (List.length (pre ++ [l]))
      by (rewrite length_app; reflexivity).
    rewrite (IH ls' (pre ++ [l]) _ (S (S f)) Hrest Hp) by lia.
    cbn [fold_left]. do 3 f_equal. rewrite length_app. simpl. lia.
Qed.

Lemma encodeKey_head (k : string) :
  exists c r,
    encodeKey k = String c r /\ is_whitespace c = false
    /\ Ascii.eqb c OPEN_BRACKET = false
    /\ includes NEWLINE (encodeKey k) = false.
Proof.
  destruct (encodeKey_cases k) as [[Hk E]|[Hk E]]; rewrite E.
  - destruct (valid_key_facts k Hk) as (_ & _ & c & r & -> & Hc).
    apply is_key_start_key_char in Hc. exists c, r.
    split; [reflexivity|]. split; [now apply is_key_char_not_whitespace|].
    split.
    + destruct (Ascii.eqb_spec c OPEN_BRACKET) as [->|];
        [discriminate Hc | reflexivity].
    + now apply valid_key_excludes.
  - exists DOUBLE_QUOTE, (escapeString k ++ String DOUBLE_QUOTE "")%string.
    split; [reflexivity|]. split; [reflexivity|]. split; [reflexivity|].
    apply includes_quoted_escapeString.
Qed.

Lemma entry_line_content (e : string * JsonPrimitive) :
  plain_value (snd e) = true ->
  line_content (entry_line numberToString D e) = true.
Proof.
  intros Hp. unfold entry_line, line_content.
  destruct (encodeKey_head (fst e)) as (c & r & E & Hw & _ & Hnl).
  destruct (plain_value_token _ Hp) as (_ & _ & Hnl' & _).
  fold (token (snd e)).
  rewrite !includes_append, Hnl, Hnl'. rewrite E. simpl. rewrite Hw.
  destruct (Ascii.eqb_spec c SPACE) as [->|]; [discriminate Hw|].
  destruct (Ascii.eqb_spec c TAB) as [->|]; [discriminate Hw|].
  reflexivity.
Qed.

Lemma entry_line_not_root_array (e : string * JsonPrimitive) :
  isArrayHeaderAfterHyphen (entry_line numberToString D e) = false.
Proof.
  unfold isArrayHeaderAfterHyphen, entry_line.
  destruct (encodeKey_head (fst e)) as (c & r & E & Hw & Hb & _).
  rewrite E. unfold trim. simpl. rewrite Hw. simpl. rewrite Hw. simpl.
  now rewrite Hb.
Qed.

Lemma entry_line_key_value (e : string * JsonPrimitive) (l : ParsedLine) :
  content l = entry_line numberToString D e -> isKeyValueLine l = true.
Proof.
  intros Hl. unfold isKeyValueLine. rewrite Hl. unfold entry_line.
  destruct (encodeKey_cases (fst e)) as [[Hk E]|[Hk E]]; rewrite E.
  - destruct (valid_key_facts _ Hk) as (_ & _ & c & r & Ek & Hc).
    apply is_key_start_key_char in Hc. rewrite Ek. simpl.
    destruct (Ascii.eqb_spec c DOUBLE_QUOTE) as [->|]; [discriminate Hc|].
    rewrite includes_append. simpl. reduce_eqb. simpl.
    now rewrite !orb_true_r.
  - change (startsWith DOUBLE_QUOTE
              (quoted (escapeString (fst e)) ++ ": "
               ++ encodePrimitive numberToString (snd e) (delimiter_char D)))
      with true. cbv iota.
    rewrite findClosingQuote_quoted_append.
    change (quoted (escapeString (fst e)) ++ ": "
            ++ encodePrimitive numberToString (snd e) (delimiter_char D))%string
      with (quoted (escapeString (fst e))
            ++ String COLON (String " " (token (snd e))))%string.
    unfold charAt_is.
    replace (String.length (escapeString (fst e)) + 1 + 1)
      with (String.length (quoted (escapeString (fst e))))
      by (rewrite length_quoted; lia).
    rewrite get_append_here, Ascii.eqb_refl, andb_true_r.
    apply Nat.ltb_lt. rewrite length_append.
    change (String.length (String COLON (String " " (token (snd e)))))
      with (S (S (String.length (token (snd e))))).
    lia.
Qed.

Lemma pushed_lines_entries (indentSize : nat)
    (entries : list (string * JsonPrimitive)) :
  forall n,
    Forall2 (fun l e => depth l = 0
                        /\ content l = entry_line numberToString D e)
      (pushed_lines indentSize
         (map (fun e => (0, entry_line numberToString D e)) entries) n)
      entries.
Proof.
  induction entries as [|e entries IH]; intros n; simpl; constructor.
  - now split.
  - apply IH.
Qed.

Lemma length_pushed_lines (indentSize : nat) (ps : list (nat * string)) :
  forall n, List.length (pushed_lines indentSize ps n) = List.length ps.
Proof. induction ps as [|p ps IH]; intros n; simpl; [reflexivity | now rewrite IH]. Qed.

Lemma push_all_depth0 (indentSize : nat) (cs : list string) :
  push_all indentSize [] (map (fun c => (0, c)) cs) = cs.
Proof.
  rewrite push_all_lines. cbn [app]. rewrite map_map. cbn [fst snd].
  rewrite Nat.mul_0_r. cbn [spaces append]. apply map_id.
Qed.

Lemma obj_set_new (obj : JsonObject) (k : string) (v : JsonValue) :
  existsb (String.eqb k) (map fst obj) = false ->
  obj_set obj k v = obj ++ [(k, v)].
Proof.
  induction obj as [|[k0 v0] rest IH]; [reflexivity|].
  simpl. intros H. apply orb_false_elim in H. destruct H as [Hk Hrest].
  rewrite String.eqb_sym in Hk. unfold obj_set. fold obj_set.
  now rewrite Hk, (IH Hrest).
Qed.

Lemma fold_obj_set_distinct (entries : list (string * JsonPrimitive)) :
  forall obj,
    distinct (map fst obj ++ map fst entries) = true ->
    fold_left
      (fun ob e =>
         obj_set ob (fst e) (JPrim (reread (delimiter_char D) (snd e))))
      entries obj
    = obj ++ map (fun e => (fst e, JPrim (reread (delimiter_char D) (snd e))))
               entries.
Proof.
  induction entries as [|e entries IH]; intros obj H; simpl.
  - now rewrite app_nil_r.
  - assert (Hnew : existsb (String.eqb (fst e)) (map fst obj) = false
                   /\ distinct (map fst (obj ++ [(fst e, JPrim (reread (delimiter_char D) (snd e)))])
                                ++ map fst entries) = true).
    { rewrite map_app. cbn [map fst]. rewrite <- app_assoc. cbn [app].
      split; [|exact H]. clear IH.
      induction (map fst obj) as [|k ks IHk]; [reflexivity|].
      simpl in H. apply andb_true_iff in H. destruct H as [Hk Hks].
      simpl. rewrite (IHk Hks), orb_false_r.
      apply negb_true_iff in Hk. rewrite existsb_app in Hk.
      apply orb_false_elim in Hk. destruct Hk as [_ Hk]. simpl in Hk.
      apply orb_false_elim in Hk. destruct Hk as [Hk _].
      now rewrite String.eqb_sym. }
    destruct Hnew as [Hnew Hd].
    rewrite (obj_set_new _ _ _ Hnew), (IH _ Hd). now rewrite <- app_assoc.
Qed.

Lemma decode_entries (n : nat) (o : ResolvedDecodeOptions)
    (entries : list (string * JsonPrimitive)) :
  0 < opt_indent o -> entries <> [] ->
  distinct (map fst entries) = true ->
  forallb (fun e => plain_value (snd e)) entries = true ->
  decode V
    (writer_toString
       (push_all n []
          (map (fun e => (0, entry_line numberToString D e)) entries))) o
  = OK (JObject
          (map (fun e => (fst e, JPrim (reread (delimiter_char D) (snd e))))
             entries)).
Proof.
  intros Hindent Hne Hkeys Hvals.
  set (ps := map (fun e => (0, entry_line numberToString D e)) entries).
  assert (Htext : push_all n [] ps = push_all (opt_indent o) [] ps).
  { subst ps. rewrite <- (map_map (entry_line numberToString D)
                                  (fun c => (0, c))).
    now rewrite !push_all_depth0. }
  rewrite Htext. unfold decode.
  rewrite (toParsedLines_pushed (opt_indent o) (opt_strict o) ps Hindent).
  - cbn [bind lines blankLines]. rewrite length_pushed_lines.
    subst ps. rewrite length_map.
    destruct entries as [|e0 entries']; [contradiction|].
    cbn [List.length Nat.eqb].
    unfold decodeValueFromLines, newLineCursor.
    change (peek _) with
      (Some (pushed_line (opt_indent o) 1 (0, entry_line numberToString D e0))).
    cbv iota. cbn [content pushed_line snd].
    rewrite entry_line_not_root_array.
    rewrite (entry_line_key_value e0) by reflexivity.
    cbn [negb]. rewrite andb_false_r.
    unfold decodeObject.
    rewrite (decodeObject_loop_entries o [] (e0 :: entries') _ []
               [] _ (pushed_lines_entries (opt_indent o) (e0 :: entries') 1)
               Hvals)
      by (unfold decode_fuel; cbn [List.length]; lia).
    cbn [bind]. now rewrite fold_obj_set_distinct.
  - subst ps. destruct entries; [contradiction | discriminate].
  - subst ps. rewrite forallb_forall. intros p Hin.
    apply in_map_iff in Hin. destruct Hin as (e & <- & Hin).
    rewrite forallb_forall in Hvals. apply entry_line_content.
    now apply Hvals.
Qed.

End FlatObject.

(** X24. An object of primitives, written and read.  The lines of an
    object whose values are strings without opening bracket, booleans and
    nulls and whose keys are distinct, none of them made of digits only or
    the name of the prototype accessor, each line the key as [encodeKey]
    writes it, a colon, a space and the value as [encodePrimitive] writes
    it, pushed into a [LineWriter] at depth 0: [decode] returns the object
    with the keys in their order, and each value as [parsePrimitiveToken]
    reads its text back, in strict mode and without it.  (For the keys
    left out the host does not add the property at the end of the
    object.) *)
Theorem decode_flat_object (V : Validators) (numberToString : number -> string)
    (D : Delimiter) (n : nat) (o : ResolvedDecodeOptions)
    (entries : list (string * JsonPrimitive))
    (Hindent : 0 < opt_indent o) (Hentries : entries <> [])
    (Hkeys : distinct (map fst entries) = true)
    (Hown : forallb (fun e => negb (exotic_key (fst e))) entries = true)
    (Hvalues : forallb (fun e => plain_value (snd e)) entries = true) :
  decode V
    (writer_toString
       (push_all n []
          (map (fun e => (0, entry_line numberToString D e)) entries))) o
  = OK (JObject
          (map (fun e => (fst e, JPrim (reread (delimiter_char D) (snd e))))
             entries)).
Proof.
  exact (decode_entries V numberToString D n o entries Hindent Hentries Hkeys
           Hvalues).
Qed.

Lemma decode_flat_object_witness :
  writer_toString
    (push_all 2 []
       (map (fun e => (0, entry_line (fun _ => "0") DelimComma e))
          [("name", PString "Ada, Countess"); ("a b", PBoolean true);
           ("note", PNull)]))
  = ("name: " ++ quoted "Ada, Countess" ++ String NEWLINE
       (quoted "a b" ++ ": true" ++ String NEWLINE "note: null"))%string
  /\ decode spec_validators
       (writer_toString
          (push_all 2 []
             (map (fun e => (0, entry_line (fun _ => "0") DelimComma e))
                [("name", PString "Ada, Countess"); ("a b", PBoolean true);
                 ("note", PNull)])))
       (resolveDecodeOptions None None)
     = OK (JObject [("name", JPrim (PString "Ada, Countess"));
                    ("a b", JPrim (PBoolean true)); ("note", JPrim PNull)]).
Proof.
  split; [reflexivity|].
  apply (decode_flat_object spec_validators (fun _ => "0") DelimComma 2
           (resolveDecodeOptions None None)
           [("name", PString "Ada, Countess"); ("a b", PBoolean true);
            ("note", PNull)]);
    [simpl; lia | discriminate | reflexivity | reflexivity | reflexivity].
Defined.

(* ================================================================= *)
(** ** Inline arrays: written line, decoded array *)

Lemma findUnquotedChar_loop_found (c : ascii) (pre rest : string) :
  forall i,
    includes DOUBLE_QUOTE pre = false -> includes c pre = false ->
    Ascii.eqb c DOUBLE_QUOTE = false ->
    findUnquotedChar_loop (pre ++ String c rest) c false i
    = Some (i + String.length pre).
Proof.
  induction pre as [|x pre IH]; intros i Hq Hc Hcq; simpl.
  - rewrite andb_false_r, Hcq, Ascii.eqb_refl. simpl. f_equal. lia.
  - simpl in Hq, Hc. apply orb_false_elim in Hq. destruct Hq as [Hxq Hq].
    apply orb_false_elim in Hc. destruct Hc as [Hxc Hc].
    rewrite andb_false_r, Hxq, Hxc. simpl. rewrite IH by assumption.
    f_equal. lia.
Qed.

Lemma trimEnd_append (a b : string) :
  is_empty (trimEnd b) = false ->
  trimEnd (a ++ b) = (a ++ trimEnd b)%string.
Proof.
  intros Hb. induction a as [|c a IH]; [reflexivity|].
  simpl. rewrite IH.
  destruct (a ++ trimEnd b)%string eqn:E.
  - destruct a; simpl in E; [rewrite E in Hb; discriminate | discriminate].
  - simpl. now rewrite andb_false_r.
Qed.

Lemma trim_bounds (p l : string) :
  head_not_whitespace (p ++ l) -> l <> "" -> trim l = l ->
  trim (p ++ l) = (p ++ l)%string.
Proof.
  intros Hhead Hl Htl. unfold trim.
  rewrite trimStart_no_leading
    by (destruct (p ++ l)%string; [exact I | exact Hhead]).
  pose proof (trim_fixed_trimStart l Htl) as Hsl.
  unfold trim in Htl. rewrite Hsl in Htl.
  rewrite trimEnd_append; [now rewrite Htl|].
  rewrite Htl. destruct l; [contradiction | reflexivity].
Qed.

Lemma join_pieces_suffix (D : Delimiter) (ts : list string) (t : string) :
  exists p, join_pieces D ts t = (p ++ t)%string.
Proof.
  induction ts as [|u ts [p IH]]; [now exists ""|].
  exists (u ++ String (delimiter_char D) p)%string. simpl.
  now rewrite IH, append_assoc.
Qed.

Lemma head_not_whitespace_append (a b : string) :
  head_not_whitespace a -> head_not_whitespace (a ++ b).
Proof. destruct a; [contradiction | now intros H]. Qed.

Lemma trim_join_tokens (D : Delimiter) (ts : list string) :
  ts <> [] -> Forall (fun t => t <> "" /\ trim t = t) ts ->
  join (String (delimiter_char D) "") ts <> ""
  /\ trim (join (String (delimiter_char D) "") ts)
     = join (String (delimiter_char D) "") ts.
Proof.
  intros Hne H. destruct (exists_last Hne) as (ps & t & ->).
  rewrite join_pieces_join.
  apply Forall_app in H. destruct H as [Hps Ht].
  apply Forall_inv in Ht. destruct Ht as [Ht Htt].
  assert (Hhead : head_not_whitespace (join_pieces D ps t)).
  { destruct ps as [|u ps]; [now apply trim_fixed_head|].
    apply Forall_inv in Hps. destruct Hps as [Hu Htu].
    simpl. apply head_not_whitespace_append. now apply trim_fixed_head. }
  split; [destruct (join_pieces D ps t); [contradiction | discriminate]|].
  destruct (join_pieces_suffix D ps t) as [p E]. rewrite E in *.
  now apply trim_bounds.
Qed.

Section InlineArray.

Variable V : Validators.
Variable numberToString : number -> string.
Variable D : Delimiter.
Variable marker : bool.

Hypothesis V_count :
  forall (n : Z) (itemType : string) (o : ResolvedDecodeOptions),
    assertExpectedCount V n n itemType o = None.

Variable values : list JsonPrimitive.
Hypothesis values_not_nil : values <> [].
Hypothesis values_plain : forallb (fun p => negb (is_number p)) values = true.

Let joined : string :=
  encodeAndJoinPrimitives numberToString values (delimiter_char D).
Let text : string :=
  (formatHeader (List.length values) None None D marker ++ String " " joined)%string.

Lemma values_tokens :
  Forall (fun t => t <> "" /\ trim t = t /\ closed_piece D t)
    (map (fun v => encodePrimitive numberToString v (delimiter_char D)) values).
Proof.
  apply Forall_map, Forall_forall. intros p Hp.
  apply encoded_primitive_token.
  pose proof values_plain as H. rewrite forallb_forall in H.
  specialize (H p Hp). now apply negb_true_iff in H.
Qed.

Lemma joined_trimmed : joined <> "" /\ trim joined = joined.
Proof.
  unfold joined, encodeAndJoinPrimitives. apply trim_join_tokens.
  - destruct values; [now contradiction values_not_nil | discriminate].
  - pose proof values_tokens as H. revert H. apply Forall_impl.
    now intros t (H1 & H2 & _).
Qed.

Lemma joined_no_newline : includes NEWLINE joined = false.
Proof.
  unfold joined, encodeAndJoinPrimitives. apply includes_join.
  - now destruct D.
  - apply Forall_map, Forall_forall. intros p Hp.
    pose proof values_plain as H. rewrite forallb_forall in H.
    specialize (H p Hp). apply negb_true_iff in H.
    destruct p as [s|n|[]|]; try discriminate; try reflexivity.
    now destruct (encoded_string_token s D) as (_ & _ & _ & _ & Hnl & _).
Qed.

Lemma text_header :
  parseArrayHeaderLine text DEFAULT_DELIMITER
  = OK (Some ({| hkey := None; hlength := Z.of_nat (List.length values);
                 hdelimiter := D; hfields := None;
                 hasLengthMarker := marker |}, Some joined)).
Proof.
  unfold text.
  rewrite (proj1 (formatHeader_parsed (List.length values) None None D marker
                    (String " " joined)) I I).
  destruct joined_trimmed as [Hne Htrim].
  change (trim (String " " joined)) with (trim joined). rewrite Htrim.
  destruct joined; [contradiction | reflexivity].
Qed.

Lemma text_shape :
  exists B,
    text = String OPEN_BRACKET (B ++ String CLOSE_BRACKET
                                  (String COLON (String " " joined)))
    /\ includes DOUBLE_QUOTE B = false /\ includes COLON B = false
    /\ includes NEWLINE B = false.
Proof.
  unfold text. rewrite formatHeader_line. cbn [append].
  eexists. split; [reflexivity|].
  rewrite !includes_append.
  rewrite !(all_digits_includes _ (nat_to_string (List.length values)))
    by (reflexivity || apply nat_to_string_digits).
  now destruct marker, D.
Qed.

Lemma text_line : head_not_whitespace text /\ includes NEWLINE text = false.
Proof.
  destruct text_shape as (B & -> & _ & _ & Hnl). split; [reflexivity|].
  simpl. reduce_eqb. simpl. rewrite includes_append, Hnl. simpl. reduce_eqb.
  simpl. apply joined_no_newline.
Qed.

Lemma text_root_array : isArrayHeaderAfterHyphen text = true.
Proof.
  unfold isArrayHeaderAfterHyphen.
  destruct text_shape as (B & E & Hq & Hc & _). rewrite E.
  apply andb_true_iff. split.
  - unfold trim. simpl. reflexivity.
  - rewrite findUnquotedChar_0.
    replace (String OPEN_BRACKET
               (B ++ String CLOSE_BRACKET (String COLON (String " " joined))))
      with ((String OPEN_BRACKET B ++ String CLOSE_BRACKET "")
            ++ String COLON (String " " joined))%string
      by (simpl; now rewrite append_assoc).
    rewrite findUnquotedChar_loop_found; [reflexivity| | |reflexivity].
    + simpl. reduce_eqb. simpl. rewrite includes_append, Hq. reflexivity.
    + simpl. reduce_eqb. simpl. rewrite includes_append, Hc. reflexivity.
Qed.

Lemma decode_inline (o : ResolvedDecodeOptions) :
  decode V text o
  = OK (JArray (map (fun p => JPrim (reread (delimiter_char D) p)) values)).
Proof.
  destruct text_line as [Hhead Hnl]. unfold decode.
  rewrite (toParsedLines_single_line text _ _ Hhead Hnl).
  cbn [bind lines blankLines List.length Nat.eqb].
  unfold decodeValueFromLines, newLineCursor.
  change (peek _) with
    (Some {| raw := text; depth := 0 / opt_indent o; indent := 0;
             content := text; lineNumber := 1 |}).
  cbv iota. cbn [content]. rewrite text_root_array, text_header.
  cbn [bind]. unfold decode_fuel.
  change (8 * 1 + 8) with (S 15).
  cbn [decodeArrayFromHeader].
  destruct joined_trimmed as [Hne Htrim].
  destruct (is_empty joined) eqn:Hj;
    [destruct joined; [contradiction | discriminate]|].
  unfold decodeInlinePrimitiveArray. rewrite Htrim, Hj. cbn [hdelimiter hlength].
  destruct (inline_values_parsed numberToString D values values_plain)
    as [_ Hmap]. fold joined in Hmap. rewrite Hmap. cbn [bind].
  rewrite length_map, V_count. cbn [check bind].
  now rewrite map_map.
Qed.

End InlineArray.

(** X25. An inline array, written and read.  The header that
    [formatHeader] writes for the length of an array of strings, booleans
    and nulls, without key, followed by a space and the items as
    [encodeAndJoinPrimitives] writes them: [decode] returns the array of
    the items, each as [parsePrimitiveToken] reads its text back, for
    every delimiter, with the length marker and without it, in strict mode
    and without it, whenever the count assertion accepts a count that is
    the declared one. *)
Theorem decode_inline_array (V : Validators)
    (numberToString : number -> string) (D : Delimiter) (marker : bool)
    (values : list JsonPrimitive) (o : ResolvedDecodeOptions)
    (Hcount : forall (n : Z) (itemType : string) (o' : ResolvedDecodeOptions),
        assertExpectedCount V n n itemType o' = None)
    (Hvalues : values <> [])
    (Hplain : forallb (fun p => negb (is_number p)) values = true) :
  decode V
    (formatHeader (List.length values) None None D marker
     ++ String " "
          (encodeAndJoinPrimitives numberToString values (delimiter_char D)))
    o
  = OK (JArray (map (fun p => JPrim (reread (delimiter_char D) p)) values)).
Proof.
  exact (decode_inline V numberToString D marker Hcount values Hvalues Hplain o).
Qed.

Lemma decode_inline_array_witness :
  (formatHeader 3 None None DelimPipe true
   ++ String " "
        (encodeAndJoinPrimitives (fun _ => "0")
           [PString "a|b"; PBoolean false; PString "x"]
           (delimiter_char DelimPipe)))%string
  = ("[#3|]: " ++ quoted "a|b" ++ "|false|x")%string
  /\ decode spec_validators
       (formatHeader 3 None None DelimPipe true
        ++ String " "
             (encodeAndJoinPrimitives (fun _ => "0")
                [PString "a|b"; PBoolean false; PString "x"]
                (delimiter_char DelimPipe)))
       (resolveDecodeOptions None None)
     = OK (JArray [JPrim (PString "a|b"); JPrim (PBoolean false);
                   JPrim (PString "x")]).
Proof.
  split; [reflexivity|].
  apply (decode_inline_array spec_validators (fun _ => "0") DelimPipe true
           [PString "a|b"; PBoolean false; PString "x"]
           (resolveDecodeOptions None None)).
  - intros n t o'. unfold spec_validators, spec_assertExpectedCount. simpl.
    now rewrite Z.eqb_refl.
  - discriminate.
  - reflexivity.
Defined.

(* ================================================================= *)
(** ** A primitive at the root, and the failures of a token *)

(** X26. A primitive at the root, written and read: [decode] of the text
    that [encodePrimitive] writes for a string, a boolean or null returns
    the primitive as [parsePrimitiveToken] reads the text back; that is
    the primitive itself, but for a string that was written without quotes
    and that [isNumericLiteral] accepts. *)
Theorem decode_root_primitive (V : Validators)
    (numberToString : number -> string) (d : ascii) (p : JsonPrimitive)
    (o : ResolvedDecodeOptions) (Hp : is_number p = false) :
  decode V (encodePrimitive numberToString p d) o = OK (JPrim (reread d p)).
Proof.
  destruct p as [s|n|b|]; [|discriminate| |].
  - cbn [encodePrimitive reread]. unfold encodeStringLiteral.
    destruct (isSafeUnquoted s d) eqn:Hs.
    + now rewrite (decode_unquoted_string V s d o Hs).
    + apply decode_quoted_string.
  - destruct b; now rewrite decode_single_line_primitive.
  - now rewrite decode_single_line_primitive.
Qed.

Lemma decode_root_primitive_witness :
  decode spec_validators (encodePrimitive (fun _ => "0") (PString "true") COMMA)
    (resolveDecodeOptions None None)
  = OK (JPrim (PString "true")).
Proof.
  exact (decode_root_primitive spec_validators (fun _ => "0") COMMA
           (PString "true") (resolveDecodeOptions None None) eq_refl).
Defined.

(** X27. [parsePrimitiveToken] fails only on a token that begins with a
    double quote, white space aside, and then with one of the four syntax
    errors of a string literal: no closing quote, text after the closing
    quote, a backslash at the end, or an escape that is not in the
    alphabet.  A token without quotes is always read. *)
Theorem parsePrimitiveToken_fails (token : string) (e : error)
    (H : parsePrimitiveToken token = Err e) :
  startsWith DOUBLE_QUOTE (trim token) = true
  /\ parseStringLiteral token = Err e
  /\ (e = SyntaxError_UnterminatedString \/ e = SyntaxError_AfterClosingQuote
      \/ e = SyntaxError_BackslashAtEnd
      \/ exists c, e = SyntaxError_InvalidEscape c).
Proof.
  unfold parsePrimitiveToken in H.
  destruct (is_empty (trim token)); [discriminate|].
  destruct (startsWith DOUBLE_QUOTE (trim token)) eqn:Hq.
  - split; [reflexivity|].
    assert (Hs : parseStringLiteral token = Err e).
    { unfold parseStringLiteral in *. rewrite trim_idempotent in H.
      destruct (startsWith DOUBLE_QUOTE (trim token)); [|discriminate].
      destruct (findClosingQuote (trim token) 0) as [i|];
        [|simpl in H; injection H as <-; reflexivity].
      destruct (negb _); [simpl in H; injection H as <-; reflexivity|].
      destruct (unescapeString _);
        [discriminate | simpl in H; injection H as <-; reflexivity]. }
    split; [exact Hs|]. clear H. unfold parseStringLiteral in Hs.
    rewrite Hq in Hs.
    destruct (findClosingQuote (trim token) 0) as [i|];
      [|injection Hs as <-; now left].
    destruct (negb _); [injection Hs as <-; right; now left|].
    right. right. revert Hs.
    generalize (slice 1 i (trim token)) as s. clear.
    induction s as [s IH] using string_len_ind. intros H.
    destruct s as [|c rest]; [discriminate|]. simpl in H.
    destruct (Ascii.eqb c BACKSLASH).
    + destruct rest as [|next rest']; [injection H as <-; now left|].
      assert (Hrec : forall x,
                 (r <- unescapeString rest' ;; OK (String x r)) = Err e ->
                 e = SyntaxError_BackslashAtEnd
                 \/ exists c0, e = SyntaxError_InvalidEscape c0).
      { intros x Hx. apply (IH rest'); [simpl; lia|].
        destruct (unescapeString rest'); [discriminate | exact Hx]. }
      destruct (Ascii.eqb next "n"); [now apply Hrec in H|].
      destruct (Ascii.eqb next "t"); [now apply Hrec in H|].
      destruct (Ascii.eqb next "r"); [now apply Hrec in H|].
      destruct (Ascii.eqb next BACKSLASH); [now apply Hrec in H|].
      destruct (Ascii.eqb next DOUBLE_QUOTE); [now apply Hrec in H|].
      injection H as <-. right. now exists next.
    + apply (IH rest); [simpl; lia|].
      destruct (unescapeString rest); [discriminate | exact H].
  - destruct (String.eqb (trim token) TRUE_LITERAL); [discriminate|].
    destruct (String.eqb (trim token) FALSE_LITERAL); [discriminate|].
    destruct (String.eqb (trim token) NULL_LITERAL); [discriminate|].
    destruct (isNumericLiteral (trim token)); discriminate.
Qed.

Lemma parsePrimitiveToken_fails_witness :
  parsePrimitiveToken (" " ++ quoted "a" ++ "b") = Err SyntaxError_AfterClosingQuote
  /\ startsWith DOUBLE_QUOTE (trim (" " ++ quoted "a" ++ "b")) = true.
Proof.
  split; [reflexivity|].
  exact (proj1 (parsePrimitiveToken_fails (" " ++ quoted "a" ++ "b")
                  SyntaxError_AfterClosingQuote eq_refl)).
Defined.

(** X28. Two different keys are never written the same by [encodeKey],
    and two different strings are never written the same by
    [encodeStringLiteral] for one delimiter. *)
Theorem encodeKey_encodeStringLiteral_injective :
  (forall k1 k2 : string, encodeKey k1 = encodeKey k2 -> k1 = k2)
  /\ (forall (d : ascii) (s1 s2 : string),
        encodeStringLiteral s1 d = encodeStringLiteral s2 d -> s1 = s2).
Proof.
  split.
  - intros k1 k2 H.
    pose proof (encodeKey_parseKeyToken_lemma k1 "") as H1.
    rewrite H, encodeKey_parseKeyToken_lemma in H1. now injection H1.
  - intros d s1 s2 H.
    pose proof (parseStringLiteral_encoded s1 d) as H1.
    rewrite H, parseStringLiteral_encoded in H1. now injection H1.
Qed.
